(** * Speech recipes: tokenizer, data split and stage life cycle

    A shallow embedding of the recipe code of the repository:
    - [speechbrain/tokenizers/SimpleTokenizer.py] (character tokenizer),
    - [templates/speech_recognition_CharTokens_NoLM/Tokenizer/ljspeech_prepare.py]
      (train/valid/test split of the LJSpeech file list),
    - [recipes/timers-and-such/multistage/train/train.py] (class [SLU]),
    - [templates/speech_recognition_CharTokens_NoLM/ASR/train.py] (class [ASR]).

    Python exceptions are values of [exn]; a computation that may raise
    returns a [result].  Methods of the two [Brain] subclasses run in a state
    monad over the fields of [self], in which a raised exception keeps the
    state reached so far (Python does not roll back side effects). *)

From Stdlib Require Import ZArith QArith Qround Ascii String List Lia.
From stdpp Require Import base option list gmap strings fin_maps.

Local Open Scope string_scope.
Local Open Scope list_scope.
Local Open Scope Z_scope.

(** ** Python values shared by all files *)

(** Keys of the dictionaries the code indexes. *)
Inductive key :=
| KChar (c : ascii)
| KInt (i : Z)
| KStr (s : string).

(** The exceptions the modelled code can raise. *)
Inductive exn :=
| KeyError (k : key)
| ValueError (msg : string)
| IndexError
| AssertionError
| AttributeError (name : string)
| RuntimeError (msg : string).

Inductive result (A : Type) :=
| Ok (a : A)
| Raise (e : exn).
Arguments Ok {A} a.
Arguments Raise {A} e.

Definition result_bind {A B} (r : result A) (f : A → result B) : result B :=
  match r with
  | Ok a => f a
  | Raise e => Raise e
  end.

(** A list comprehension [[f(x) for x in l]] whose body may raise: the first
    exception, in iteration order, ends the comprehension. *)
Fixpoint comprehension {A B} (f : A → result B) (l : list A) : result (list B) :=
  match l with
  | [] => Ok []
  | x :: l' =>
      result_bind (f x) (λ y,
      result_bind (comprehension f l') (λ ys, Ok (y :: ys)))
  end.

(** [enumerate(l)]. *)
Fixpoint enumerate_from {A} (i : Z) (l : list A) : list (Z * A) :=
  match l with
  | [] => []
  | x :: l' => (i, x) :: enumerate_from (i + 1) l'
  end.
Definition enumerate {A} (l : list A) : list (Z * A) := enumerate_from 0 l.

(** A dict comprehension [{k: v for ...}] over a list of pairs: a later
    pair with the same key overwrites an earlier one. *)
Definition dict_of {K V} `{Countable K} (kvs : list (K * V)) : gmap K V :=
  fold_left (λ d kv, <[kv.1 := kv.2]> d) kvs ∅.

(** ** speechbrain/tokenizers/SimpleTokenizer.py *)

Module SimpleTokenizer.

(** [string.ascii_lowercase]. *)
Definition ascii_lowercase : string := "abcdefghijklmnopqrstuvwxyz".

Record t := {
  vocab : list ascii;
  id2sym : gmap Z ascii;
  sym2id : gmap ascii Z
}.

(** [__init__]: [vocab += string.ascii_lowercase] extends the list with
    the characters of the string. *)
Definition init : t :=
  let vocab := ["-"%char; "|"%char] ++ list_ascii_of_string ascii_lowercase in
  {| vocab := vocab;
     id2sym := dict_of (enumerate vocab);
     sym2id := dict_of ((λ p, (p.2, p.1)) <$> enumerate vocab) |}.

(** [self.sym2id[s]]. *)
Definition sym2id_getitem (self : t) (s : ascii) : result Z :=
  match sym2id self !! s with
  | Some i => Ok i
  | None => Raise (KeyError (KChar s))
  end.

(** [self.id2sym[i]]. *)
Definition id2sym_getitem (self : t) (i : Z) : result ascii :=
  match id2sym self !! i with
  | Some s => Ok s
  | None => Raise (KeyError (KInt i))
  end.

Definition encode_as_ids (self : t) (text : string) : result (list Z) :=
  comprehension (sym2id_getitem self) (list_ascii_of_string text).

Definition decode_ids (self : t) (ids : list Z) : result string :=
  result_bind (comprehension (id2sym_getitem self) ids)
              (λ syms, Ok (string_of_list_ascii syms)).

End SimpleTokenizer.


(** ** Python strings and lists *)

(** [s.split(sep)] for a one-character separator. *)
Fixpoint split_on (sep : ascii) (s : string) : list string :=
  match s with
  | EmptyString => [""]
  | String c s' =>
      if Ascii.eqb c sep then "" :: split_on sep s'
      else match split_on sep s' with
           | w :: ws => String c w :: ws
           | [] => [String c ""]
           end
  end.

(** [sep.join(l)]. *)
Fixpoint join (sep : string) (l : list string) : string :=
  match l with
  | [] => ""
  | [w] => w
  | w :: ws => w +:+ sep +:+ join sep ws
  end.

(** [s.replace(a, b)] for one-character [a] and [b]. *)
Fixpoint replace_char (a b : ascii) (s : string) : string :=
  match s with
  | EmptyString => ""
  | String c s' => String (if Ascii.eqb c a then b else c) (replace_char a b s')
  end.

(** [s.replace(a, "")] for a one-character [a]. *)
Fixpoint remove_char (a : ascii) (s : string) : string :=
  match s with
  | EmptyString => ""
  | String c s' => if Ascii.eqb c a then remove_char a s' else String c (remove_char a s')
  end.

(** [l[-1]] of a list ([IndexError] on the empty list). *)
Definition last_item {A} (l : list A) : result A :=
  match last l with
  | Some x => Ok x
  | None => Raise IndexError
  end.

(** Where a slice bound lands in a list of length [len]: a negative bound
    counts from the end, and every bound is clipped to [0..len]. *)
Definition slice_index (len i : Z) : Z :=
  if i <? 0 then Z.max (len + i) 0 else Z.min i len.

(** [l[start:stop]]; [None] is an omitted bound. *)
Definition py_slice {A} (l : list A) (start stop : option Z) : list A :=
  let len := Z.of_nat (length l) in
  let lo := from_option (slice_index len) 0 start in
  let hi := from_option (slice_index len) len stop in
  take (Z.to_nat (hi - lo)) (drop (Z.to_nat lo) l).

(** [max(l)] of a list of integers ([ValueError] on the empty list). *)
Definition py_max (l : list Z) : result Z :=
  match l with
  | [] => Raise (ValueError "max() arg is an empty sequence")
  | x :: l' => Ok (fold_left Z.max l' x)
  end.

(** [x in l] for strings. *)
Definition str_in (x : string) (l : list string) : bool :=
  bool_decide (x ∈ l).

(** ** templates/speech_recognition_CharTokens_NoLM/Tokenizer/ljspeech_prepare.py *)

Module LJSpeech.

Definition LJSPEECH_EXPECTED_N : Z := 13100.

(** [os.path.sep] on the POSIX systems the recipe runs on. *)
Definition sep : ascii := "/"%char.

(** Index of the last occurrence of [c], as [str.rfind]. *)
Fixpoint rfind (c : ascii) (s : list ascii) : option nat :=
  match s with
  | [] => None
  | x :: s' =>
      match rfind c s' with
      | Some i => Some (S i)
      | None => if Ascii.eqb x c then Some 0%nat else None
      end
  end.

(** [os.path.splitext] (library code) on a name that holds no separator:
    the extension starts at the last dot, unless only dots come before it. *)
Definition splitext (p : string) : string * string :=
  let cs := list_ascii_of_string p in
  match rfind "."%char cs with
  | Some d =>
      if forallb (Ascii.eqb "."%char) (take d cs) then (p, "")
      else (string_of_list_ascii (take d cs), string_of_list_ascii (drop d cs))
  | None => (p, "")
  end.

(** The local function [get_uttid] of [prepare_ljspeech]. *)
Definition get_uttid (wav_p : string) : result string :=
  let path_parts := split_on sep wav_p in
  result_bind (last_item path_parts) (λ name, Ok (splitext name).1).

(** Line 98: the files whose utterance id is not excluded. *)
Fixpoint exclude_uttids (wav_list : list string) (uttids_to_excl : list string)
  : result (list string) :=
  match wav_list with
  | [] => Ok []
  | wav_p :: rest =>
      result_bind (get_uttid wav_p) (λ uttid,
      result_bind (exclude_uttids rest uttids_to_excl) (λ kept,
      Ok (if str_in uttid uttids_to_excl then kept else wav_p :: kept)))
  end.

Record splits := {
  wav_list_train : list string;
  wav_list_valid : list string;
  wav_list_test : list string
}.

(** Lines 102-109: the three slices, from the two counts. *)
Definition split_by_counts (wav_list : list string) (valid_n test_n : Z)
  : result splits :=
  let filtered_n := Z.of_nat (length wav_list) in
  let train_n := filtered_n - (valid_n + test_n) in
  if negb (train_n + valid_n + test_n =? filtered_n) then Raise AssertionError else
  let train := py_slice wav_list None (Some train_n) in
  let valid := py_slice wav_list (Some train_n) (Some (train_n + valid_n)) in
  let test := py_slice wav_list (Some (train_n + valid_n)) None in
  if negb (Z.of_nat (length train) + Z.of_nat (length valid) + Z.of_nat (length test)
           =? filtered_n)
  then Raise AssertionError
  else Ok {| wav_list_train := train; wav_list_valid := valid; wav_list_test := test |}.

(** Lines 99-109, on the filtered list.  The two percentages are Python
    floats; they are read as the rationals they denote and
    [math.floor(p * n)] as the exact floor of the product. *)
Definition split_wav_list (wav_list : list string) (valid_percent test_percent : Q)
  : result splits :=
  let filtered_n := Z.of_nat (length wav_list) in
  let valid_n := Qfloor (valid_percent * inject_Z filtered_n) in
  let test_n := Qfloor (test_percent * inject_Z filtered_n) in
  split_by_counts wav_list valid_n test_n.

(** The list computation of [prepare_ljspeech] (lines 72-73 and 95-109):
    [wav_list] is what [get_all_files] returned and [uttids_to_excl] the
    stripped lines of the exclusion file. *)
Definition prepare_ljspeech (wav_list : list string) (uttids_to_excl : list string)
    (valid_percent test_percent : Q) : result splits :=
  let n := Z.of_nat (length wav_list) in
  if negb (n =? LJSPEECH_EXPECTED_N) then Raise AssertionError else
  result_bind (exclude_uttids wav_list uttids_to_excl) (λ wav_list,
  split_wav_list wav_list valid_percent test_percent).

End LJSpeech.

(** ** The framework as seen from the recipes *)

(** [sb.Stage]. *)
Inductive Stage := TRAIN | VALID | TEST.

Global Instance Stage_eq_dec : EqDecision Stage.
Proof. solve_decision. Defined.

(** The tensor engine.  Tensors and Python floats are opaque to the recipes,
    which only hand them from one framework call to the next. *)
Class Engine := {
  Tensor : Type;
  Float : Type;
  (** internal state of the learning-rate scheduler *)
  Scheduler : Type;
  (** what an error-rate accumulator keeps for one utterance *)
  UttStat : Type;
  (** [torch.cat(ts, dim=0)] *)
  cat : list Tensor → Tensor;
  (** [t.detach()] *)
  detach : Tensor → Tensor;
  (** [torch.LongTensor(ids)] *)
  LongTensor : list Z → Tensor;
  (** [Brain.check_gradients(loss)] *)
  check_gradients : Tensor → bool;
  (** the call of the scheduler object [hparams.lr_annealing]: from its
      state and the metric, the old and the new learning rate *)
  lr_annealing : Scheduler → Float → (Float * Float) * Scheduler;
  (** the statistics an error-rate accumulator derives from the ids,
      predictions and targets of one batch *)
  utt_stats : bool → list string → list (list string) → list (list string) → list UttStat;
  (** the scalar an error-rate accumulator reports for a field *)
  summarize_scores : bool → list UttStat → string → Float
}.

(** The interface the recipes use of a tokenizer object. *)
Class Tokenizer := {
  encode_as_ids : string → result (list Z);
  decode_ids : list Z → result string
}.

Definition simple_tokenizer : Tokenizer :=
  {| encode_as_ids := SimpleTokenizer.encode_as_ids SimpleTokenizer.init;
     decode_ids := SimpleTokenizer.decode_ids SimpleTokenizer.init |}.

(** The steps of the data path whose order is observed. *)
Inductive step :=
| ReadAudio
| EncodeAsIds
| EnvCorrupt
| Augmentation
| ComputeFeatures
| Normalize
| DumpFeats.

Global Instance step_eq_dec : EqDecision step.
Proof. solve_decision. Defined.

(** The statistics dictionaries [{"loss": ..., "CER": ..., "WER": ...}]. *)
Abbreviation Stats := (gmap string Float).

Section Framework.
Context `{Engine}.

(** Modelled from the spec: the metric aggregators
    ([speechbrain.utils.metric_stats.ErrorRateStats], whose source is not
    at hand) accumulate per-utterance statistics across a stage and
    summarise them into a scalar.  A new accumulator is empty;
    [split_tokens] tells the character error rate from the word error
    rate. *)
Record ErrorRateStats := {
  split_tokens : bool;
  scores : list UttStat
}.

Definition new_stats (split : bool) : ErrorRateStats :=
  {| split_tokens := split; scores := [] |}.

(** [hparams.cer_computer()] and [hparams.error_rate_computer()]. *)
Definition cer_computer : ErrorRateStats := new_stats true.
Definition error_rate_computer : ErrorRateStats := new_stats false.

(** [metric.append(ids, predict, target)]. *)
Definition append (m : ErrorRateStats) (ids : list string)
    (predict target : list (list string)) : ErrorRateStats :=
  {| split_tokens := split_tokens m;
     scores := scores m ++ utt_stats (split_tokens m) ids predict target |}.

(** [metric.summarize(field)]. *)
Definition summarize (m : ErrorRateStats) (field : string) : Float :=
  summarize_scores (split_tokens m) (scores m) field.


(** The [stats_meta] argument of [log_stats]. *)
Inductive stats_meta :=
| EpochLr (epoch : Z) (lr : Float)
| EpochLoaded (current : Z).

(** Calls into the framework that leave the recipe, in program order. *)
Inductive event :=
| Step (s : step)
| Backward (loss : Tensor)
| OptimizerStep
| ZeroGrad
| LrAnnealing (metric : Float)
| UpdateLearningRate (new_lr : Float)
| LogStats (meta : stats_meta) (train_stats valid_stats test_stats : option Stats)
| LogDict (name : string) (value : Tensor)
| SaveAndKeepOnly (meta : Stats) (min_keys : list string)
| WriteStats (file : string) (m : ErrorRateStats)
| Print (line : string).

(** The attributes of a [Brain] object that the recipes read or write.
    An attribute that was never assigned is [None]. *)
Record Brain := {
  batch_count : option Z;
  train_stats : option Stats;
  cer_metric : option ErrorRateStats;
  wer_metric : option ErrorRateStats;
  feat_lens : option Tensor;
  (** learning rate held by [self.optimizer] *)
  optimizer_lr : Float;
  (** state of [hparams.lr_annealing] *)
  scheduler : Scheduler;
  trace : list event
}.

Definition set_batch_count (v : Z) (b : Brain) : Brain :=
  {| batch_count := Some v; train_stats := train_stats b; cer_metric := cer_metric b;
     wer_metric := wer_metric b; feat_lens := feat_lens b;
     optimizer_lr := optimizer_lr b; scheduler := scheduler b; trace := trace b |}.

Definition set_train_stats (v : Stats) (b : Brain) : Brain :=
  {| batch_count := batch_count b; train_stats := Some v; cer_metric := cer_metric b;
     wer_metric := wer_metric b; feat_lens := feat_lens b;
     optimizer_lr := optimizer_lr b; scheduler := scheduler b; trace := trace b |}.

Definition set_cer_metric (v : ErrorRateStats) (b : Brain) : Brain :=
  {| batch_count := batch_count b; train_stats := train_stats b; cer_metric := Some v;
     wer_metric := wer_metric b; feat_lens := feat_lens b;
     optimizer_lr := optimizer_lr b; scheduler := scheduler b; trace := trace b |}.

Definition set_wer_metric (v : ErrorRateStats) (b : Brain) : Brain :=
  {| batch_count := batch_count b; train_stats := train_stats b; cer_metric := cer_metric b;
     wer_metric := Some v; feat_lens := feat_lens b;
     optimizer_lr := optimizer_lr b; scheduler := scheduler b; trace := trace b |}.

Definition set_feat_lens (v : Tensor) (b : Brain) : Brain :=
  {| batch_count := batch_count b; train_stats := train_stats b; cer_metric := cer_metric b;
     wer_metric := wer_metric b; feat_lens := Some v;
     optimizer_lr := optimizer_lr b; scheduler := scheduler b; trace := trace b |}.

Definition set_optimizer_lr (v : Float) (b : Brain) : Brain :=
  {| batch_count := batch_count b; train_stats := train_stats b; cer_metric := cer_metric b;
     wer_metric := wer_metric b; feat_lens := feat_lens b;
     optimizer_lr := v; scheduler := scheduler b; trace := trace b |}.

Definition set_scheduler (v : Scheduler) (b : Brain) : Brain :=
  {| batch_count := batch_count b; train_stats := train_stats b; cer_metric := cer_metric b;
     wer_metric := wer_metric b; feat_lens := feat_lens b;
     optimizer_lr := optimizer_lr b; scheduler := v; trace := trace b |}.

Definition log_event (e : event) (b : Brain) : Brain :=
  {| batch_count := batch_count b; train_stats := train_stats b; cer_metric := cer_metric b;
     wer_metric := wer_metric b; feat_lens := feat_lens b;
     optimizer_lr := optimizer_lr b; scheduler := scheduler b; trace := trace b ++ [e] |}.

(** The statistics of a stage that is not a TRAIN stage. *)
Definition eval_stats (stage_loss : Float) (cer wer : ErrorRateStats) : Stats :=
  <["WER" := summarize wer "error_rate"]>
    (<["CER" := summarize cer "error_rate"]> {["loss" := stage_loss]}).

(** The events a method added to the log. *)
Definition new_events (before after : Brain) : list event :=
  drop (length (trace before)) (trace after).

(** Calls that anneal the learning rate or update the optimizer with it. *)
Definition is_lr_event (e : event) : Prop :=
  match e with
  | LrAnnealing _ | UpdateLearningRate _ => True
  | _ => False
  end.

(** Calls that save a checkpoint. *)
Definition is_checkpoint_event (e : event) : Prop :=
  match e with
  | SaveAndKeepOnly _ _ => True
  | _ => False
  end.

(** Calls that write the statistics to the log. *)
Definition is_log_stats_event (e : event) : Prop :=
  match e with
  | LogStats _ _ _ _ => True
  | _ => False
  end.

Global Instance is_lr_event_dec e : Decision (is_lr_event e).
Proof. destruct e; simpl; apply _. Defined.

Global Instance is_checkpoint_event_dec e : Decision (is_checkpoint_event e).
Proof. destruct e; simpl; apply _. Defined.

Global Instance is_log_stats_event_dec e : Decision (is_log_stats_event e).
Proof. destruct e; simpl; apply _. Defined.

(** Methods: a state transformer that returns a value or raises, and in
    both cases leaves the state it reached. *)
Definition M (A : Type) : Type := Brain → result A * Brain.

Definition ret {A} (a : A) : M A := λ b, (Ok a, b).

Definition bind {A B} (m : M A) (f : A → M B) : M B :=
  λ b, match m b with
       | (Ok a, b') => f a b'
       | (Raise e, b') => (Raise e, b')
       end.

Definition raise {A} (e : exn) : M A := λ b, (Raise e, b).

Definition lift {A} (r : result A) : M A := λ b, (r, b).

Definition get {A} (f : Brain → A) : M A := λ b, (Ok (f b), b).

Definition modify (f : Brain → Brain) : M unit := λ b, (Ok tt, f b).

(** Reading [self.name]: [AttributeError] when it was never assigned. *)
Definition getattr {A} (name : string) (f : Brain → option A) : M A :=
  λ b, match f b with
       | Some a => (Ok a, b)
       | None => (Raise (AttributeError name), b)
       end.

Definition emit (e : event) : M unit := modify (log_event e).

Global Instance M_ret : MRet M := @ret.
Global Instance M_bind : MBind M := λ A B f m, bind m f.

(** A [for] loop whose body is run for its effects. *)
Fixpoint for_each {A} (l : list A) (body : A → M unit) : M unit :=
  match l with
  | [] => ret tt
  | x :: l' => body x;; for_each l' body
  end.

(** A loop that collects what its body returns. *)
Fixpoint for_collect {A B} (l : list A) (body : A → M B) : M (list B) :=
  match l with
  | [] => ret []
  | x :: l' => y ← body x; ys ← for_collect l' body; ret (y :: ys)
  end.

(** [self.<name>.append(ids, predict, target)] on a metric attribute. *)
Definition metric_append (name : string) (field : Brain → option ErrorRateStats)
    (update : ErrorRateStats → Brain → Brain)
    (ids : list string) (predict target : list (list string)) : M unit :=
  m ← getattr name field;
  modify (update (append m ids predict target)).

(** Modelled from the spec: [sb.nnet.schedulers.update_learning_rate]
    (whose source is not at hand) updates the optimizer to the new learning
    rate. *)
Definition update_learning_rate (new_lr : Float) : M unit :=
  emit (UpdateLearningRate new_lr);;
  modify (set_optimizer_lr new_lr).

(** [self.hparams.lr_annealing(metric)]. *)
Definition call_lr_annealing (metric : Float) : M (Float * Float) :=
  emit (LrAnnealing metric);;
  s ← get scheduler;
  let '(lrs, s') := lr_annealing s metric in
  modify (set_scheduler s');;
  mret lrs.

(** [d[k]] on a statistics dictionary. *)
Definition stats_getitem (d : Stats) (k : string) : M Float :=
  match d !! k with
  | Some v => ret v
  | None => raise (KeyError (KStr k))
  end.

End Framework.

(** ** recipes/timers-and-such/multistage/train/train.py *)

Module SLU.
Section SLU.
Context `{Engine}.

(** The global [show_results_every] set in the main block. *)
Definition show_results_every : Z := 100.

(** A padded batch with the output keys of [data_io_prepare]; [tokens_bos]
    and the like are pairs of a tensor and its relative lengths. *)
Record Batch := {
  id : list string;
  sig : Tensor * Tensor;
  semantics : list string;
  tokens_bos : Tensor * Tensor;
  tokens_eos : Tensor * Tensor;
  tokens : Tensor * Tensor
}.

(** What the recipe calls on [self.hparams] and [self.modules].  An entry
    of type [option] may be missing from the hyperparameter file
    ([hasattr] is false). *)
Record HParams := {
  env_corrupt : option (Tensor → Tensor → Tensor);
  augmentation : option (Tensor → Tensor → Tensor);
  (** [modules.asr_model.transcribe]: words and token ids per utterance *)
  transcribe : Tensor → Tensor → list (list string) * list (list Z);
  (** [input_emb], applied to the tensor of padded token ids *)
  input_emb : list (list Z) → Tensor;
  slu_enc : Tensor → Tensor;
  output_emb : Tensor → Tensor;
  dec : Tensor → Tensor → list Q → Tensor * Tensor;
  seq_lin : Tensor → Tensor;
  log_softmax : Tensor → Tensor;
  beam_searcher : Tensor → list Q → list (list Z) * Tensor;
  seq_cost : Tensor → Tensor → Tensor → Tensor;
  epoch_counter_current : Z;
  wer_file : string
}.

Context (hparams : HParams) (tokenizer : Tokenizer).

(** What [compute_forward] returns: a tuple of two or of three. *)
Inductive predictions :=
| Pred2 (p_seq : Tensor) (asr_tokens_lens : list Q)
| Pred3 (p_seq : Tensor) (asr_tokens_lens : list Q) (p_tokens : list (list Z)).

(** [torch.tensor(rows)] on a list of lists: the rows must have one length. *)
Definition torch_tensor (rows : list (list Z)) : result (list (list Z)) :=
  match rows with
  | [] => Ok []
  | r :: rest =>
      if forallb (λ r', (length r' =? length r)%nat) rest then Ok rows
      else Raise (ValueError "expected sequence of equal length")
  end.

(** [t.max()] of a one-dimensional tensor of numbers (an error on an empty
    one). *)
Definition tensor_max (l : list Q) : result Q :=
  match l with
  | [] => Raise (RuntimeError "max of an empty tensor")
  | x :: l' => Ok (fold_left (λ a b, if Qle_bool a b then b else a) l' x)
  end.

(** Lines 53-65 of [compute_forward]: the transcripts are padded in place
    with zeros, stacked into a tensor, and the relative lengths are taken
    from the rows of that tensor.  The division is one of floats that hold
    small integers; it is read in the rationals. *)
Definition pad_asr_tokens (asr_tokens : list (list Z)) : result (list (list Z) * list Q) :=
  result_bind (py_max ((λ t, Z.of_nat (length t)) <$> asr_tokens)) (λ max_length,
  let max_length := if max_length =? 0 then 1 else max_length in
  let asr_tokens :=
    (λ t, t ++ replicate (Z.to_nat (max_length - Z.of_nat (length t))) 0) <$> asr_tokens in
  result_bind (torch_tensor asr_tokens) (λ asr_tokens,
  let asr_tokens_lens := (λ t, inject_Z (Z.max (Z.of_nat (length t)) 1)) <$> asr_tokens in
  result_bind (tensor_max asr_tokens_lens) (λ m,
  Ok (asr_tokens, (λ x, x / m)%Q <$> asr_tokens_lens)))).

(** [stage == TRAIN and self.batch_count % show_results_every != 0]; the
    attribute is read only in the TRAIN stage. *)
Definition quiet_train_batch (stage : Stage) : M bool :=
  match stage with
  | TRAIN =>
      n ← getattr "batch_count" batch_count;
      mret (negb (n `mod` show_results_every =? 0))
  | _ => mret false
  end.

(** [SLU.compute_forward], lines 31-92.  Moving the batch and the tensors
    to the device changes no value and is left out. *)
Definition compute_forward (batch : Batch) (stage : Stage) : M predictions :=
  let '(wavs, wav_lens) := sig batch in
  let '(tokens_bos, tokens_bos_lens) := tokens_bos batch in
  let '(wavs, wav_lens, tokens_bos, tokens_bos_lens) :=
    match stage with
    | TRAIN =>
        let '(wavs, wav_lens, tokens_bos, tokens_bos_lens) :=
          match env_corrupt hparams with
          | Some corrupt =>
              let wavs_noise := corrupt wavs wav_lens in
              (cat [wavs; wavs_noise], cat [wav_lens; wav_lens],
               cat [tokens_bos; tokens_bos], cat [tokens_bos_lens; tokens_bos_lens])
          | None => (wavs, wav_lens, tokens_bos, tokens_bos_lens)
          end in
        let wavs :=
          match augmentation hparams with
          | Some augment => augment wavs wav_lens
          | None => wavs
          end in
        (wavs, wav_lens, tokens_bos, tokens_bos_lens)
    | _ => (wavs, wav_lens, tokens_bos, tokens_bos_lens)
    end in
  let '(words, asr_tokens) := transcribe hparams (detach wavs) wav_lens in
  '(asr_tokens, asr_tokens_lens) ← lift (pad_asr_tokens asr_tokens);
  let embedded_transcripts := input_emb hparams asr_tokens in
  let encoder_out := slu_enc hparams embedded_transcripts in
  let e_in := output_emb hparams tokens_bos in
  let '(h, _) := dec hparams e_in encoder_out asr_tokens_lens in
  let logits := seq_lin hparams h in
  let p_seq := log_softmax hparams logits in
  quiet ← quiet_train_batch stage;
  if quiet : bool then mret (Pred2 p_seq asr_tokens_lens)
  else
    let '(p_tokens, scores) := beam_searcher hparams encoder_out asr_tokens_lens in
    mret (Pred3 p_seq asr_tokens_lens p_tokens).

(** Lines 133-136: the loop that prints predictions and targets. *)
Fixpoint print_results (i : nat) (predicted_semantics target_semantics : list (list string))
  : M unit :=
  match target_semantics with
  | [] => mret tt
  | target :: rest =>
      match predicted_semantics !! i with
      | None => raise IndexError
      | Some predicted =>
          emit (Print (replace_char "|" "," (join " " predicted)));;
          emit (Print (replace_char "|" "," (join " " target)));;
          emit (Print "");;
          print_results (S i) predicted_semantics rest
      end
  end.

(** [SLU.compute_objectives], lines 94-146.  [predicted_tokens] is bound
    only where the predictions are a tuple of three; it is read only
    there. *)
Definition compute_objectives (preds : predictions) (batch : Batch) (stage : Stage)
  : M Tensor :=
  quiet ← quiet_train_batch stage;
  '(p_seq, asr_tokens_lens, predicted_tokens) ←
    match quiet, preds with
    | true, Pred2 p l => mret (p, l, [])
    | true, Pred3 _ _ _ => raise (ValueError "too many values to unpack")
    | false, Pred3 p l t => mret (p, l, t)
    | false, Pred2 _ _ => raise (ValueError "not enough values to unpack")
    end;
  let ids := id batch in
  let '(tokens_eos, tokens_eos_lens) := tokens_eos batch in
  let '(tokens, tokens_lens) := tokens batch in
  let '(tokens_eos, tokens_eos_lens) :=
    match env_corrupt hparams, stage with
    | Some _, TRAIN => (cat [tokens_eos; tokens_eos], cat [tokens_eos_lens; tokens_eos_lens])
    | _, _ => (tokens_eos, tokens_eos_lens)
    end in
  let loss_seq := seq_cost hparams p_seq tokens_eos tokens_eos_lens in
  let loss := loss_seq in
  show ← match stage with
         | TRAIN =>
             n ← getattr "batch_count" batch_count;
             mret (n `mod` show_results_every =? 0)
         | _ => mret true
         end;
  (if show : bool then
     predicted_semantics ←
       lift (comprehension
               (λ utt_seq, result_bind (decode_ids utt_seq) (λ s, Ok (split_on " " s)))
               predicted_tokens);
     let target_semantics := split_on " " <$> semantics batch in
     print_results 0 predicted_semantics target_semantics;;
     match stage with
     | TRAIN => mret tt
     | _ =>
         metric_append "wer_metric" wer_metric set_wer_metric
                       ids predicted_semantics target_semantics;;
         metric_append "cer_metric" cer_metric set_cer_metric
                       ids predicted_semantics target_semantics
     end
   else mret tt);;
  mret loss.

(** [SLU.fit_batch], lines 148-157. *)
Definition fit_batch (batch : Batch) : M Tensor :=
  predictions ← compute_forward batch TRAIN;
  loss ← compute_objectives predictions batch TRAIN;
  emit (Backward loss);;
  (if check_gradients loss then emit OptimizerStep else mret tt);;
  emit ZeroGrad;;
  n ← getattr "batch_count" batch_count;
  modify (set_batch_count (n + 1));;
  mret (detach loss).

(** [SLU.evaluate_batch], lines 159-163. *)
Definition evaluate_batch (batch : Batch) (stage : Stage) : M Tensor :=
  predictions ← compute_forward batch stage;
  loss ← compute_objectives predictions batch stage;
  mret (detach loss).

(** [SLU.on_stage_start], lines 165-172. *)
Definition on_stage_start (stage : Stage) (epoch : Z) : M unit :=
  modify (set_batch_count 0);;
  match stage with
  | TRAIN => mret tt
  | _ =>
      modify (set_cer_metric cer_computer);;
      modify (set_wer_metric error_rate_computer)
  end.

(** [SLU.on_stage_end], lines 174-202.  The dictionary [stage_stats] is
    new in every call; the one stored in [self.train_stats] is never
    written again. *)
Definition on_stage_end (stage : Stage) (stage_loss : Float) (epoch : Z) : M unit :=
  let stage_stats : Stats := {["loss" := stage_loss]} in
  stage_stats ←
    match stage with
    | TRAIN => modify (set_train_stats stage_stats);; mret stage_stats
    | _ =>
        cer ← getattr "cer_metric" cer_metric;
        let stage_stats := <["CER" := summarize cer "error_rate"]> stage_stats in
        wer ← getattr "wer_metric" wer_metric;
        let stage_stats := <["WER" := summarize wer "error_rate"]> stage_stats in
        mret stage_stats
    end;
  match stage with
  | VALID =>
      metric ← stats_getitem stage_stats "WER";
      '(old_lr, new_lr) ← call_lr_annealing metric;
      update_learning_rate new_lr;;
      train ← getattr "train_stats" train_stats;
      emit (LogStats (EpochLr epoch old_lr) (Some train) (Some stage_stats) None);;
      wer ← stats_getitem stage_stats "WER";
      emit (SaveAndKeepOnly {["WER" := wer]} ["WER"])
  | TEST =>
      emit (LogStats (EpochLoaded (epoch_counter_current hparams)) None None (Some stage_stats));;
      wer ← getattr "wer_metric" wer_metric;
      emit (WriteStats (wer_file hparams) wer)
  | TRAIN => mret tt
  end.

(** The calls the training controller makes on the object. *)
Inductive call :=
| OnStageStart (stage : Stage) (epoch : Z)
| FitBatch (batch : Batch)
| EvaluateBatch (batch : Batch) (stage : Stage)
| OnStageEnd (stage : Stage) (stage_loss : Float) (epoch : Z).

Definition run_call (c : call) : M unit :=
  match c with
  | OnStageStart stage epoch => on_stage_start stage epoch
  | FitBatch batch => fit_batch batch;; mret tt
  | EvaluateBatch batch stage => evaluate_batch batch stage;; mret tt
  | OnStageEnd stage stage_loss epoch => on_stage_end stage stage_loss epoch
  end.

Definition run_calls (cs : list call) : M unit := for_each cs run_call.

(** The one call that assigns [self.train_stats]. *)
Definition stores_train_stats (c : call) : bool :=
  match c with
  | OnStageEnd TRAIN _ _ => true
  | _ => false
  end.

End SLU.
End SLU.

(** ** templates/speech_recognition_CharTokens_NoLM/ASR/train.py *)

Module ASR.
Section ASR.
Context `{Engine}.

(** A padded batch with the output keys of [dataio_prepare]. *)
Record Batch := {
  id : list string;
  sig : Tensor * Tensor;
  wav_path : list string;
  utt_id : list string;
  words : list string;
  tokens : Tensor * Tensor
}.

(** What the recipe reads from [hparams] and [self.modules].  An entry of
    type [option] may be missing ([hasattr] is false) or [None]. *)
Record HParams := {
  dump_feats : option bool;
  dump_feats_dir : string;
  no_whitespace : option bool;
  augmentation : option (Tensor → Tensor → Tensor);
  compute_features : Tensor → Tensor;
  log_softmax : Tensor → Tensor;
  ctc_cost : Tensor → Tensor → Tensor → Tensor → Tensor;
  blank_index : Z;
  (** [sb.decoders.ctc_greedy_decode] *)
  ctc_greedy_decode : Tensor → Tensor → Z → list (list Z);
  metric_to_optimize : string;
  epoch_counter_current : Z;
  wer_file : string;
  (** [sb.dataio.dataio.read_audio] *)
  read_audio : string → Tensor;
  (** how the data loader pads and stacks the tensors of the examples *)
  collate : list Tensor → Tensor * Tensor;
  (** [self.modules] *)
  env_corrupt : option (Tensor → Tensor → Tensor);
  normalize : Tensor → Tensor → Tensor;
  encoder : Tensor → Tensor;
  ctc_lin : Tensor → Tensor
}.

Context (hparams : HParams) (tokenizer : Tokenizer).

(** *** The data pipeline of [dataio_prepare] *)

Definition remove_whitespace (s : string) : string :=
  remove_char "|" (remove_char " " s).

(** The first item of [s.split(sep)]. *)
Definition first_item (l : list string) : result string :=
  match l with
  | x :: _ => Ok x
  | [] => Raise IndexError
  end.

(** [audio_pipeline] provides "sig", "wav_path" and "utt_id". *)
Definition audio_pipeline (wav_path : string) : M (Tensor * string * string) :=
  emit (Step ReadAudio);;
  let sig := read_audio hparams wav_path in
  name ← lift (last_item (split_on "/" wav_path));
  utt_id ← lift (first_item (split_on "." name));
  mret (sig, wav_path, utt_id).

(** [text_pipeline] provides "words", "tokens_list" and "tokens". *)
Definition text_pipeline (words : string) : M (string * list Z * Tensor) :=
  let words :=
    match no_whitespace hparams with
    | Some true => remove_whitespace words
    | _ => words
    end in
  emit (Step EncodeAsIds);;
  tokens_list ← lift (encode_as_ids words);
  if negb (0 <? Z.of_nat (length tokens_list)) then raise AssertionError else
  let tokens := LongTensor tokens_list in
  mret (words, tokens_list, tokens).

(** One entry of the json manifest. *)
Record Example := {
  ex_id : string;
  ex_wav : string;
  ex_words : string
}.

(** Modelled from the spec: the dataset and the data loader
    ([speechbrain.dataio], whose source is not at hand) transform each
    example of the manifest with the dynamic items, in the order
    [[audio_pipeline, text_pipeline]] in which [dataio_prepare] lists them,
    and produce a padded batch. *)
Definition load_batch (examples : list Example) : M Batch :=
  items ← for_collect examples (λ ex,
    a ← audio_pipeline (ex_wav ex);
    t ← text_pipeline (ex_words ex);
    mret (ex_id ex, a, t));
  mret {| id := (λ it, it.1.1) <$> items;
          sig := collate hparams ((λ it, it.1.2.1.1) <$> items);
          wav_path := (λ it, it.1.2.1.2) <$> items;
          utt_id := (λ it, it.1.2.2) <$> items;
          words := (λ it, it.2.1.1) <$> items;
          tokens := collate hparams ((λ it, it.2.2) <$> items) |}.

(** *** The class [ASR] *)

(** [ASR.is_ctc_active], lines 136-148. *)
Definition is_ctc_active (stage : Stage) : bool := true.

(** [ASR.prepare_features], lines 150-187; [dump_feats_to_dir] writes
    files and is one logged step. *)
Definition prepare_features (stage : Stage) (wavs : Tensor * Tensor)
    (wav_paths : list string) : M (Tensor * Tensor) :=
  let '(wavs, wav_lens) := wavs in
  let dump_feats := match dump_feats hparams with Some true => true | _ => false end in
  '(wavs, wav_lens) ←
    match stage with
    | TRAIN =>
        '(wavs, wav_lens) ←
          match env_corrupt hparams with
          | Some corrupt =>
              emit (Step EnvCorrupt);;
              let wavs_noise := corrupt wavs wav_lens in
              mret (cat [wavs; wavs_noise], cat [wav_lens; wav_lens])
          | None => mret (wavs, wav_lens)
          end;
        wavs ←
          match augmentation hparams with
          | Some augment => emit (Step Augmentation);; mret (augment wavs wav_lens)
          | None => mret wavs
          end;
        mret (wavs, wav_lens)
    | _ => mret (wavs, wav_lens)
    end;
  emit (Step ComputeFeatures);;
  let feats := compute_features hparams wavs in
  emit (Step Normalize);;
  let feats := normalize hparams feats wav_lens in
  (if dump_feats then emit (Step DumpFeats) else mret tt);;
  mret (feats, wav_lens).

(** [ASR.prepare_tokens], lines 189-203. *)
Definition prepare_tokens (stage : Stage) (tokens : Tensor * Tensor) : Tensor * Tensor :=
  let '(tokens, token_lens) := tokens in
  match env_corrupt hparams, stage with
  | Some _, TRAIN => (cat [tokens; tokens], cat [token_lens; token_lens])
  | _, _ => (tokens, token_lens)
  end.

(** [predictions[k]] on the dictionary [compute_forward] returns. *)
Definition predictions_getitem (predictions : gmap string Tensor) (k : string) : M Tensor :=
  match predictions !! k with
  | Some v => mret v
  | None => raise (KeyError (KStr k))
  end.

(** [ASR.compute_forward], lines 81-134. *)
Definition compute_forward (batch : Batch) (stage : Stage) : M (gmap string Tensor) :=
  '(feats, lens) ← prepare_features stage (sig batch) (wav_path batch);
  modify (set_feat_lens lens);;
  let encoded_signal := encoder hparams (detach feats) in
  let predictions : gmap string Tensor := ∅ in
  let predictions :=
    if is_ctc_active stage
    then <["ctc_logprobs" := log_softmax hparams (ctc_lin hparams encoded_signal)]> predictions
    else predictions in
  mret predictions.

(** [ASR.compute_objectives], lines 205-280. *)
Definition compute_objectives (predictions : gmap string Tensor) (batch : Batch)
    (stage : Stage) : M Tensor :=
  let '(tokens, tokens_lens) := prepare_tokens stage (tokens batch) in
  logprobs ← predictions_getitem predictions "ctc_logprobs";
  lens ← getattr "feat_lens" feat_lens;
  let loss := ctc_cost hparams logprobs tokens lens tokens_lens in
  emit (LogDict "iter_loss" loss);;
  match stage with
  | TRAIN => mret tt
  | _ =>
      logprobs ← predictions_getitem predictions "ctc_logprobs";
      lens ← getattr "feat_lens" feat_lens;
      let predicted_ids := ctc_greedy_decode hparams logprobs lens (blank_index hparams) in
      predicted_words ←
        lift (comprehension
                (λ ids, result_bind (decode_ids ids) (λ s, Ok (split_on " " s)))
                predicted_ids);
      let target_words := split_on " " <$> words batch in
      metric_append "wer_metric" wer_metric set_wer_metric
                    (id batch) predicted_words target_words;;
      metric_append "cer_metric" cer_metric set_cer_metric
                    (id batch) predicted_words target_words
  end;;
  mret loss.

(** [ASR.on_stage_start], lines 282-298. *)
Definition on_stage_start (stage : Stage) (epoch : Z) : M unit :=
  match stage with
  | TRAIN => mret tt
  | _ =>
      modify (set_cer_metric cer_computer);;
      modify (set_wer_metric error_rate_computer)
  end.

(** [ASR.on_stage_end], lines 300-351; [self.hparams["metric_to_optimize"]]
    reads the hyperparameter of that name. *)
Definition on_stage_end (stage : Stage) (stage_loss : Float) (epoch : Z) : M unit :=
  let stage_stats : Stats := {["loss" := stage_loss]} in
  stage_stats ←
    match stage with
    | TRAIN => modify (set_train_stats stage_stats);; mret stage_stats
    | _ =>
        cer ← getattr "cer_metric" cer_metric;
        let stage_stats := <["CER" := summarize cer "error_rate"]> stage_stats in
        wer ← getattr "wer_metric" wer_metric;
        let stage_stats := <["WER" := summarize wer "error_rate"]> stage_stats in
        mret stage_stats
    end;
  match stage with
  | VALID =>
      metric ← stats_getitem stage_stats (metric_to_optimize hparams);
      '(old_lr, new_lr) ← call_lr_annealing metric;
      update_learning_rate new_lr;;
      train ← getattr "train_stats" train_stats;
      emit (LogStats (EpochLr epoch old_lr) (Some train) (Some stage_stats) None);;
      metric ← stats_getitem stage_stats (metric_to_optimize hparams);
      emit (SaveAndKeepOnly {[metric_to_optimize hparams := metric]}
                            [metric_to_optimize hparams])
  | TEST =>
      emit (LogStats (EpochLoaded (epoch_counter_current hparams)) None None (Some stage_stats));;
      wer ← getattr "wer_metric" wer_metric;
      emit (WriteStats (wer_file hparams) wer)
  | TRAIN => mret tt
  end.

(** Modelled from the spec: [ASR] inherits [fit_batch] from the training
    controller ([speechbrain.core.Brain], whose source is not at hand),
    which calls the forward and objective functions per batch and takes
    the gradient step. *)
Definition fit_batch (batch : Batch) : M Tensor :=
  predictions ← compute_forward batch TRAIN;
  loss ← compute_objectives predictions batch TRAIN;
  emit (Backward loss);;
  (if check_gradients loss then emit OptimizerStep else mret tt);;
  emit ZeroGrad;;
  mret (detach loss).

(** Modelled from the spec: [evaluate_batch] is inherited in the same way;
    it calls the forward and objective functions for the stage. *)
Definition evaluate_batch (batch : Batch) (stage : Stage) : M Tensor :=
  predictions ← compute_forward batch stage;
  loss ← compute_objectives predictions batch stage;
  mret (detach loss).

(** The calls the training controller makes on the object. *)
Inductive call :=
| OnStageStart (stage : Stage) (epoch : Z)
| FitBatch (batch : Batch)
| EvaluateBatch (batch : Batch) (stage : Stage)
| OnStageEnd (stage : Stage) (stage_loss : Float) (epoch : Z).

Definition run_call (c : call) : M unit :=
  match c with
  | OnStageStart stage epoch => on_stage_start stage epoch
  | FitBatch batch => fit_batch batch;; mret tt
  | EvaluateBatch batch stage => evaluate_batch batch stage;; mret tt
  | OnStageEnd stage stage_loss epoch => on_stage_end stage stage_loss epoch
  end.

Definition run_calls (cs : list call) : M unit := for_each cs run_call.

(** The one call that assigns [self.train_stats]. *)
Definition stores_train_stats (c : call) : bool :=
  match c with
  | OnStageEnd TRAIN _ _ => true
  | _ => false
  end.

(** Modelled from the spec: the training controller
    ([speechbrain.core.Brain], whose source is not at hand) hands each
    padded batch of the dataset pipeline to [compute_forward]. *)
Definition process_examples (examples : list Example) (stage : Stage)
  : M (gmap string Tensor) :=
  batch ← load_batch examples;
  compute_forward batch stage.

(** The steps [prepare_features] takes on a batch, from its code. *)
Definition batch_steps (stage : Stage) : list step :=
  match stage with
  | TRAIN =>
      match env_corrupt hparams with Some _ => [EnvCorrupt] | None => [] end
      ++ match augmentation hparams with Some _ => [Augmentation] | None => [] end
  | _ => []
  end
  ++ [ComputeFeatures; Normalize]
  ++ match dump_feats hparams with Some true => [DumpFeats] | _ => [] end.

(** The calls of a TRAIN stage. *)
Definition train_stage_call (c : call) : bool :=
  match c with
  | OnStageStart TRAIN _ | FitBatch _ | OnStageEnd TRAIN _ _ => true
  | _ => false
  end.

(** The words [compute_objectives] decodes for a batch from the
    predictions and the feature lengths. *)
Definition predicted_words (logprobs lens : Tensor) : result (list (list string)) :=
  comprehension (λ ids, result_bind (decode_ids ids) (λ s, Ok (split_on " " s)))
                (ctc_greedy_decode hparams logprobs lens (blank_index hparams)).

(** The statistics an accumulator gets for a batch and its predicted words. *)
Definition batch_scores (split : bool) (batch : Batch) (predicted : list (list string))
  : list UttStat :=
  utt_stats split (id batch) predicted (split_on " " <$> words batch).

End ASR.
End ASR.

(** ** The order of the transformations of the data path *)

(** The four transformations the specification names. *)
Inductive transformation :=
| AudioLoad
| FeatureExtraction
| Augment
| Tokenization.

Global Instance transformation_eq_dec : EqDecision transformation.
Proof. solve_decision. Defined.

(** The transformation a step belongs to; writing the features to disk is
    none of the four. *)
Definition transformation_of (s : step) : option transformation :=
  match s with
  | ReadAudio => Some AudioLoad
  | EncodeAsIds => Some Tokenization
  | EnvCorrupt | Augmentation => Some Augment
  | ComputeFeatures | Normalize => Some FeatureExtraction
  | DumpFeats => None
  end.

Definition steps_of `{Engine} (evs : list event) : list step :=
  omap (λ e, match e with Step s => Some s | _ => None end) evs.

Definition transformations_of `{Engine} (evs : list event) : list transformation :=
  omap transformation_of (steps_of evs).

(** The order as the specification gives it, and as the code has it. *)
Definition spec_order : list transformation :=
  [AudioLoad; FeatureExtraction; Augment; Tokenization].
Definition code_order : list transformation :=
  [AudioLoad; Tokenization; Augment; FeatureExtraction].

(** The place of a transformation in an order. *)
Fixpoint rank (order : list transformation) (t : transformation) : nat :=
  match order with
  | [] => 0
  | t' :: rest => if decide (t = t') then 0 else S (rank rest t)
  end.

Fixpoint ascending (l : list nat) : bool :=
  match l with
  | x :: (y :: _) as rest => (x <=? y)%nat && ascending rest
  | _ => true
  end.

(** A run applies the transformations in the given order: no transformation
    is applied after one that comes later in the order. *)
Definition in_order (order ts : list transformation) : Prop :=
  ascending (rank order <$> ts) = true.

(** ** Vocabulary used in the statements *)

(** The 28 symbols: ['-'], ['|'] and the lowercase ASCII letters. *)
Definition in_vocabulary (c : ascii) : Prop :=
  c = "-"%char ∨ c = "|"%char ∨ (97 ≤ nat_of_ascii c ≤ 122)%nat.

Global Instance in_vocabulary_dec c : Decision (in_vocabulary c).
Proof. unfold in_vocabulary. apply _. Defined.

(** The ids 0 to 27. *)
Definition in_id_range (i : Z) : Prop := 0 ≤ i ≤ 27.

Global Instance in_id_range_dec i : Decision (in_id_range i).
Proof. unfold in_id_range. apply _. Defined.

(** Character classes of ASCII, by code. *)
Definition is_space (c : ascii) : Prop := nat_of_ascii c = 32%nat.
Definition is_uppercase (c : ascii) : Prop := (65 ≤ nat_of_ascii c ≤ 90)%nat.
Definition is_digit (c : ascii) : Prop := (48 ≤ nat_of_ascii c ≤ 57)%nat.
(** [string.punctuation] without ['-'] (45) and ['|'] (124). *)
Definition is_other_punctuation (c : ascii) : Prop :=
  let n := nat_of_ascii c in
  ((33 ≤ n ≤ 47 ∨ 58 ≤ n ≤ 64 ∨ 91 ≤ n ≤ 96 ∨ 123 ≤ n ≤ 126) ∧ n ≠ 45 ∧ n ≠ 124)%nat.

(** The id of a symbol of the vocabulary, read off its character code. *)
Definition vocab_index (c : ascii) : option Z :=
  let n := Z.of_nat (nat_of_ascii c) in
  if n =? 45 then Some 0
  else if n =? 124 then Some 1
  else if (97 <=? n) && (n <=? 122) then Some (n - 95)
  else None.

(** ** Sample inputs *)

Definition example_wav_list : list string :=
  ["/data/LJSpeech-1.1/wavs/LJ001-0001.wav"; "/data/LJSpeech-1.1/wavs/LJ001-0002.wav";
   "/data/LJSpeech-1.1/wavs/LJ001-0003.wav"; "/data/LJSpeech-1.1/wavs/LJ001-0004.wav";
   "/data/LJSpeech-1.1/wavs/LJ001-0005.wav"; "/data/LJSpeech-1.1/wavs/LJ001-0006.wav";
   "/data/LJSpeech-1.1/wavs/LJ001-0007.wav"; "/data/LJSpeech-1.1/wavs/LJ001-0008.wav";
   "/data/LJSpeech-1.1/wavs/LJ001-0009.wav"; "/data/LJSpeech-1.1/wavs/LJ001-0010.wav";
   "/data/LJSpeech-1.1/wavs/LJ001-0011.wav"; "/data/LJSpeech-1.1/wavs/LJ001-0012.wav"].

Definition example_uttids_to_excl : list string := ["LJ001-0003"; "LJ001-0011"].

Definition example_filtered : list string :=
  ["/data/LJSpeech-1.1/wavs/LJ001-0001.wav"; "/data/LJSpeech-1.1/wavs/LJ001-0002.wav";
   "/data/LJSpeech-1.1/wavs/LJ001-0004.wav"; "/data/LJSpeech-1.1/wavs/LJ001-0005.wav";
   "/data/LJSpeech-1.1/wavs/LJ001-0006.wav"; "/data/LJSpeech-1.1/wavs/LJ001-0007.wav";
   "/data/LJSpeech-1.1/wavs/LJ001-0008.wav"; "/data/LJSpeech-1.1/wavs/LJ001-0009.wav";
   "/data/LJSpeech-1.1/wavs/LJ001-0010.wav"; "/data/LJSpeech-1.1/wavs/LJ001-0012.wav"].

(** A small engine to run the recipes on: tensors and floats are integers. *)
Definition example_engine : Engine :=
  {| Tensor := Z;
     Float := Z;
     Scheduler := Z;
     UttStat := string * list string * list string;
     cat := λ ts, fold_right Z.add 0 ts;
     detach := λ t, t;
     LongTensor := λ ids, Z.of_nat (length ids);
     check_gradients := λ loss, 0 <=? loss;
     lr_annealing := λ s metric, ((s, s - 1), s - 1);
     utt_stats := λ _ ids predict target, zip (zip ids predict) target;
     summarize_scores := λ _ stats _, Z.of_nat (length stats) |}.

Section Examples.
#[local] Existing Instance example_engine.

Definition example_brain : @Brain example_engine :=
  {| batch_count := None; train_stats := None; cer_metric := None; wer_metric := None;
     feat_lens := None; optimizer_lr := 10; scheduler := 10; trace := [] |}.

Definition example_slu_hparams : @SLU.HParams example_engine :=
  {| SLU.env_corrupt := Some (λ wavs _, wavs + 1);
     SLU.augmentation := None;
     SLU.transcribe := λ wavs _, ([["set"; "timer"]; []], [[3; 4; 5]; []]);
     SLU.input_emb := λ rows, Z.of_nat (length rows);
     SLU.slu_enc := λ t, t;
     SLU.output_emb := λ t, t;
     SLU.dec := λ e enc _, (e + enc, 0);
     SLU.seq_lin := λ t, t;
     SLU.log_softmax := λ t, t;
     SLU.beam_searcher := λ _ _, ([[2; 3]; [4]], 0);
     SLU.seq_cost := λ p t _, p + t;
     SLU.epoch_counter_current := 1;
     SLU.wer_file := "wer_test_real.txt" |}.

Definition example_slu_batch : @SLU.Batch example_engine :=
  {| SLU.id := ["utt1"; "utt2"];
     SLU.sig := (1, 1);
     SLU.semantics := ["ab"; "c"];
     SLU.tokens_bos := (2, 1);
     SLU.tokens_eos := (3, 1);
     SLU.tokens := (4, 1) |}.

Definition example_asr_hparams : @ASR.HParams example_engine :=
  {| ASR.dump_feats := Some false;
     ASR.dump_feats_dir := "feats";
     ASR.no_whitespace := Some true;
     ASR.augmentation := Some (λ wavs _, wavs + 1);
     ASR.compute_features := λ wavs, 2 * wavs;
     ASR.log_softmax := λ t, t;
     ASR.ctc_cost := λ p t _ _, p + t;
     ASR.blank_index := 0;
     ASR.ctc_greedy_decode := λ _ _ _, [[2; 3]; [4]];
     ASR.metric_to_optimize := "WER";
     ASR.epoch_counter_current := 1;
     ASR.wer_file := "wer_test.txt";
     ASR.read_audio := λ path, Z.of_nat (String.length path);
     ASR.collate := λ ts, (fold_right Z.add 0 ts, Z.of_nat (length ts));
     ASR.env_corrupt := None;
     ASR.normalize := λ feats _, feats;
     ASR.encoder := λ t, t;
     ASR.ctc_lin := λ t, t |}.

Definition example_asr_examples : list ASR.Example :=
  [ {| ASR.ex_id := "LJ001-0001"; ASR.ex_wav := "/data/wavs/LJ001-0001.wav";
       ASR.ex_words := "a b" |};
    {| ASR.ex_id := "LJ001-0002"; ASR.ex_wav := "/data/wavs/LJ001-0002.wav";
       ASR.ex_words := "c" |} ].

Definition example_asr_batch : @ASR.Batch example_engine :=
  {| ASR.id := ["LJ001-0001"; "LJ001-0002"];
     ASR.sig := (50, 2);
     ASR.wav_path := ["/data/wavs/LJ001-0001.wav"; "/data/wavs/LJ001-0002.wav"];
     ASR.utt_id := ["LJ001-0001"; "LJ001-0002"];
     ASR.words := ["ab"; "c"];
     ASR.tokens := (3, 2) |}.

(** Accumulators that hold the statistics of one batch. *)
Definition example_cer : @ErrorRateStats example_engine :=
  {| split_tokens := true;
     scores := [("utt1", ["ab"], ["ab"]); ("utt2", ["c"], ["c"])] |}.

Definition example_wer : @ErrorRateStats example_engine :=
  {| split_tokens := false;
     scores := [("utt1", ["ab"], ["ab"]); ("utt2", ["c"], ["c"])] |}.

(** A brain at the end of a VALID stage: the train statistics are stored
    and the two accumulators are filled. *)
Definition example_valid_brain : @Brain example_engine :=
  {| batch_count := Some 1;
     train_stats := Some {["loss" := 5]};
     cer_metric := Some example_cer;
     wer_metric := Some example_wer;
     feat_lens := None; optimizer_lr := 10; scheduler := 10; trace := [] |}.

End Examples.

(** ** Helpers for further statements *)

(** The utterance id [get_uttid] returns, as a total function. *)
Definition uttid_of (wav_p : string) : string :=
  (LJSpeech.splitext (default "" (last (split_on LJSpeech.sep wav_p)))).1.

(** The characters of a string. *)
Definition chars (s : string) : list ascii := list_ascii_of_string s.

Section MoreFramework.
Context `{Engine}.

(** Calls of the gradient step. *)
Definition is_gradient_event (e : event) : Prop :=
  match e with
  | Backward _ | OptimizerStep | ZeroGrad => True
  | _ => False
  end.

Global Instance is_gradient_event_dec e : Decision (is_gradient_event e).
Proof. destruct e; simpl; apply _. Defined.

(** Lines written by [print]. *)
Definition is_print_event (e : event) : Prop :=
  match e with
  | Print _ => True
  | _ => False
  end.

Global Instance is_print_event_dec e : Decision (is_print_event e).
Proof. destruct e; simpl; apply _. Defined.

(** What the processing of a batch may log outside the gradient step:
    steps of the data path, the batch loss, printed lines. *)
Definition is_batch_event (e : event) : Prop :=
  match e with
  | Step _ | LogDict _ _ | Print _ => True
  | _ => False
  end.

(** The three lines [SLU.compute_objectives] prints for an utterance. *)
Definition printed_lines (predicted target : list string) : list event :=
  [Print (replace_char "|" "," (join " " predicted));
   Print (replace_char "|" "," (join " " target));
   Print ""].

(** The statistics an accumulator gets for a batch of the SLU recipe. *)
Definition slu_batch_scores (split : bool) (batch : SLU.Batch)
    (predicted : list (list string)) : list UttStat :=
  utt_stats split (SLU.id batch) predicted (split_on " " <$> SLU.semantics batch).

End MoreFramework.

(** ** The sorting options of the two data preparations *)

Module DataIO.

(** A value of a dictionary of data loader options. *)
Inductive opt_value :=
| OBool (b : bool)
| OInt (n : Z).

Abbreviation Opts := (gmap string opt_value).

(** What the data preparation reads from [hparams]: the string
    [hparams["sorting"]] and the entries of [hparams] that are
    dictionaries of options, by their key. *)
Record HParams := {
  sorting : string;
  dicts : gmap string Opts
}.

(** The data preparations also raise [NotImplementedError]. *)
Inductive dataio_exn :=
| Exn (e : exn)
| NotImplementedError (msg : string).

Inductive outcome (A : Type) :=
| Returns (a : A)
| Raises (e : dataio_exn).
Arguments Returns {A} a.
Arguments Raises {A} e.

(** How the train data is arranged: as loaded from the manifest, or by
    [filtered_sorted(sort_key=..., reverse=...)]. *)
Inductive arrangement :=
| Loaded
| FilteredSorted (sort_key : string) (reverse : bool).

(** [hparams[name]["shuffle"] = v]: [KeyError] when [hparams] has no
    dictionary of that name. *)
Definition set_shuffle (name : string) (v : bool) (hparams : HParams)
  : outcome unit * HParams :=
  match dicts hparams !! name with
  | Some d =>
      (Returns tt,
       {| sorting := sorting hparams;
          dicts := <[name := <["shuffle" := OBool v]> d]> (dicts hparams) |})
  | None => (Raises (Exn (KeyError (KStr name))), hparams)
  end.

(** [data_io_prepare] of recipes/timers-and-such/multistage/train/train.py,
    lines 213-232: the arrangement of the train data and the writes to
    [hparams].  The assignments that went before an exception stay. *)
Definition data_io_prepare (hparams : HParams) : outcome arrangement * HParams :=
  if String.eqb (sorting hparams) "ascending" then
    match set_shuffle "dataloader_opts" false hparams with
    | (Returns _, hparams) => (Returns (FilteredSorted "duration" false), hparams)
    | (Raises e, hparams) => (Raises e, hparams)
    end
  else if String.eqb (sorting hparams) "descending" then
    match set_shuffle "dataloder_opts" false hparams with
    | (Returns _, hparams) => (Returns (FilteredSorted "duration" true), hparams)
    | (Raises e, hparams) => (Raises e, hparams)
    end
  else if String.eqb (sorting hparams) "random" then (Returns Loaded, hparams)
  else (Raises (NotImplementedError "sorting must be random, ascending or descending"),
        hparams).

(** The loop over [data_info] of [dataio_prepare], lines 428-442, as far
    as it writes to [hparams]. *)
Fixpoint disable_shuffle (datasets : list string) (hparams : HParams)
  : outcome unit * HParams :=
  match datasets with
  | [] => (Returns tt, hparams)
  | dataset :: rest =>
      match set_shuffle (dataset +:+ "_dataloader_opts") false hparams with
      | (Returns _, hparams) => disable_shuffle rest hparams
      | (Raises e, hparams) => (Raises e, hparams)
      end
  end.

(** [dataio_prepare] of templates/speech_recognition_CharTokens_NoLM/ASR/train.py,
    lines 428-464. *)
Definition dataio_prepare (hparams : HParams) : outcome arrangement * HParams :=
  match disable_shuffle ["train"; "valid"; "test"] hparams with
  | (Raises e, hparams) => (Raises e, hparams)
  | (Returns _, hparams) =>
      if String.eqb (sorting hparams) "ascending" then
        match set_shuffle "train_dataloader_opts" false hparams with
        | (Returns _, hparams) => (Returns (FilteredSorted "length" false), hparams)
        | (Raises e, hparams) => (Raises e, hparams)
        end
      else if String.eqb (sorting hparams) "descending" then
        match set_shuffle "train_dataloader_opts" false hparams with
        | (Returns _, hparams) => (Returns (FilteredSorted "length" true), hparams)
        | (Raises e, hparams) => (Raises e, hparams)
        end
      else if String.eqb (sorting hparams) "random" then
        match set_shuffle "train_dataloader_opts" true hparams with
        | (Returns _, hparams) => (Returns Loaded, hparams)
        | (Raises e, hparams) => (Raises e, hparams)
        end
      else (Raises (NotImplementedError "sorting must be random, ascending or descending"),
            hparams)
  end.

(** [hparams[name]["shuffle"]], where it is there. *)
Definition shuffle_of (name : string) (hparams : HParams) : option opt_value :=
  d ← dicts hparams !! name; d !! "shuffle".

End DataIO.

(** Options of a run of the SLU recipe and of the ASR recipe. *)
Definition example_slu_data_hparams : DataIO.HParams :=
  {| DataIO.sorting := "descending";
     DataIO.dicts :=
       {["dataloader_opts" := {["batch_size" := DataIO.OInt 16;
                                "shuffle" := DataIO.OBool true]}]} |}.

Definition example_asr_data_hparams : DataIO.HParams :=
  {| DataIO.sorting := "random";
     DataIO.dicts :=
       {["train_dataloader_opts" := {["batch_size" := DataIO.OInt 8]};
         "valid_dataloader_opts" := {["batch_size" := DataIO.OInt 8]};
         "test_dataloader_opts" := {["batch_size" := DataIO.OInt 1;
                                     "shuffle" := DataIO.OBool true]}]} |}.

(** ** The manifests of ljspeech_prepare.py *)

Module Manifest.

Definition SAMPLERATE : Z := 22050.

(** [p] is a prefix of [s]. *)
Fixpoint starts_with (p s : list ascii) : bool :=
  match p, s with
  | [], _ => true
  | x :: p', y :: s' => Ascii.eqb x y && starts_with p' s'
  | _ :: _, [] => false
  end.

(** [re.sub(pat, repl, s)] (library code) for a pattern and a replacement
    that are plain text and a pattern that is not empty: the occurrences
    are replaced from the left and do not overlap.  [skip] counts the
    characters of a match that are still to be passed over. *)
Fixpoint sub_from (pat repl : list ascii) (skip : nat) (s : list ascii) : list ascii :=
  match s with
  | [] => []
  | c :: s' =>
      match skip with
      | S k => sub_from pat repl k s'
      | O =>
          if starts_with pat s then repl ++ sub_from pat repl (length pat - 1) s'
          else c :: sub_from pat repl 0 s'
      end
  end.

Definition re_sub (pat repl s : string) : string :=
  string_of_list_ascii
    (sub_from (list_ascii_of_string pat) (list_ascii_of_string repl) 0
              (list_ascii_of_string s)).

(** [os.path.join(a, *p)] of posixpath (library code). *)
Definition os_path_join (a : string) (p : list string) : string :=
  fold_left
    (λ path b,
       if starts_with [LJSpeech.sep] (list_ascii_of_string b) then b
       else if bool_decide (path = "")
               || bool_decide (last (list_ascii_of_string path) = Some LJSpeech.sep)
            then path +:+ b
            else path +:+ String LJSpeech.sep b)
    p a.

(** The local function [clean_text] of [create_trans_dict], lines 121-127.
    [cleaners] holds the functions of the module of that name;
    [getattr] raises [AttributeError] for a name it lacks, and a function
    that is there is never false. *)
Fixpoint clean_text (cleaners : gmap string (string → string))
    (text_cleaners : list string) (s : string) : result string :=
  match text_cleaners with
  | [] => Ok s
  | name :: rest =>
      match cleaners !! name with
      | Some cleaner => clean_text cleaners rest (cleaner s)
      | None => Raise (AttributeError name)
      end
  end.

(** [a, b, c = fields]. *)
Definition unpack3 (fields : list string) : result (string * string * string) :=
  match fields with
  | [a; b; c] => Ok (a, b, c)
  | _ :: _ :: _ :: _ :: _ => Raise (ValueError "too many values to unpack (expected 3)")
  | _ => Raise (ValueError "not enough values to unpack")
  end.

(** The loop of lines 133-137. *)
Fixpoint trans_dict_loop (cleaners : gmap string (string → string))
    (text_cleaners : list string) (lines : list string) (trans_dict : gmap string string)
  : result (gmap string string) :=
  match lines with
  | [] => Ok trans_dict
  | line :: rest =>
      result_bind (unpack3 (split_on "|" line)) (λ '(uttid, raw_text, norm_text),
      result_bind (clean_text cleaners text_cleaners norm_text) (λ text,
      trans_dict_loop cleaners text_cleaners rest (<[uttid := text]> trans_dict)))
  end.

(** [create_trans_dict], lines 120-140, on the lines of the metadata
    file. *)
Definition create_trans_dict (cleaners : gmap string (string → string))
    (lines : list string) (text_cleaners : list string) : result (gmap string string) :=
  if negb (Z.of_nat (length lines) =? LJSpeech.LJSPEECH_EXPECTED_N)
  then Raise AssertionError
  else trans_dict_loop cleaners text_cleaners lines ∅.

(** An entry of the json manifest. *)
Record entry := {
  wav : string;
  length : Q;
  words : string
}.

(** The body of the loop of [create_json], lines 158-176.
    [num_samples wav_file] is [read_audio(wav_file).shape[0]]; the
    division of floats is read in the rationals. *)
Definition json_entry (num_samples : string → Z) (trans_dict : gmap string string)
    (wav_file : string) : result (string * entry) :=
  let duration := (inject_Z (num_samples wav_file) / inject_Z SAMPLERATE)%Q in
  let path_parts := split_on LJSpeech.sep wav_file in
  result_bind (last_item path_parts) (λ name,
  let uttid := (LJSpeech.splitext name).1 in
  let relative_path := os_path_join "{data_root}" (py_slice path_parts (Some (-3)) None) in
  let relative_path := re_sub "/wavs/" "/wavs_16khz/" relative_path in
  match trans_dict !! uttid with
  | Some text => Ok (uttid, {| wav := relative_path; length := duration; words := text |})
  | None => Raise (KeyError (KStr uttid))
  end).

(** [create_json], lines 143-182: the dictionary that is written to the
    json file. *)
Fixpoint create_json_loop (num_samples : string → Z) (trans_dict : gmap string string)
    (wav_list : list string) (json_dict : gmap string entry) : result (gmap string entry) :=
  match wav_list with
  | [] => Ok json_dict
  | wav_file :: rest =>
      result_bind (json_entry num_samples trans_dict wav_file) (λ '(uttid, e),
      create_json_loop num_samples trans_dict rest (<[uttid := e]> json_dict))
  end.

Definition create_json (num_samples : string → Z) (wav_list : list string)
    (trans_dict : gmap string string) : result (gmap string entry) :=
  create_json_loop num_samples trans_dict wav_list ∅.

End Manifest.

(** The first field of a line of the metadata file. *)
Definition line_uttid (line : string) : string :=
  default "" (head (split_on "|" line)).

(** Lines of a metadata file, and cleaners. *)
Definition example_lines : list string :=
  ["LJ001-0001|Printing, in 1450|printing in fourteen fifty";
   "LJ001-0002|in being|in being";
   "LJ001-0001|Printing|printing"].

Definition example_cleaners : gmap string (string → string) :=
  {["upper_p" := replace_char "p" "P"; "no_space" := remove_char " "]}.

Definition example_trans_dict : gmap string string :=
  {["LJ001-0001" := "printing"; "LJ001-0002" := "in being"; "LJ001-0004" := "the"]}.

(** A transcription for every file of [example_wav_list]. *)
Definition example_full_trans_dict : gmap string string :=
  list_to_map ((λ wav_p, (uttid_of wav_p, "printing")) <$> example_wav_list).

(** A brain at the start of a VALID stage that no TRAIN stage went before:
    the accumulators are fresh and there are no train statistics. *)
Definition example_started_brain : @Brain example_engine :=
  (ASR.on_stage_start (H := example_engine) VALID 1 example_brain).2.

(** * Properties *)

(** ** Comprehensions *)

Lemma comprehension_ok {A B} (f : A → result B) (l : list A) (ys : list B) :
  comprehension f l = Ok ys ↔ Forall2 (λ x y, f x = Ok y) l ys.
Proof.
  revert ys. induction l as [|x l IH]; intros ys; simpl.
  - split.
    + intros [= <-]. constructor.
    + intros Hf. inversion Hf. reflexivity.
  - destruct (f x) as [y|e] eqn:Hx; simpl.
    + destruct (comprehension f l) as [ys'|e] eqn:Hl; simpl.
      * split.
        -- intros [= <-]. constructor; [done|]. by apply IH.
        -- intros Hf. inversion Hf as [|? y' ? ys'' Hy Hrest]; subst.
           apply IH in Hrest. congruence.
      * split; [done|].
        intros Hf. inversion Hf as [|? y' ? ys'' Hy Hrest]; subst.
        apply IH in Hrest. congruence.
    + split; [done|]. intros Hf. inversion Hf; congruence.
Qed.

Lemma comprehension_raises {A B} (f : A → result B) (l : list A) :
  (∃ e, comprehension f l = Raise e) ↔ Exists (λ x, ∃ e, f x = Raise e) l.
Proof.
  induction l as [|x l IH]; simpl.
  - split; [intros [e ?]; done | intros He; inversion He].
  - destruct (f x) as [y|e] eqn:Hx; simpl.
    + destruct (comprehension f l) as [ys|e] eqn:Hl; simpl.
      * split; [intros [e ?]; done|].
        intros He. inversion He as [? ? [e He']|? ? He']; subst; [congruence|].
        apply IH in He' as [e ?]. done.
      * split; [|eauto]. intros _. apply Exists_cons_tl, IH. eauto.
    + split; [|eauto]. intros _. apply Exists_cons_hd. eauto.
Qed.

Lemma comprehension_raise_from {A B} (f : A → result B) (l : list A) e :
  comprehension f l = Raise e → Exists (λ x, f x = Raise e) l.
Proof.
  induction l as [|x l IH]; simpl; [done|].
  destruct (f x) as [y|e'] eqn:Hx; simpl.
  - destruct (comprehension f l) as [ys|e'] eqn:Hl; simpl; [done|].
    intros [= ->]. apply Exists_cons_tl. by apply IH.
  - intros [= ->]. by apply Exists_cons_hd.
Qed.

Lemma comprehension_round_trip {A B} (f : A → result B) (g : B → result A)
    (P : B → Prop) (l : list A) :
  Forall (λ x, ∃ y, f x = Ok y ∧ P y ∧ g y = Ok x) l →
  ∃ ys, comprehension f l = Ok ys ∧ Forall P ys ∧ comprehension g ys = Ok l.
Proof.
  induction 1 as [|x l (y & Hy & HP & Hback) _ (ys & Hf & HPs & Hg)].
  - exists []. by split_and!.
  - exists (y :: ys). simpl. rewrite Hy, Hf; simpl. rewrite Hback, Hg; simpl.
    split_and!; [done | by constructor | done].
Qed.

(** ** SimpleTokenizer *)

Section SimpleTokenizerFacts.
Import SimpleTokenizer.

Lemma sym2id_lookup c : sym2id init !! c = vocab_index c.
Proof.
  destruct c as [[] [] [] [] [] [] [] []]; vm_compute; reflexivity.
Qed.

Lemma ascii_of_code c (n : nat) : nat_of_ascii c = n → c = ascii_of_nat n.
Proof. intros <-. symmetry. apply ascii_nat_embedding. Qed.

Lemma vocab_index_Some c : in_vocabulary c ↔ is_Some (vocab_index c).
Proof.
  unfold in_vocabulary, vocab_index. split.
  - intros [->|[->|Hc]]; [by eexists..|].
    destruct (Z.eqb_spec (Z.of_nat (nat_of_ascii c)) 45); [by eexists|].
    destruct (Z.eqb_spec (Z.of_nat (nat_of_ascii c)) 124); [by eexists|].
    destruct (Z.leb_spec 97 (Z.of_nat (nat_of_ascii c))); [|lia].
    destruct (Z.leb_spec (Z.of_nat (nat_of_ascii c)) 122); [|lia].
    by eexists.
  - intros [i Hi].
    destruct (Z.eqb_spec (Z.of_nat (nat_of_ascii c)) 45) as [E|_].
    { left. apply (ascii_of_code c 45). lia. }
    destruct (Z.eqb_spec (Z.of_nat (nat_of_ascii c)) 124) as [E|_].
    { right; left. apply (ascii_of_code c 124). lia. }
    destruct (Z.leb_spec 97 (Z.of_nat (nat_of_ascii c))); [|done].
    destruct (Z.leb_spec (Z.of_nat (nat_of_ascii c)) 122); [|done].
    right; right. lia.
Qed.

Lemma vocab_index_range c i : vocab_index c = Some i → in_id_range i.
Proof.
  unfold vocab_index, in_id_range.
  destruct (Z.eqb_spec (Z.of_nat (nat_of_ascii c)) 45); [intros [= <-]; lia|].
  destruct (Z.eqb_spec (Z.of_nat (nat_of_ascii c)) 124); [intros [= <-]; lia|].
  destruct (Z.leb_spec 97 (Z.of_nat (nat_of_ascii c))); [|done].
  destruct (Z.leb_spec (Z.of_nat (nat_of_ascii c)) 122); [|done].
  intros [= <-]. lia.
Qed.

Lemma id2sym_sym2id :
  map_Forall (λ i c, sym2id init !! c = Some i ∧ in_id_range i) (id2sym init).
Proof. apply (bool_decide_unpack _). vm_compute. reflexivity. Qed.

Lemma sym2id_id2sym :
  map_Forall (λ c i, id2sym init !! i = Some c ∧ in_id_range i) (sym2id init).
Proof. apply (bool_decide_unpack _). vm_compute. reflexivity. Qed.

Lemma id2sym_in_range i : in_id_range i → is_Some (id2sym init !! i).
Proof.
  intros Hi.
  assert (Hall : Forall (λ j, is_Some (id2sym init !! j)) (seqZ 0 28)).
  { apply (bool_decide_unpack _). vm_compute. reflexivity. }
  rewrite Forall_forall in Hall. apply Hall, elem_of_seqZ.
  unfold in_id_range in Hi. lia.
Qed.

End SimpleTokenizerFacts.

Section SimpleTokenizerClaims.
Import SimpleTokenizer.

Lemma sym2id_getitem_ok c i :
  sym2id_getitem init c = Ok i ↔ sym2id init !! c = Some i.
Proof.
  unfold sym2id_getitem. destruct (sym2id init !! c); split; congruence.
Qed.

Lemma id2sym_getitem_ok i c :
  id2sym_getitem init i = Ok c ↔ id2sym init !! i = Some c.
Proof.
  unfold id2sym_getitem. destruct (id2sym init !! i); split; congruence.
Qed.

(** One symbol: encoding gives an id in range that decodes to the symbol. *)
Lemma encode_symbol c :
  in_vocabulary c →
  ∃ i, sym2id_getitem init c = Ok i ∧ in_id_range i ∧ id2sym_getitem init i = Ok c.
Proof.
  intros [i Hi]%vocab_index_Some. rewrite <- sym2id_lookup in Hi.
  exists i. destruct (sym2id_id2sym c i Hi) as [Hback Hr].
  split_and!; [by apply sym2id_getitem_ok | done | by apply id2sym_getitem_ok].
Qed.

(** One id: decoding gives a symbol that encodes to the id. *)
Lemma decode_id i :
  in_id_range i →
  ∃ c, id2sym_getitem init i = Ok c ∧ sym2id_getitem init c = Ok i.
Proof.
  intros [c Hc]%id2sym_in_range. exists c.
  destruct (id2sym_sym2id i c Hc) as [Hback _].
  split; [by apply id2sym_getitem_ok | by apply sym2id_getitem_ok].
Qed.

Lemma sym2id_getitem_raises c :
  (∃ e, sym2id_getitem init c = Raise e) ↔ ¬ in_vocabulary c.
Proof.
  rewrite vocab_index_Some, <- sym2id_lookup. unfold sym2id_getitem.
  destruct (sym2id init !! c) as [i|].
  - split; [intros [e ?]; done | intros Hn; destruct Hn; eauto].
  - split; [intros _ [i ?]; done | eauto].
Qed.

Lemma id2sym_getitem_raises i :
  (∃ e, id2sym_getitem init i = Raise e) ↔ ¬ in_id_range i.
Proof.
  unfold id2sym_getitem. destruct (id2sym init !! i) as [c|] eqn:Hi.
  - split; [intros [e ?]; done|]. intros Hn. destruct Hn.
    by destruct (id2sym_sym2id i c Hi).
  - split; [|eauto]. intros _ [c Hc]%id2sym_in_range. congruence.
Qed.

Lemma encode_text_ok (cs : list ascii) :
  Forall in_vocabulary cs →
  ∃ ids, comprehension (sym2id_getitem init) cs = Ok ids
         ∧ Forall in_id_range ids
         ∧ comprehension (id2sym_getitem init) ids = Ok cs.
Proof.
  intros Hcs. apply comprehension_round_trip.
  eapply Forall_impl; [eassumption|]. apply encode_symbol.
Qed.

Lemma decode_ids_ok (ids : list Z) :
  Forall in_id_range ids →
  ∃ cs, comprehension (id2sym_getitem init) ids = Ok cs
        ∧ comprehension (sym2id_getitem init) cs = Ok ids.
Proof.
  intros Hids.
  destruct (comprehension_round_trip (id2sym_getitem init) (sym2id_getitem init)
              (λ _, True) ids) as (cs & Hd & _ & He); [|by exists cs].
  eapply Forall_impl; [eassumption|].
  intros i (c & Hc & Hback)%decode_id. by exists c.
Qed.

(** C6: on texts over the 28-symbol vocabulary, [decode_ids] undoes
    [encode_as_ids] and every id produced lies in 0..27; on lists of ids
    in 0..27, [encode_as_ids] undoes [decode_ids]. *)
Theorem tokenizer_round_trip :
  (∀ text : string,
      Forall in_vocabulary (list_ascii_of_string text) →
      ∃ ids, encode_as_ids init text = Ok ids
             ∧ Forall in_id_range ids
             ∧ decode_ids init ids = Ok text)
  ∧ (∀ ids : list Z,
      Forall in_id_range ids →
      ∃ text, decode_ids init ids = Ok text
              ∧ encode_as_ids init text = Ok ids).
Proof.
  split.
  - intros text (ids & He & Hr & Hd)%encode_text_ok.
    exists ids. unfold encode_as_ids, decode_ids. rewrite He, Hd.
    unfold result_bind. by rewrite string_of_list_ascii_of_string.
  - intros ids (cs & Hd & He)%decode_ids_ok.
    exists (string_of_list_ascii cs). unfold encode_as_ids, decode_ids.
    rewrite Hd. unfold result_bind. by rewrite list_ascii_of_string_of_list_ascii.
Qed.

Lemma tokenizer_round_trip_witness :
  (∃ ids, encode_as_ids init "ab-|z" = Ok ids
          ∧ Forall in_id_range ids
          ∧ decode_ids init ids = Ok "ab-|z")
  ∧ (∃ text, decode_ids init [0; 27; 1; 2] = Ok text
             ∧ encode_as_ids init text = Ok [0; 27; 1; 2]).
Proof.
  split.
  - apply (proj1 tokenizer_round_trip "ab-|z").
    apply (bool_decide_unpack _). vm_compute. reflexivity.
  - apply (proj2 tokenizer_round_trip [0; 27; 1; 2]).
    apply (bool_decide_unpack _). vm_compute. reflexivity.
Defined.

(** C8: [encode_as_ids] raises a [KeyError] exactly on the texts that hold
    a character outside the vocabulary, so on every text with a space, an
    uppercase letter, a digit or a punctuation mark other than ['-'] and
    ['|']; [decode_ids] raises a [KeyError] exactly on the lists that hold
    an id outside 0..27. *)
Theorem tokenizer_key_errors :
  (∀ text : string,
      (∃ k, encode_as_ids init text = Raise (KeyError k))
      ↔ Exists (λ c, ¬ in_vocabulary c) (list_ascii_of_string text))
  ∧ (∀ (text : string) (c : ascii),
      c ∈ list_ascii_of_string text →
      is_space c ∨ is_uppercase c ∨ is_digit c ∨ is_other_punctuation c →
      ∃ k, encode_as_ids init text = Raise (KeyError k))
  ∧ (∀ ids : list Z,
      (∃ k, decode_ids init ids = Raise (KeyError k))
      ↔ Exists (λ i, ¬ in_id_range i) ids).
Proof.
  assert (Henc : ∀ text : string,
      (∃ k, encode_as_ids init text = Raise (KeyError k))
      ↔ Exists (λ c, ¬ in_vocabulary c) (list_ascii_of_string text)).
  { intros text. unfold encode_as_ids. split.
    - intros [k Hk].
      pose proof (proj1 (comprehension_raises _ _) (ex_intro _ _ Hk)) as Hex.
      eapply Exists_impl; [eassumption|]. intros c Hc. by apply sym2id_getitem_raises.
    - intros Hex.
      assert (Hr : ∃ e, comprehension (sym2id_getitem init) (list_ascii_of_string text)
                        = Raise e).
      { apply comprehension_raises. eapply Exists_impl; [eassumption|].
        intros c Hc. by apply sym2id_getitem_raises. }
      destruct Hr as [e He]. pose proof (comprehension_raise_from _ _ _ He) as Hfrom.
      apply Exists_exists in Hfrom as (c & _ & Hc).
      unfold sym2id_getitem in Hc. destruct (sym2id init !! c); [done|].
      injection Hc as <-. eauto. }
  split_and!; [done | |].
  - intros text c Hin Hclass. apply Henc, Exists_exists. exists c. split; [done|].
    unfold in_vocabulary, is_space, is_uppercase, is_digit, is_other_punctuation in *.
    intros [->|[->|Hc]]; [| |lia].
    + change (nat_of_ascii "-") with 45%nat in Hclass. lia.
    + change (nat_of_ascii "|") with 124%nat in Hclass. lia.
  - intros ids. unfold decode_ids. split.
    + intros [k Hk].
      destruct (comprehension (id2sym_getitem init) ids) as [cs|e] eqn:Hc; [done|].
      pose proof (proj1 (comprehension_raises _ _) (ex_intro _ _ Hc)) as Hex.
      eapply Exists_impl; [eassumption|]. intros i Hi. by apply id2sym_getitem_raises.
    + intros Hex.
      assert (Hr : ∃ e, comprehension (id2sym_getitem init) ids = Raise e).
      { apply comprehension_raises. eapply Exists_impl; [eassumption|].
        intros i Hi. by apply id2sym_getitem_raises. }
      destruct Hr as [e He]. pose proof (comprehension_raise_from _ _ _ He) as Hfrom.
      apply Exists_exists in Hfrom as (i & _ & Hi).
      unfold id2sym_getitem in Hi. destruct (id2sym init !! i); [done|].
      injection Hi as <-. rewrite He. unfold result_bind. eauto.
Qed.

Lemma tokenizer_key_errors_witness :
  ∃ k, encode_as_ids init "ab c" = Raise (KeyError k).
Proof.
  apply (proj1 (proj2 tokenizer_key_errors) "ab c" " "%char).
  - apply list_elem_of_In. simpl. tauto.
  - left. reflexivity.
Defined.

End SimpleTokenizerClaims.

(** ** The split of the LJSpeech file list *)

Section PySlice.
Context {A : Type}.
Implicit Types l : list A.



End PySlice.

Section LJSpeechFacts.
Import LJSpeech.




(** [get_uttid] never raises, so the filter of line 98 always yields a list. *)
Lemma split_on_nonempty sep s : split_on sep s ≠ [].
Proof.
  destruct s as [|c s]; simpl; [done|].
  destruct (Ascii.eqb c sep); [done|]. by destruct (split_on sep s).
Qed.

Lemma get_uttid_total wav_p : ∃ uttid, get_uttid wav_p = Ok uttid.
Proof.
  unfold get_uttid, last_item.
  destruct (last (split_on LJSpeech.sep wav_p)) as [name|] eqn:Hl; [by eexists|].
  apply last_None in Hl. by apply split_on_nonempty in Hl.
Qed.

Lemma exclude_uttids_total wav_list excl :
  ∃ kept, exclude_uttids wav_list excl = Ok kept ∧ kept ⊆ wav_list
          ∧ (NoDup wav_list → NoDup kept).
Proof.
  induction wav_list as [|w l (kept & Hk & Hsub & Hnd)]; simpl.
  - exists []. split_and!; done.
  - destruct (get_uttid_total w) as [u ->]. rewrite Hk. simpl.
    destruct (str_in u excl).
    + exists kept. split_and!; [done | by apply list_subseteq_cons |].
      intros Hn. apply NoDup_cons in Hn as [_ Hn]. by apply Hnd.
    + exists (w :: kept). split_and!; [done | |].
      * intros x [->|Hx]%elem_of_cons; [left | right; by apply Hsub].
      * intros Hn. apply NoDup_cons in Hn as [Hw Hn].
        apply NoDup_cons. split; [|by apply Hnd].
        intros Hin. apply Hw. by apply Hsub.
Qed.



(** The whole list computation of [prepare_ljspeech] returns these splits
    when [get_all_files] found the expected number of files. *)
Lemma prepare_ljspeech_runs_split wav_list uttids_to_excl valid_percent test_percent :
  Z.of_nat (length wav_list) = LJSPEECH_EXPECTED_N →
  ∃ filtered,
    exclude_uttids wav_list uttids_to_excl = Ok filtered
    ∧ prepare_ljspeech wav_list uttids_to_excl valid_percent test_percent
      = split_wav_list filtered valid_percent test_percent.
Proof.
  intros Hn. destruct (exclude_uttids_total wav_list uttids_to_excl) as (kept & Hk & _).
  exists kept. split; [done|]. unfold prepare_ljspeech. rewrite Hn, Hk. reflexivity.
Qed.

(** Percentages that sum to more than one are caught by the assertion of
    line 109. *)
Example split_wav_list_over_full :
  split_wav_list example_filtered (6 # 10) (6 # 10) = Raise AssertionError.
Proof. vm_compute. reflexivity. Qed.

End LJSpeechFacts.

(** ** Padding of the transcripts in [SLU.compute_forward] *)

Section Padding.
Import SLU.

Lemma fold_max_spec (l : list Z) (x : Z) :
  x ≤ fold_left Z.max l x
  ∧ Forall (λ y, y ≤ fold_left Z.max l x) l
  ∧ (fold_left Z.max l x = x ∨ fold_left Z.max l x ∈ l).
Proof.
  revert x. induction l as [|y l IH]; intros x; simpl.
  - split_and!; [lia | constructor | by left].
  - destruct (IH (Z.max x y)) as (Hx & Hall & Hin). split_and!.
    + lia.
    + constructor; [lia | done].
    + destruct Hin as [Heq|Hin]; [|right; by right].
      rewrite Heq. destruct (Z.max_spec x y) as [[_ ->]|[_ ->]]; [right; left | by left].
Qed.

Lemma py_max_spec (l : list Z) :
  l ≠ [] → ∃ m, py_max l = Ok m ∧ Forall (λ y, y ≤ m) l ∧ m ∈ l.
Proof.
  destruct l as [|x l]; [done|]. intros _. simpl.
  destruct (fold_max_spec l x) as (Hx & Hall & Hin).
  eexists. split_and!; [done | by constructor |].
  destruct Hin as [->|Hin]; [left | by right].
Qed.

Lemma torch_tensor_rectangular (rows : list (list Z)) (n : nat) :
  Forall (λ r, length r = n) rows → torch_tensor rows = Ok rows.
Proof.
  destruct rows as [|r rest]; [done|].
  intros Hall. apply Forall_cons in Hall as [Hr Hrest]. simpl.
  rewrite (proj2 (forallb_forall _ _)); [done|].
  intros r' Hin. apply Nat.eqb_eq. rewrite Forall_forall in Hrest.
  rewrite Hr. apply Hrest. by apply list_elem_of_In.
Qed.

Lemma tensor_max_constant (x : Q) (n : nat) :
  tensor_max (replicate (S n) x) = Ok x.
Proof.
  simpl. f_equal. induction n as [|n IH]; simpl; [done|].
  by destruct (Qle_bool x x).
Qed.

Lemma fmap_constant {A B} (f : A → B) (y : B) (l : list A) :
  Forall (λ x, f x = y) l → f <$> l = replicate (length l) y.
Proof. induction 1 as [|x l Hx _ IH]; simpl; [done|]. by f_equal. Qed.

(** C7: the transcripts of a batch are padded with zeros to one common
    length, which is at least 1 even when every transcript is empty; every
    relative length then lies in (0, 1] and their maximum is 1. *)
Theorem pad_asr_tokens_same_length (asr_tokens : list (list Z)) :
  asr_tokens ≠ [] →
  ∃ (padded : list (list Z)) (lens : list Q) (max_length : nat),
    pad_asr_tokens asr_tokens = Ok (padded, lens)
    ∧ (1 ≤ max_length)%nat
    ∧ Forall (λ t, length t = max_length) padded
    ∧ Forall2 (λ t p, ∃ k, p = t ++ replicate k 0) asr_tokens padded
    ∧ length lens = length asr_tokens
    ∧ Forall (λ x, (0 < x)%Q ∧ (x <= 1)%Q) lens
    ∧ ∃ m, tensor_max lens = Ok m ∧ (m == 1)%Q.
Proof.
  intros Hne. unfold pad_asr_tokens.
  destruct (py_max_spec ((λ t, Z.of_nat (length t)) <$> asr_tokens))
    as (m & -> & Hall & Hin).
  { by destruct asr_tokens. }
  simpl result_bind.
  set (M := if m =? 0 then 1 else m).
  assert (HM : 1 ≤ M ∧ m ≤ M).
  { apply list_elem_of_fmap in Hin as (t & -> & _). unfold M.
    destruct (Z.eqb_spec (Z.of_nat (length t)) 0); lia. }
  set (padded := (λ t, t ++ replicate (Z.to_nat (M - Z.of_nat (length t))) 0)
                   <$> asr_tokens).
  assert (Hlen : Forall (λ t, length t = Z.to_nat M) padded).
  { unfold padded. apply Forall_fmap, Forall_forall. intros t Ht. simpl.
    rewrite length_app, length_replicate.
    rewrite Forall_fmap, Forall_forall in Hall. specialize (Hall t Ht). simpl in Hall.
    lia. }
  rewrite (torch_tensor_rectangular padded (Z.to_nat M) Hlen). simpl result_bind.
  assert (Hlens : (λ t, inject_Z (Z.max (Z.of_nat (length t)) 1)) <$> padded
                  = replicate (length padded) (inject_Z M)).
  { apply fmap_constant. eapply Forall_impl; [exact Hlen|].
    intros t Ht. simpl. rewrite Ht. f_equal. lia. }
  rewrite Hlens.
  assert (Hpl : length padded = length asr_tokens) by (unfold padded; apply length_fmap).
  destruct (length padded) as [|k] eqn:Hk.
  { destruct asr_tokens; [done | discriminate Hpl]. }
  rewrite tensor_max_constant. simpl result_bind.
  rewrite fmap_replicate.
  assert (Hone : (inject_Z M / inject_Z M == 1)%Q).
  { apply Qmult_inv_r. change 0%Q with (inject_Z 0). rewrite inject_Z_injective. lia. }
  exists padded, (replicate (S k) (inject_Z M / inject_Z M)%Q), (Z.to_nat M).
  split_and!.
  - reflexivity.
  - lia.
  - exact Hlen.
  - unfold padded. apply Forall2_fmap_r, Forall_Forall2_diag, Forall_forall.
    intros t _. by eexists.
  - rewrite length_replicate. lia.
  - apply Forall_replicate. rewrite Hone. split; [reflexivity | apply Qle_refl].
  - exists (inject_Z M / inject_Z M)%Q. split; [apply tensor_max_constant | exact Hone].
Qed.

Lemma pad_asr_tokens_same_length_witness :
  ∃ (padded : list (list Z)) (lens : list Q) (max_length : nat),
    pad_asr_tokens [[]; []] = Ok (padded, lens)
    ∧ (1 ≤ max_length)%nat
    ∧ Forall (λ t, length t = max_length) padded
    ∧ Forall2 (λ t p, ∃ k, p = t ++ replicate k 0) [[]; []] padded
    ∧ length lens = length ([[]; []] : list (list Z))
    ∧ Forall (λ x, (0 < x)%Q ∧ (x <= 1)%Q) lens
    ∧ ∃ m, tensor_max lens = Ok m ∧ (m == 1)%Q.
Proof. apply (pad_asr_tokens_same_length [[]; []]). discriminate. Defined.

Example pad_asr_tokens_ragged :
  pad_asr_tokens [[5; 7; 9]; []; [4]]
  = Ok ([[5; 7; 9]; [0; 0; 0]; [4; 0; 0]],
        [(3 / 3)%Q; (3 / 3)%Q; (3 / 3)%Q]).
Proof. reflexivity. Qed.

Example pad_asr_tokens_empty_batch :
  pad_asr_tokens [] = Raise (ValueError "max() arg is an empty sequence").
Proof. reflexivity. Qed.

End Padding.

(** ** Reasoning about methods *)

Section Frame.
Context `{Engine}.

(** A method leaves an attribute alone, also when it raises. *)
Definition preserves {X A} (f : Brain → X) (m : M A) : Prop :=
  ∀ b, f (m b).2 = f b.

Context {X : Type} (f : Brain → X).

Lemma preserves_mret {A} (a : A) : preserves f (mret a : M A).
Proof. by intros b. Qed.

Lemma preserves_bind {A B} (m : M A) (k : A → M B) :
  preserves f m → (∀ a, preserves f (k a)) → preserves f (m ≫= k).
Proof.
  intros Hm Hk b. unfold mbind, M_bind, bind. specialize (Hm b).
  destruct (m b) as [[a|e] b1]; simpl in *; [|done]. by rewrite Hk.
Qed.

Lemma preserves_raise {A} e : preserves f (raise e : M A).
Proof. by intros b. Qed.

Lemma preserves_lift {A} (r : result A) : preserves f (lift r).
Proof. by intros b. Qed.

Lemma preserves_get {A} (g : Brain → A) : preserves f (get g).
Proof. by intros b. Qed.

Lemma preserves_getattr {A} name (g : Brain → option A) : preserves f (getattr name g).
Proof. intros b. unfold getattr. by destruct (g b). Qed.

Lemma preserves_modify (g : Brain → Brain) :
  (∀ b, f (g b) = f b) → preserves f (modify g).
Proof. intros Hg b. apply Hg. Qed.

Lemma preserves_emit e : (∀ b, f (log_event e b) = f b) → preserves f (emit e).
Proof. intros He. by apply preserves_modify. Qed.

Lemma preserves_stats_getitem d k : preserves f (stats_getitem d k).
Proof. unfold stats_getitem. destruct (d !! k); [apply preserves_mret | apply preserves_raise]. Qed.

Lemma preserves_for_each {A} (l : list A) (body : A → M unit) :
  (∀ x, x ∈ l → preserves f (body x)) → preserves f (for_each l body).
Proof.
  induction l as [|x l IH]; intros Hbody; simpl.
  - apply preserves_mret.
  - apply preserves_bind; [apply Hbody; left|].
    intros _. apply IH. intros y Hy. apply Hbody. by right.
Qed.

Lemma preserves_for_collect {A B} (l : list A) (body : A → M B) :
  (∀ x, preserves f (body x)) → preserves f (for_collect l body).
Proof.
  intros Hbody. induction l as [|x l IH]; simpl.
  - apply preserves_mret.
  - apply preserves_bind; [done|]. intros y.
    apply preserves_bind; [done|]. intros ys. apply preserves_mret.
Qed.

End Frame.

Lemma filter_log_event `{Engine} (P : event → Prop) `{∀ e, Decision (P e)} e b :
  ¬ P e → filter P (trace (log_event e b)) = filter P (trace b).
Proof.
  intros HP. simpl. rewrite filter_app, filter_cons_False, filter_nil by done.
  apply app_nil_r.
Qed.

(** One step of a frame proof: through a bind, or into the branches. *)
Ltac frame_step :=
  lazymatch goal with
  | |- preserves _ (mret _) => apply preserves_mret
  | |- preserves _ (raise _) => apply preserves_raise
  | |- preserves _ (lift _) => apply preserves_lift
  | |- preserves _ (get _) => apply preserves_get
  | |- preserves _ (getattr _ _) => apply preserves_getattr
  | |- preserves _ (stats_getitem _ _) => apply preserves_stats_getitem
  | |- preserves _ (modify _) =>
      apply preserves_modify; intros ?; first [ reflexivity | solve [eauto] ]
  | |- preserves _ (emit _) =>
      apply preserves_emit; intros ?;
      first [ reflexivity | apply filter_log_event; simpl; tauto | solve [eauto] ]
  | |- preserves _ (_ ≫= _) => apply preserves_bind; [|intros ?]
  | |- preserves _ (match ?x with _ => _ end) => destruct x
  end.

Ltac frame := repeat frame_step.

Section SLUFrame.
Context `{Engine} (hparams : SLU.HParams) (tokenizer : Tokenizer).
Context {X : Type} (f : Brain → X).
(** The attribute is neither the log of calls nor one the recipe assigns. *)
Hypothesis f_trace : ∀ e b, f (log_event e b) = f b.

Lemma preserves_print_results i predicted target :
  preserves f (SLU.print_results i predicted target).
Proof.
  revert i. induction target as [|t target IH]; intros i; simpl.
  - apply preserves_mret.
  - destruct (predicted !! i); [|apply preserves_raise].
    repeat (apply preserves_bind; [by apply preserves_emit|]; intros _).
    apply IH.
Qed.

Lemma preserves_compute_forward batch stage :
  preserves f (SLU.compute_forward hparams batch stage).
Proof. unfold SLU.compute_forward, SLU.quiet_train_batch. frame. Qed.

End SLUFrame.

(** ** [SLU.fit_batch] *)

Section SLUFitBatch.
Context `{Engine} (hparams : SLU.HParams) (tokenizer : Tokenizer).

(** [compute_forward] assigns no attribute and makes no logged call. *)
Lemma compute_forward_pure batch stage b :
  (SLU.compute_forward hparams batch stage b).2 = b.
Proof. apply (preserves_compute_forward hparams (λ b, b)). Qed.

(** In the TRAIN stage [compute_forward] reads [self.batch_count]. *)
Lemma compute_forward_train_count batch b preds b1 :
  SLU.compute_forward hparams batch TRAIN b = (Ok preds, b1) →
  is_Some (batch_count b).
Proof.
  destruct (batch_count b) as [n|] eqn:Hn; [by eexists|]. intros Hfwd. exfalso.
  revert Hfwd. unfold SLU.compute_forward, SLU.quiet_train_batch, getattr.
  unfold mbind, M_bind, bind, lift.
  repeat (cbv beta iota;
          match goal with
          | |- context [batch_count b] => rewrite Hn
          | |- context [match ?x with _ => _ end] =>
              lazymatch x with
              | context [match _ with _ => _ end] => fail
              | _ => destruct x
              end
          end); discriminate.
Qed.

Lemma preserves_compute_objectives_train {X} (f : Brain → X) preds batch :
  (∀ e b, f (log_event e b) = f b) →
  preserves f (SLU.compute_objectives hparams tokenizer preds batch TRAIN).
Proof.
  intros Hf. unfold SLU.compute_objectives, SLU.quiet_train_batch.
  repeat first [ apply preserves_print_results; exact Hf | frame_step ].
Qed.

(** C1: [fit_batch] calls [compute_forward] in the TRAIN stage and
    [compute_objectives] on its predictions, then [backward], then the
    optimizer step exactly when [check_gradients] holds of the loss, then
    [zero_grad]; it adds one to [batch_count] and returns the detached
    loss. *)
Theorem fit_batch_steps (batch : SLU.Batch) (b b1 b2 : Brain) preds (loss : Tensor) :
  SLU.compute_forward hparams batch TRAIN b = (Ok preds, b1) →
  SLU.compute_objectives hparams tokenizer preds batch TRAIN b1 = (Ok loss, b2) →
  ∃ (n : Z) (b' : Brain),
    SLU.fit_batch hparams tokenizer batch b = (Ok (detach loss), b')
    ∧ batch_count b = Some n
    ∧ batch_count b' = Some (n + 1)
    ∧ trace b' = trace b2 ++ [Backward loss]
                   ++ (if check_gradients loss then [OptimizerStep] else [])
                   ++ [ZeroGrad]
    ∧ train_stats b' = train_stats b2
    ∧ cer_metric b' = cer_metric b2
    ∧ wer_metric b' = wer_metric b2
    ∧ optimizer_lr b' = optimizer_lr b2
    ∧ scheduler b' = scheduler b2.
Proof.
  intros Hfwd Hobj.
  destruct (compute_forward_train_count _ _ _ _ Hfwd) as [n Hn].
  assert (Hb1 : b1 = b).
  { pose proof (compute_forward_pure batch TRAIN b) as Hp. by rewrite Hfwd in Hp. }
  assert (Hn2 : batch_count b2 = Some n).
  { pose proof (preserves_compute_objectives_train batch_count preds batch
                  (λ _ _, eq_refl) b1) as Hp.
    rewrite Hobj in Hp. simpl in Hp. by rewrite Hp, Hb1. }
  exists n. unfold SLU.fit_batch, mbind, M_bind, bind.
  rewrite Hfwd, Hobj. unfold emit, modify, getattr, mret, M_ret, ret.
  destruct (check_gradients loss); simpl; rewrite Hn2; simpl;
    (eexists; split; [reflexivity|]; simpl;
     split_and!; try done; by rewrite <- ?app_assoc).
Qed.

End SLUFitBatch.

Lemma fit_batch_steps_witness :
  ∃ (n : Z) (b' : @Brain example_engine),
    @SLU.fit_batch example_engine example_slu_hparams simple_tokenizer example_slu_batch
                   (set_batch_count 7 example_brain) = (Ok 12, b')
    ∧ batch_count (set_batch_count 7 example_brain) = Some n
    ∧ batch_count b' = Some (n + 1)
    ∧ trace b' = [@Backward example_engine 12; OptimizerStep; ZeroGrad].
Proof.
  destruct (@fit_batch_steps example_engine example_slu_hparams simple_tokenizer
              example_slu_batch
              (set_batch_count 7 example_brain) (set_batch_count 7 example_brain)
              (set_batch_count 7 example_brain)
              (@SLU.Pred2 example_engine 6 [3 # 3; 3 # 3]) 12)
    as (n & b' & Hfit & Hn & Hn' & Htrace & _).
  - vm_compute. reflexivity.
  - vm_compute. reflexivity.
  - exists n, b'. split_and!; [exact Hfit | exact Hn | exact Hn' | exact Htrace].
Defined.

(** ** Running methods step by step *)

Section Run.
Context `{Engine}.

Lemma run_bind {A B} (m : M A) (k : A → M B) b :
  (m ≫= k) b = match m b with
                | (Ok a, b') => k a b'
                | (Raise e, b') => (Raise e, b')
                end.
Proof. reflexivity. Qed.

Lemma run_bind_ok {A B} (m : M A) (k : A → M B) b a b' :
  m b = (Ok a, b') → (m ≫= k) b = k a b'.
Proof. intros Hm. by rewrite run_bind, Hm. Qed.

Lemma run_bind_raise {A B} (m : M A) (k : A → M B) b e b' :
  m b = (Raise e, b') → (m ≫= k) b = (Raise e, b').
Proof. intros Hm. by rewrite run_bind, Hm. Qed.

Lemma run_mret {A} (a : A) b : (mret a : M A) b = (Ok a, b).
Proof. reflexivity. Qed.

Lemma run_emit e b : emit e b = (Ok tt, log_event e b).
Proof. reflexivity. Qed.

Lemma run_modify g b : modify g b = (Ok tt, g b).
Proof. reflexivity. Qed.

Lemma run_get {A} (g : Brain → A) b : get g b = (Ok (g b), b).
Proof. reflexivity. Qed.

Lemma run_getattr {A} name (g : Brain → option A) b a :
  g b = Some a → getattr name g b = (Ok a, b).
Proof. intros Hg. unfold getattr. by rewrite Hg. Qed.

Lemma run_getattr_unset {A} name (g : Brain → option A) b :
  g b = None → getattr name g b = (Raise (AttributeError name), b).
Proof. intros Hg. unfold getattr. by rewrite Hg. Qed.

Lemma run_stats_getitem (d : Stats) k v b :
  d !! k = Some v → stats_getitem d k b = (Ok v, b).
Proof. intros Hd. unfold stats_getitem. by rewrite Hd. Qed.

Lemma run_stats_getitem_missing (d : Stats) k b :
  d !! k = None → stats_getitem d k b = (Raise (KeyError (KStr k)), b).
Proof. intros Hd. unfold stats_getitem. by rewrite Hd. Qed.

End Run.

Lemma new_events_app `{Engine} (b b' : Brain) evs :
  trace b' = trace b ++ evs → new_events b b' = evs.
Proof. intros Ht. unfold new_events. by rewrite Ht, drop_app_length. Qed.

(** ** [on_stage_end] of the two recipes *)

Section SLUStageEnd.
Context `{Engine} (hparams : SLU.HParams).

Lemma slu_on_stage_end_train stage_loss epoch b :
  SLU.on_stage_end hparams TRAIN stage_loss epoch b
  = (Ok tt, set_train_stats {["loss" := stage_loss]} b).
Proof. reflexivity. Qed.

Lemma slu_on_stage_end_valid stage_loss epoch b cer wer train :
  cer_metric b = Some cer → wer_metric b = Some wer → train_stats b = Some train →
  let metric := summarize wer "error_rate" in
  let old_lr := (lr_annealing (scheduler b) metric).1.1 in
  let new_lr := (lr_annealing (scheduler b) metric).1.2 in
  ∃ b', SLU.on_stage_end hparams VALID stage_loss epoch b = (Ok tt, b')
        ∧ trace b' = trace b ++
            [LrAnnealing metric;
             UpdateLearningRate new_lr;
             LogStats (EpochLr epoch old_lr) (Some train)
                      (Some (eval_stats stage_loss cer wer)) None;
             SaveAndKeepOnly {["WER" := metric]} ["WER"]]
        ∧ optimizer_lr b' = new_lr
        ∧ scheduler b' = (lr_annealing (scheduler b) metric).2
        ∧ train_stats b' = Some train
        ∧ cer_metric b' = Some cer ∧ wer_metric b' = Some wer
        ∧ batch_count b' = batch_count b.
Proof.
  intros Hcer Hwer Htrain metric old_lr new_lr. subst metric old_lr new_lr.
  destruct (lr_annealing (scheduler b) (summarize wer "error_rate"))
    as [[old_lr new_lr] sch'] eqn:Hlr.
  eexists. split.
  - cbv beta iota zeta delta [SLU.on_stage_end mbind M_bind bind getattr emit modify
                               get mret M_ret ret stats_getitem raise
                               call_lr_annealing update_learning_rate].
    rewrite Hcer; cbv beta iota. rewrite Hwer; cbv beta iota.
    rewrite lookup_insert_eq; cbv beta iota.
    cbn [scheduler log_event]. rewrite Hlr.
    cbn [train_stats log_event set_optimizer_lr set_scheduler].
    rewrite Htrain; cbv beta iota. reflexivity.
  - cbn. rewrite <- !app_assoc. by split_and!.
Qed.
End SLUStageEnd.

Section ASRStageEnd.
Context `{Engine} (hparams : ASR.HParams).

Lemma asr_on_stage_end_train stage_loss epoch b :
  ASR.on_stage_end hparams TRAIN stage_loss epoch b
  = (Ok tt, set_train_stats {["loss" := stage_loss]} b).
Proof. reflexivity. Qed.

Lemma asr_on_stage_end_valid stage_loss epoch b cer wer train metric :
  cer_metric b = Some cer → wer_metric b = Some wer → train_stats b = Some train →
  eval_stats stage_loss cer wer !! ASR.metric_to_optimize hparams = Some metric →
  let key := ASR.metric_to_optimize hparams in
  let old_lr := (lr_annealing (scheduler b) metric).1.1 in
  let new_lr := (lr_annealing (scheduler b) metric).1.2 in
  ∃ b', ASR.on_stage_end hparams VALID stage_loss epoch b = (Ok tt, b')
        ∧ trace b' = trace b ++
            [LrAnnealing metric;
             UpdateLearningRate new_lr;
             LogStats (EpochLr epoch old_lr) (Some train)
                      (Some (eval_stats stage_loss cer wer)) None;
             SaveAndKeepOnly {[key := metric]} [key]]
        ∧ optimizer_lr b' = new_lr
        ∧ scheduler b' = (lr_annealing (scheduler b) metric).2
        ∧ train_stats b' = Some train
        ∧ cer_metric b' = Some cer ∧ wer_metric b' = Some wer.
Proof.
  intros Hcer Hwer Htrain Hkey key old_lr new_lr. subst key old_lr new_lr.
  destruct (lr_annealing (scheduler b) metric) as [[old_lr new_lr] sch'] eqn:Hlr.
  unfold eval_stats in Hkey.
  eexists. split.
  - cbv beta iota zeta delta [ASR.on_stage_end mbind M_bind bind getattr emit modify
                               get mret M_ret ret stats_getitem raise
                               call_lr_annealing update_learning_rate].
    rewrite Hcer; cbv beta iota. rewrite Hwer; cbv beta iota.
    rewrite Hkey; cbv beta iota.
    cbn [scheduler log_event]. rewrite Hlr.
    cbn [train_stats log_event set_optimizer_lr set_scheduler].
    rewrite Htrain; cbv beta iota. reflexivity.
  - cbn. rewrite <- !app_assoc. by split_and!.
Qed.

(** A key that is not in the statistics: [KeyError], before any call. *)
Lemma asr_on_stage_end_valid_bad_key stage_loss epoch b cer wer :
  cer_metric b = Some cer → wer_metric b = Some wer →
  eval_stats stage_loss cer wer !! ASR.metric_to_optimize hparams = None →
  ASR.on_stage_end hparams VALID stage_loss epoch b
  = (Raise (KeyError (KStr (ASR.metric_to_optimize hparams))), b).
Proof.
  intros Hcer Hwer Hkey. unfold eval_stats in Hkey.
  cbv beta iota zeta delta [ASR.on_stage_end mbind M_bind bind getattr emit modify
                             get mret M_ret ret stats_getitem raise
                             call_lr_annealing update_learning_rate].
  rewrite Hcer; cbv beta iota. rewrite Hwer; cbv beta iota.
  rewrite Hkey; cbv beta iota. reflexivity.
Qed.

Lemma asr_on_stage_end_frame {X} (f : Brain → X) stage stage_loss epoch :
  stage ≠ VALID →
  (∀ v b, f (set_train_stats v b) = f b) →
  (∀ e b, ¬ is_lr_event e → ¬ is_checkpoint_event e → f (log_event e b) = f b) →
  preserves f (ASR.on_stage_end hparams stage stage_loss epoch).
Proof.
  intros Hstage Hts Hev. unfold ASR.on_stage_end.
  destruct stage; [|done|].
  - apply preserves_bind; [|intros ?; apply preserves_mret].
    apply preserves_bind; [by apply preserves_modify|]. intros _. apply preserves_mret.
  - apply preserves_bind; [frame|]. intros stats.
    apply preserves_bind; [apply preserves_emit; intros ?; apply Hev; simpl; tauto|].
    intros _.
    apply preserves_bind; [frame|]. intros wer.
    apply preserves_emit. intros ?. apply Hev; simpl; tauto.
Qed.

End ASRStageEnd.

Section SLUStageEndFrame.
Context `{Engine} (hparams : SLU.HParams).

Lemma slu_on_stage_end_frame {X} (f : Brain → X) stage stage_loss epoch :
  stage ≠ VALID →
  (∀ v b, f (set_train_stats v b) = f b) →
  (∀ e b, ¬ is_lr_event e → ¬ is_checkpoint_event e → f (log_event e b) = f b) →
  preserves f (SLU.on_stage_end hparams stage stage_loss epoch).
Proof.
  intros Hstage Hts Hev. unfold SLU.on_stage_end.
  destruct stage; [|done|].
  - apply preserves_bind; [|intros ?; apply preserves_mret].
    apply preserves_bind; [by apply preserves_modify|]. intros _. apply preserves_mret.
  - apply preserves_bind; [frame|]. intros stats.
    apply preserves_bind; [apply preserves_emit; intros ?; apply Hev; simpl; tauto|].
    intros _.
    apply preserves_bind; [frame|]. intros wer.
    apply preserves_emit. intros ?. apply Hev; simpl; tauto.
Qed.

End SLUStageEndFrame.

(** ** What the methods leave alone *)

Section MethodFrames.
Context `{Engine} (slu : SLU.HParams) (asr : ASR.HParams) (tokenizer : Tokenizer).
Context {X : Type} (f : Brain → X).
(** The attribute is not the log, the batch counter or the feature lengths. *)
Hypothesis f_log : ∀ e b, f (log_event e b) = f b.
Hypothesis f_batch_count : ∀ v b, f (set_batch_count v b) = f b.
Hypothesis f_feat_lens : ∀ v b, f (set_feat_lens v b) = f b.

Lemma preserves_metric_append name field update ids predict target :
  (∀ v b, f (update v b) = f b) →
  preserves f (metric_append name field update ids predict target).
Proof. intros Hu. unfold metric_append. frame. Qed.

Lemma slu_compute_objectives_train_frame preds batch :
  preserves f (SLU.compute_objectives slu tokenizer preds batch TRAIN).
Proof. by apply preserves_compute_objectives_train. Qed.

Lemma slu_fit_batch_frame batch : preserves f (SLU.fit_batch slu tokenizer batch).
Proof.
  unfold SLU.fit_batch.
  apply preserves_bind; [by apply preserves_compute_forward|]. intros preds.
  apply preserves_bind; [apply slu_compute_objectives_train_frame|]. intros loss.
  frame.
Qed.

Lemma asr_prepare_features_frame stage wavs paths :
  preserves f (ASR.prepare_features asr stage wavs paths).
Proof. unfold ASR.prepare_features. frame. Qed.

Lemma asr_compute_forward_frame batch stage :
  preserves f (ASR.compute_forward asr batch stage).
Proof.
  unfold ASR.compute_forward.
  apply preserves_bind; [apply asr_prepare_features_frame|]. intros [feats lens].
  frame.
Qed.

Lemma asr_compute_objectives_train_frame preds batch :
  preserves f (ASR.compute_objectives asr tokenizer preds batch TRAIN).
Proof. unfold ASR.compute_objectives, ASR.predictions_getitem. frame. Qed.

Lemma asr_fit_batch_frame batch : preserves f (ASR.fit_batch asr tokenizer batch).
Proof.
  unfold ASR.fit_batch.
  apply preserves_bind; [apply asr_compute_forward_frame|]. intros preds.
  apply preserves_bind; [apply asr_compute_objectives_train_frame|]. intros loss.
  frame.
Qed.

(** When the attribute is not one of the two accumulators either, the
    evaluation of a batch and the start of a stage leave it alone too. *)
Hypothesis f_cer_metric : ∀ v b, f (set_cer_metric v b) = f b.
Hypothesis f_wer_metric : ∀ v b, f (set_wer_metric v b) = f b.

Lemma slu_compute_objectives_frame preds batch stage :
  preserves f (SLU.compute_objectives slu tokenizer preds batch stage).
Proof.
  unfold SLU.compute_objectives, SLU.quiet_train_batch.
  repeat first [ apply preserves_print_results; exact f_log
               | apply preserves_metric_append; assumption
               | frame_step ].
Qed.

Lemma slu_evaluate_batch_frame batch stage :
  preserves f (SLU.evaluate_batch slu tokenizer batch stage).
Proof.
  unfold SLU.evaluate_batch.
  apply preserves_bind; [by apply preserves_compute_forward|]. intros preds.
  apply preserves_bind; [apply slu_compute_objectives_frame|]. intros loss.
  frame.
Qed.

Lemma slu_on_stage_start_frame stage epoch :
  preserves f (SLU.on_stage_start stage epoch).
Proof. unfold SLU.on_stage_start. frame. Qed.

Lemma asr_compute_objectives_frame preds batch stage :
  preserves f (ASR.compute_objectives asr tokenizer preds batch stage).
Proof.
  unfold ASR.compute_objectives, ASR.predictions_getitem.
  repeat first [ apply preserves_metric_append; assumption | frame_step ].
Qed.

Lemma asr_evaluate_batch_frame batch stage :
  preserves f (ASR.evaluate_batch asr tokenizer batch stage).
Proof.
  unfold ASR.evaluate_batch.
  apply preserves_bind; [apply asr_compute_forward_frame|]. intros preds.
  apply preserves_bind; [apply asr_compute_objectives_frame|]. intros loss.
  frame.
Qed.

Lemma asr_on_stage_start_frame stage epoch :
  preserves f (ASR.on_stage_start stage epoch).
Proof. unfold ASR.on_stage_start. frame. Qed.

End MethodFrames.

(** ** Learning-rate annealing and checkpoints *)

Section StageEndClaims.
Context `{Engine} (slu : SLU.HParams) (asr : ASR.HParams).

Lemma filter_lr_events_valid (metric new_lr : Float) meta train valid (saved : Stats) keys :
  filter is_lr_event
    [LrAnnealing metric; UpdateLearningRate new_lr;
     LogStats meta train valid None; SaveAndKeepOnly saved keys]
  = [LrAnnealing metric; UpdateLearningRate new_lr].
Proof. reflexivity. Qed.

Lemma filter_checkpoint_events_valid (metric new_lr : Float) meta train valid
    (saved : Stats) keys :
  filter is_checkpoint_event
    [LrAnnealing metric; UpdateLearningRate new_lr;
     LogStats meta train valid None; SaveAndKeepOnly saved keys]
  = [SaveAndKeepOnly saved keys].
Proof. reflexivity. Qed.

Lemma filter_log_stats_events_valid (metric new_lr : Float) meta train valid
    (saved : Stats) keys :
  filter is_log_stats_event
    [LrAnnealing metric; UpdateLearningRate new_lr;
     LogStats meta train valid None; SaveAndKeepOnly saved keys]
  = [LogStats meta train valid None].
Proof. reflexivity. Qed.

(** C3: the learning rate is annealed at the end of a VALID stage and of
    no other stage; the scheduler is called on the metric summarised at
    that stage end (the word error rate in the SLU recipe, the entry
    [metric_to_optimize] of the stage statistics in the ASR recipe), and
    the optimizer is then updated to the new learning rate. *)
Theorem lr_annealed_at_valid_end_only (stage_loss : Float) (epoch : Z) (b : Brain) :
  (∀ stage, stage ≠ VALID →
     let b1 := (SLU.on_stage_end slu stage stage_loss epoch b).2 in
     let b2 := (ASR.on_stage_end asr stage stage_loss epoch b).2 in
     (filter is_lr_event (trace b1) = filter is_lr_event (trace b)
      ∧ optimizer_lr b1 = optimizer_lr b ∧ scheduler b1 = scheduler b)
     ∧ (filter is_lr_event (trace b2) = filter is_lr_event (trace b)
        ∧ optimizer_lr b2 = optimizer_lr b ∧ scheduler b2 = scheduler b))
  ∧ (∀ cer wer train,
       cer_metric b = Some cer → wer_metric b = Some wer → train_stats b = Some train →
       (let metric := summarize wer "error_rate" in
        let new_lr := (lr_annealing (scheduler b) metric).1.2 in
        ∃ b', SLU.on_stage_end slu VALID stage_loss epoch b = (Ok tt, b')
              ∧ filter is_lr_event (new_events b b')
                = [LrAnnealing metric; UpdateLearningRate new_lr]
              ∧ optimizer_lr b' = new_lr)
       ∧ (∀ metric,
            eval_stats stage_loss cer wer !! ASR.metric_to_optimize asr = Some metric →
            let new_lr := (lr_annealing (scheduler b) metric).1.2 in
            ∃ b', ASR.on_stage_end asr VALID stage_loss epoch b = (Ok tt, b')
                  ∧ filter is_lr_event (new_events b b')
                    = [LrAnnealing metric; UpdateLearningRate new_lr]
                  ∧ optimizer_lr b' = new_lr)).
Proof.
  split.
  - intros stage Hstage b1 b2. subst b1 b2. split; split_and!.
    + apply (slu_on_stage_end_frame slu (λ b, filter is_lr_event (trace b))
               stage stage_loss epoch Hstage); [done|].
      intros e b0 He _. by apply filter_log_event.
    + by apply (slu_on_stage_end_frame slu optimizer_lr stage stage_loss epoch Hstage).
    + by apply (slu_on_stage_end_frame slu scheduler stage stage_loss epoch Hstage).
    + apply (asr_on_stage_end_frame asr (λ b, filter is_lr_event (trace b))
               stage stage_loss epoch Hstage); [done|].
      intros e b0 He _. by apply filter_log_event.
    + by apply (asr_on_stage_end_frame asr optimizer_lr stage stage_loss epoch Hstage).
    + by apply (asr_on_stage_end_frame asr scheduler stage stage_loss epoch Hstage).
  - intros cer wer train Hcer Hwer Htrain. split.
    + destruct (slu_on_stage_end_valid slu stage_loss epoch b cer wer train
                  Hcer Hwer Htrain) as (b' & Hrun & Htrace & Hlr & _).
      exists b'. split_and!; [done | | done].
      rewrite (new_events_app _ _ _ Htrace). apply filter_lr_events_valid.
    + intros metric Hkey.
      destruct (asr_on_stage_end_valid asr stage_loss epoch b cer wer train metric
                  Hcer Hwer Htrain Hkey) as (b' & Hrun & Htrace & Hlr & _).
      exists b'. split_and!; [done | | done].
      rewrite (new_events_app _ _ _ Htrace). apply filter_lr_events_valid.
Qed.

(** C4: a checkpoint is saved at the end of a VALID stage and of no other
    stage, by the one call of [save_and_keep_only] whose [meta] holds the
    monitored metric under its key and whose [min_keys] is that key. *)
Theorem checkpoint_saved_at_valid_end_only (stage_loss : Float) (epoch : Z) (b : Brain) :
  (∀ stage, stage ≠ VALID →
     let b1 := (SLU.on_stage_end slu stage stage_loss epoch b).2 in
     let b2 := (ASR.on_stage_end asr stage stage_loss epoch b).2 in
     filter is_checkpoint_event (trace b1) = filter is_checkpoint_event (trace b)
     ∧ filter is_checkpoint_event (trace b2) = filter is_checkpoint_event (trace b))
  ∧ (∀ cer wer train,
       cer_metric b = Some cer → wer_metric b = Some wer → train_stats b = Some train →
       (∃ b', SLU.on_stage_end slu VALID stage_loss epoch b = (Ok tt, b')
              ∧ filter is_checkpoint_event (new_events b b')
                = [SaveAndKeepOnly {["WER" := summarize wer "error_rate"]} ["WER"]]
              ∧ last (trace b')
                = Some (SaveAndKeepOnly {["WER" := summarize wer "error_rate"]} ["WER"]))
       ∧ (∀ metric,
            eval_stats stage_loss cer wer !! ASR.metric_to_optimize asr = Some metric →
            let key := ASR.metric_to_optimize asr in
            ∃ b', ASR.on_stage_end asr VALID stage_loss epoch b = (Ok tt, b')
                  ∧ filter is_checkpoint_event (new_events b b')
                    = [SaveAndKeepOnly {[key := metric]} [key]]
                  ∧ last (trace b') = Some (SaveAndKeepOnly {[key := metric]} [key]))).
Proof.
  split.
  - intros stage Hstage b1 b2. subst b1 b2. split.
    + apply (slu_on_stage_end_frame slu (λ b, filter is_checkpoint_event (trace b))
               stage stage_loss epoch Hstage); [done|].
      intros e b0 _ He. by apply filter_log_event.
    + apply (asr_on_stage_end_frame asr (λ b, filter is_checkpoint_event (trace b))
               stage stage_loss epoch Hstage); [done|].
      intros e b0 _ He. by apply filter_log_event.
  - intros cer wer train Hcer Hwer Htrain. split.
    + destruct (slu_on_stage_end_valid slu stage_loss epoch b cer wer train
                  Hcer Hwer Htrain) as (b' & Hrun & Htrace & _).
      exists b'. split_and!; [done | |].
      * rewrite (new_events_app _ _ _ Htrace). apply filter_checkpoint_events_valid.
      * rewrite Htrace, last_app_cons. reflexivity.
    + intros metric Hkey key.
      destruct (asr_on_stage_end_valid asr stage_loss epoch b cer wer train metric
                  Hcer Hwer Htrain Hkey) as (b' & Hrun & Htrace & _).
      exists b'. split_and!; [done | |].
      * rewrite (new_events_app _ _ _ Htrace). apply filter_checkpoint_events_valid.
      * rewrite Htrace, last_app_cons. reflexivity.
Qed.

End StageEndClaims.

Lemma lr_annealed_at_valid_end_only_witness :
  (∃ b', @SLU.on_stage_end example_engine example_slu_hparams VALID 6 1
           example_valid_brain = (Ok tt, b')
         ∧ filter is_lr_event (new_events example_valid_brain b')
           = [@LrAnnealing example_engine 2; @UpdateLearningRate example_engine 9]
         ∧ optimizer_lr b' = 9)
  ∧ (∃ b', @ASR.on_stage_end example_engine example_asr_hparams VALID 6 1
             example_valid_brain = (Ok tt, b')
           ∧ filter is_lr_event (new_events example_valid_brain b')
             = [@LrAnnealing example_engine 2; @UpdateLearningRate example_engine 9]
           ∧ optimizer_lr b' = 9)
  ∧ filter is_lr_event
      (trace (@SLU.on_stage_end example_engine example_slu_hparams TEST 6 1
                example_valid_brain).2) = [].
Proof.
  destruct (@lr_annealed_at_valid_end_only example_engine example_slu_hparams
              example_asr_hparams 6 1 example_valid_brain) as [Hother Hvalid].
  destruct (Hvalid _ _ _ eq_refl eq_refl eq_refl) as [Hslu Hasr].
  split_and!.
  - exact Hslu.
  - exact (Hasr 2 eq_refl).
  - assert (Htest : TEST ≠ VALID) by discriminate.
    exact (proj1 (proj1 (Hother TEST Htest))).
Defined.

Lemma checkpoint_saved_at_valid_end_only_witness :
  (∃ b', @SLU.on_stage_end example_engine example_slu_hparams VALID 6 1
           example_valid_brain = (Ok tt, b')
         ∧ filter is_checkpoint_event (new_events example_valid_brain b')
           = [@SaveAndKeepOnly example_engine {["WER" := 2]} ["WER"]]
         ∧ last (trace b') = Some (@SaveAndKeepOnly example_engine {["WER" := 2]} ["WER"]))
  ∧ (∃ b', @ASR.on_stage_end example_engine example_asr_hparams VALID 6 1
             example_valid_brain = (Ok tt, b')
           ∧ filter is_checkpoint_event (new_events example_valid_brain b')
             = [@SaveAndKeepOnly example_engine {["WER" := 2]} ["WER"]]
           ∧ last (trace b') = Some (@SaveAndKeepOnly example_engine {["WER" := 2]} ["WER"]))
  ∧ filter is_checkpoint_event
      (trace (@ASR.on_stage_end example_engine example_asr_hparams TRAIN 6 1
                example_valid_brain).2) = [].
Proof.
  destruct (@checkpoint_saved_at_valid_end_only example_engine example_slu_hparams
              example_asr_hparams 6 1 example_valid_brain) as [Hother Hvalid].
  destruct (Hvalid _ _ _ eq_refl eq_refl eq_refl) as [Hslu Hasr].
  split_and!.
  - exact Hslu.
  - exact (Hasr 2 eq_refl).
  - assert (Htrain : TRAIN ≠ VALID) by discriminate.
    exact (proj2 (Hother TRAIN Htrain)).
Defined.

(** ** The train statistics between the end of training and the log *)

Section TrainStats.
Context `{Engine} (slu : SLU.HParams) (asr : ASR.HParams) (tokenizer : Tokenizer).

Lemma slu_on_stage_end_keeps_train_stats stage stage_loss epoch :
  stage ≠ TRAIN →
  preserves train_stats (SLU.on_stage_end slu stage stage_loss epoch).
Proof.
  intros Hstage. unfold SLU.on_stage_end, call_lr_annealing, update_learning_rate.
  destruct stage; [done| |]; frame.
Qed.

Lemma asr_on_stage_end_keeps_train_stats stage stage_loss epoch :
  stage ≠ TRAIN →
  preserves train_stats (ASR.on_stage_end asr stage stage_loss epoch).
Proof.
  intros Hstage. unfold ASR.on_stage_end, call_lr_annealing, update_learning_rate.
  destruct stage; [done| |]; frame.
Qed.

Lemma slu_run_call_keeps_train_stats c :
  SLU.stores_train_stats c = false →
  preserves train_stats (SLU.run_call slu tokenizer c).
Proof.
  destruct c as [stage epoch|batch|batch stage|stage stage_loss epoch]; simpl; intros Hc.
  - by apply slu_on_stage_start_frame.
  - apply preserves_bind; [by apply slu_fit_batch_frame|]. intros _. apply preserves_mret.
  - apply preserves_bind; [by apply slu_evaluate_batch_frame|]. intros _.
    apply preserves_mret.
  - apply slu_on_stage_end_keeps_train_stats. by destruct stage.
Qed.

Lemma asr_run_call_keeps_train_stats c :
  ASR.stores_train_stats c = false →
  preserves train_stats (ASR.run_call asr tokenizer c).
Proof.
  destruct c as [stage epoch|batch|batch stage|stage stage_loss epoch]; simpl; intros Hc.
  - by apply asr_on_stage_start_frame.
  - apply preserves_bind; [by apply asr_fit_batch_frame|]. intros _. apply preserves_mret.
  - apply preserves_bind; [by apply asr_evaluate_batch_frame|]. intros _.
    apply preserves_mret.
  - apply asr_on_stage_end_keeps_train_stats. by destruct stage.
Qed.

(** C10: the loss of a TRAIN stage is stored at the end of that stage; no
    call the controller makes before the end of the next VALID stage
    changes what is stored, and the end of the VALID stage logs it as the
    train statistics. *)
Theorem train_stats_logged_unchanged (train_loss valid_loss : Float)
    (epoch valid_epoch : Z) (b : Brain) :
  (∀ calls,
     Forall (λ c, SLU.stores_train_stats c = false) calls →
     let b1 := (SLU.on_stage_end slu TRAIN train_loss epoch b).2 in
     let b2 := (SLU.run_calls slu tokenizer calls b1).2 in
     train_stats b1 = Some {["loss" := train_loss]}
     ∧ train_stats b2 = Some {["loss" := train_loss]}
     ∧ ∀ cer wer,
         cer_metric b2 = Some cer → wer_metric b2 = Some wer →
         ∃ b3 old_lr,
           SLU.on_stage_end slu VALID valid_loss valid_epoch b2 = (Ok tt, b3)
           ∧ filter is_log_stats_event (new_events b2 b3)
             = [LogStats (EpochLr valid_epoch old_lr) (Some {["loss" := train_loss]})
                         (Some (eval_stats valid_loss cer wer)) None]
           ∧ train_stats b3 = Some {["loss" := train_loss]})
  ∧ (∀ calls,
       Forall (λ c, ASR.stores_train_stats c = false) calls →
       let b1 := (ASR.on_stage_end asr TRAIN train_loss epoch b).2 in
       let b2 := (ASR.run_calls asr tokenizer calls b1).2 in
       train_stats b1 = Some {["loss" := train_loss]}
       ∧ train_stats b2 = Some {["loss" := train_loss]}
       ∧ ∀ cer wer metric,
           cer_metric b2 = Some cer → wer_metric b2 = Some wer →
           eval_stats valid_loss cer wer !! ASR.metric_to_optimize asr = Some metric →
           ∃ b3 old_lr,
             ASR.on_stage_end asr VALID valid_loss valid_epoch b2 = (Ok tt, b3)
             ∧ filter is_log_stats_event (new_events b2 b3)
               = [LogStats (EpochLr valid_epoch old_lr) (Some {["loss" := train_loss]})
                           (Some (eval_stats valid_loss cer wer)) None]
             ∧ train_stats b3 = Some {["loss" := train_loss]}).
Proof.
  split.
  - intros calls Hcalls b1 b2.
    assert (H1 : train_stats b1 = Some {["loss" := train_loss]}) by reflexivity.
    assert (H2 : train_stats b2 = Some {["loss" := train_loss]}).
    { subst b2. unfold SLU.run_calls. rewrite preserves_for_each; [done|].
      intros c Hc. apply slu_run_call_keeps_train_stats.
      rewrite Forall_forall in Hcalls. by apply Hcalls. }
    split_and!; [done | done |]. intros cer wer Hcer Hwer.
    destruct (slu_on_stage_end_valid slu valid_loss valid_epoch b2 cer wer _
                Hcer Hwer H2) as (b3 & Hrun & Htrace & _ & _ & Hts & _).
    exists b3. eexists. split_and!; [done | | done].
    rewrite (new_events_app _ _ _ Htrace). apply filter_log_stats_events_valid.
  - intros calls Hcalls b1 b2.
    assert (H1 : train_stats b1 = Some {["loss" := train_loss]}) by reflexivity.
    assert (H2 : train_stats b2 = Some {["loss" := train_loss]}).
    { subst b2. unfold ASR.run_calls. rewrite preserves_for_each; [done|].
      intros c Hc. apply asr_run_call_keeps_train_stats.
      rewrite Forall_forall in Hcalls. by apply Hcalls. }
    split_and!; [done | done |]. intros cer wer metric Hcer Hwer Hkey.
    destruct (asr_on_stage_end_valid asr valid_loss valid_epoch b2 cer wer _ metric
                Hcer Hwer H2 Hkey) as (b3 & Hrun & Htrace & _ & _ & Hts & _).
    exists b3. eexists. split_and!; [done | | done].
    rewrite (new_events_app _ _ _ Htrace). apply filter_log_stats_events_valid.
Qed.

End TrainStats.

Lemma train_stats_logged_unchanged_witness :
  ∃ b3 old_lr,
    @SLU.on_stage_end example_engine example_slu_hparams VALID 6 1
      (@SLU.run_calls example_engine example_slu_hparams simple_tokenizer
         [SLU.OnStageStart VALID 1; SLU.EvaluateBatch example_slu_batch VALID]
         (@SLU.on_stage_end example_engine example_slu_hparams TRAIN 5 1 example_brain).2).2
    = (Ok tt, b3)
    ∧ filter is_log_stats_event
        (new_events
           (@SLU.run_calls example_engine example_slu_hparams simple_tokenizer
              [SLU.OnStageStart VALID 1; SLU.EvaluateBatch example_slu_batch VALID]
              (@SLU.on_stage_end example_engine example_slu_hparams TRAIN 5 1
                 example_brain).2).2 b3)
      = [@LogStats example_engine (EpochLr 1 old_lr) (Some {["loss" := 5]})
           (Some (@eval_stats example_engine 6 example_cer example_wer)) None]
    ∧ train_stats b3 = Some {["loss" := 5]}.
Proof.
  destruct (@train_stats_logged_unchanged example_engine example_slu_hparams
              example_asr_hparams simple_tokenizer 5 6 1 1 example_brain) as [Hslu _].
  destruct (Hslu [SLU.OnStageStart VALID 1; SLU.EvaluateBatch example_slu_batch VALID])
    as (_ & _ & Hlog).
  - repeat constructor.
  - apply (Hlog example_cer example_wer); vm_compute; reflexivity.
Defined.

(** ** Error-rate statistics of a stage *)

Section Inversion.
Context `{Engine}.

Lemma bind_ok_inv {A B} (m : M A) (k : A → M B) b r b' :
  (m ≫= k) b = (Ok r, b') → ∃ a b1, m b = (Ok a, b1) ∧ k a b1 = (Ok r, b').
Proof.
  rewrite run_bind. destruct (m b) as [[a|e] b1]; [eauto | discriminate].
Qed.

Lemma mret_ok_inv {A} (a r : A) b b' : (mret a : M A) b = (Ok r, b') → r = a ∧ b' = b.
Proof. intros [= -> ->]. done. Qed.

Lemma getattr_ok_inv {A} name (g : Brain → option A) b a b' :
  getattr name g b = (Ok a, b') → g b = Some a ∧ b' = b.
Proof. unfold getattr. destruct (g b); intros [= -> ->]; done. Qed.

Lemma lift_ok_inv {A} (r : result A) b a b' : lift r b = (Ok a, b') → r = Ok a ∧ b' = b.
Proof. intros [= -> ->]. done. Qed.

Lemma emit_ok_inv e b u b' : emit e b = (Ok u, b') → b' = log_event e b.
Proof. intros [= _ ->]. done. Qed.

Lemma modify_ok_inv g b u b' : modify g b = (Ok u, b') → b' = g b.
Proof. intros [= _ ->]. done. Qed.

Lemma metric_append_ok_inv name field update ids predict target b u b' :
  metric_append name field update ids predict target b = (Ok u, b') →
  ∃ m, field b = Some m ∧ b' = update (append m ids predict target) b.
Proof.
  unfold metric_append. intros (m & b1 & [Hm ->]%getattr_ok_inv & ->%modify_ok_inv)%bind_ok_inv.
  eauto.
Qed.

End Inversion.

Section ASRMetrics.
Context `{Engine} (asr : ASR.HParams) (tokenizer : Tokenizer).

Lemma predictions_getitem_ok_inv (predictions : gmap string Tensor) k b v b' :
  ASR.predictions_getitem predictions k b = (Ok v, b') →
  predictions !! k = Some v ∧ b' = b.
Proof.
  unfold ASR.predictions_getitem. destruct (predictions !! k); intros [= -> ->]; done.
Qed.

(** Outside the TRAIN stage a call of [compute_objectives] that returns
    has appended the statistics of the batch to both accumulators. *)
Lemma asr_compute_objectives_appends preds batch stage b loss b' :
  stage ≠ TRAIN →
  ASR.compute_objectives asr tokenizer preds batch stage b = (Ok loss, b') →
  ∃ logprobs lens predicted cer wer,
    preds !! "ctc_logprobs" = Some logprobs
    ∧ feat_lens b = Some lens
    ∧ ASR.predicted_words asr tokenizer logprobs lens = Ok predicted
    ∧ cer_metric b = Some cer ∧ wer_metric b = Some wer
    ∧ wer_metric b'
      = Some (append wer (ASR.id batch) predicted (split_on " " <$> ASR.words batch))
    ∧ cer_metric b'
      = Some (append cer (ASR.id batch) predicted (split_on " " <$> ASR.words batch)).
Proof.
  intros Hstage. unfold ASR.compute_objectives.
  destruct (ASR.prepare_tokens asr stage (ASR.tokens batch)) as [tokens tokens_lens].
  intros (logprobs & b1 & [Hlp ->]%predictions_getitem_ok_inv & Hrun)%bind_ok_inv.
  apply bind_ok_inv in Hrun as (lens & b1 & [Hlens ->]%getattr_ok_inv & Hrun).
  apply bind_ok_inv in Hrun as ([] & b1 & ->%emit_ok_inv & Hrun).
  apply bind_ok_inv in Hrun as ([] & b2 & Hrun & [_ ->]%mret_ok_inv).
  destruct stage; [done| |].
  all: apply bind_ok_inv in Hrun
      as (logprobs' & b3 & [Hlp' ->]%predictions_getitem_ok_inv & Hrun);
    apply bind_ok_inv in Hrun as (lens' & b3 & [Hlens' ->]%getattr_ok_inv & Hrun);
    apply bind_ok_inv in Hrun as (predicted & b3 & [Hpred ->]%lift_ok_inv & Hrun);
    apply bind_ok_inv in Hrun as ([] & b3 & Hwer & Hcer);
    apply metric_append_ok_inv in Hwer as (wer & Hwer & ->);
    apply metric_append_ok_inv in Hcer as (cer & Hcer & ->);
    simpl in Hlens', Hwer, Hcer;
    assert (logprobs' = logprobs) as -> by congruence;
    assert (lens' = lens) as -> by congruence;
    exists logprobs, lens, predicted, cer, wer; by split_and!.
Qed.

Lemma asr_evaluate_batch_appends batch stage b loss b' :
  stage ≠ TRAIN →
  ASR.evaluate_batch asr tokenizer batch stage b = (Ok loss, b') →
  ∃ predicted cer wer,
    cer_metric b = Some cer ∧ wer_metric b = Some wer
    ∧ (∃ logprobs lens, ASR.predicted_words asr tokenizer logprobs lens = Ok predicted)
    ∧ wer_metric b'
      = Some {| split_tokens := split_tokens wer;
                scores := scores wer
                          ++ ASR.batch_scores (split_tokens wer) batch predicted |}
    ∧ cer_metric b'
      = Some {| split_tokens := split_tokens cer;
                scores := scores cer
                          ++ ASR.batch_scores (split_tokens cer) batch predicted |}.
Proof.
  intros Hstage. unfold ASR.evaluate_batch.
  intros (preds & b1 & Hfwd & Hrun)%bind_ok_inv.
  apply bind_ok_inv in Hrun as (loss' & b2 & Hobj & [_ ->]%mret_ok_inv).
  apply asr_compute_objectives_appends in Hobj
      as (logprobs & lens & predicted & cer & wer & _ & _ & Hp & Hcer & Hwer & Hw & Hc);
    [|done].
  pose proof (asr_compute_forward_frame asr cer_metric (λ _ _, eq_refl) (λ _ _, eq_refl)
                batch stage b) as Hfc.
  pose proof (asr_compute_forward_frame asr wer_metric (λ _ _, eq_refl) (λ _ _, eq_refl)
                batch stage b) as Hfw.
  rewrite Hfwd in Hfc, Hfw. simpl in Hfc, Hfw.
  exists predicted, cer, wer. unfold ASR.batch_scores. unfold append in Hw, Hc.
  split_and!; [congruence | congruence | by eauto | congruence | congruence].
Qed.

Lemma asr_evaluate_batches_append stage batches b b' cer wer :
  stage ≠ TRAIN →
  cer_metric b = Some cer → wer_metric b = Some wer →
  ASR.run_calls asr tokenizer ((λ batch, ASR.EvaluateBatch batch stage) <$> batches) b
  = (Ok tt, b') →
  ∃ predicted : list (list (list string)),
    length predicted = length batches
    ∧ Forall (λ p, ∃ logprobs lens, ASR.predicted_words asr tokenizer logprobs lens = Ok p)
             predicted
    ∧ wer_metric b'
      = Some {| split_tokens := split_tokens wer;
                scores := scores wer
                  ++ concat (zip_with (ASR.batch_scores (split_tokens wer))
                                      batches predicted) |}
    ∧ cer_metric b'
      = Some {| split_tokens := split_tokens cer;
                scores := scores cer
                  ++ concat (zip_with (ASR.batch_scores (split_tokens cer))
                                      batches predicted) |}.
Proof.
  intros Hstage. revert b cer wer.
  induction batches as [|batch batches IH]; intros b cer wer Hcer Hwer Hrun.
  - injection Hrun as <-. exists []. simpl. rewrite !app_nil_r.
    split_and!; [done | done | by destruct wer | by destruct cer].
  - unfold ASR.run_calls in Hrun. simpl in Hrun.
    apply bind_ok_inv in Hrun as ([] & b1 & Hcall & Hrest).
    apply bind_ok_inv in Hcall as (loss & b2 & Heval & [_ ->]%mret_ok_inv).
    apply asr_evaluate_batch_appends in Heval
        as (p & cer' & wer' & Hcer' & Hwer' & Hp & Hw & Hc); [|done].
    assert (cer' = cer) as -> by congruence. assert (wer' = wer) as -> by congruence.
    destruct (IH _ _ _ Hc Hw Hrest) as (ps & Hlen & Hps & Hw' & Hc').
    exists (p :: ps). simpl in *. rewrite <- !app_assoc in Hw', Hc'.
    split_and!; [by f_equal | by constructor | done | done].
Qed.

End ASRMetrics.

Section ASRStageStatistics.
Context `{Engine} (asr : ASR.HParams) (tokenizer : Tokenizer).

Lemma asr_on_stage_end_test stage_loss epoch b cer wer :
  cer_metric b = Some cer → wer_metric b = Some wer →
  ∃ b', ASR.on_stage_end asr TEST stage_loss epoch b = (Ok tt, b')
        ∧ trace b' = trace b ++
            [LogStats (EpochLoaded (ASR.epoch_counter_current asr)) None None
                      (Some (eval_stats stage_loss cer wer));
             WriteStats (ASR.wer_file asr) wer]
        ∧ cer_metric b' = Some cer ∧ wer_metric b' = Some wer.
Proof.
  intros Hcer Hwer. eexists. split.
  - cbv beta iota zeta delta [ASR.on_stage_end mbind M_bind bind getattr emit modify
                               get mret M_ret ret].
    rewrite Hcer; cbv beta iota. rewrite Hwer; cbv beta iota.
    cbn [wer_metric log_event]. rewrite Hwer. reflexivity.
  - cbn. rewrite <- !app_assoc. by split_and!.
Qed.

Lemma eval_stats_lookup stage_loss (cer wer : ErrorRateStats) :
  eval_stats stage_loss cer wer !! "CER" = Some (summarize cer "error_rate")
  ∧ eval_stats stage_loss cer wer !! "WER" = Some (summarize wer "error_rate")
  ∧ eval_stats stage_loss cer wer !! "loss" = Some stage_loss.
Proof.
  unfold eval_stats. split_and!.
  - rewrite lookup_insert_ne by done. apply lookup_insert_eq.
  - apply lookup_insert_eq.
  - rewrite !lookup_insert_ne by done. apply lookup_singleton_eq.
Qed.

Lemma asr_train_call_keeps_metrics c :
  ASR.train_stage_call c = true →
  preserves cer_metric (ASR.run_call asr tokenizer c)
  ∧ preserves wer_metric (ASR.run_call asr tokenizer c).
Proof.
  destruct c as [stage epoch|batch|batch stage|stage stage_loss epoch]; simpl; intros Hc.
  - destruct stage; [|done..]. split; apply preserves_mret.
  - split; (apply preserves_bind; [by apply asr_fit_batch_frame|]);
      intros _; apply preserves_mret.
  - done.
  - destruct stage; [|done..]. split; intros b; reflexivity.
Qed.

(** C5: at the start of a VALID or TEST stage both accumulators are new
    and empty; every batch of the stage appends its per-utterance
    statistics of predicted and target words to both; at the end of the
    stage each is summarised by its "error_rate" into one entry of the
    stage statistics.  The calls of a TRAIN stage leave both accumulators
    as they are, so the statistics of a stage are those of its own batches. *)
Theorem error_rate_stats_follow_the_stage
    (stage : Stage) (epoch : Z) (stage_loss : Float) (batches : list ASR.Batch)
    (b : Brain) :
  (∀ calls,
     Forall (λ c, ASR.train_stage_call c = true) calls →
     cer_metric (ASR.run_calls asr tokenizer calls b).2 = cer_metric b
     ∧ wer_metric (ASR.run_calls asr tokenizer calls b).2 = wer_metric b)
  ∧ (stage ≠ TRAIN →
     ∃ b0, ASR.on_stage_start stage epoch b = (Ok tt, b0)
           ∧ cer_metric b0 = Some {| split_tokens := true; scores := [] |}
           ∧ wer_metric b0 = Some {| split_tokens := false; scores := [] |})
  ∧ (stage ≠ TRAIN →
     ∀ b1,
       ASR.run_calls asr tokenizer
         (ASR.OnStageStart stage epoch
            :: ((λ batch, ASR.EvaluateBatch batch stage) <$> batches)) b
       = (Ok tt, b1) →
       ∃ (predicted : list (list (list string))) (cer wer : ErrorRateStats),
         length predicted = length batches
         ∧ Forall (λ p, ∃ logprobs lens,
                      ASR.predicted_words asr tokenizer logprobs lens = Ok p) predicted
         ∧ cer = {| split_tokens := true;
                    scores := concat (zip_with (ASR.batch_scores true) batches predicted) |}
         ∧ wer = {| split_tokens := false;
                    scores := concat (zip_with (ASR.batch_scores false) batches predicted) |}
         ∧ cer_metric b1 = Some cer
         ∧ wer_metric b1 = Some wer
         ∧ eval_stats stage_loss cer wer !! "CER" = Some (summarize cer "error_rate")
         ∧ eval_stats stage_loss cer wer !! "WER" = Some (summarize wer "error_rate")
         ∧ (stage = TEST →
            ∃ b2, ASR.on_stage_end asr TEST stage_loss epoch b1 = (Ok tt, b2)
                  ∧ filter is_log_stats_event (new_events b1 b2)
                    = [LogStats (EpochLoaded (ASR.epoch_counter_current asr)) None None
                                (Some (eval_stats stage_loss cer wer))])
         ∧ (stage = VALID →
            ∀ train metric,
              train_stats b1 = Some train →
              eval_stats stage_loss cer wer !! ASR.metric_to_optimize asr = Some metric →
              ∃ b2 old_lr,
                ASR.on_stage_end asr VALID stage_loss epoch b1 = (Ok tt, b2)
                ∧ filter is_log_stats_event (new_events b1 b2)
                  = [LogStats (EpochLr epoch old_lr) (Some train)
                              (Some (eval_stats stage_loss cer wer)) None])).
Proof.
  split_and!.
  - intros calls Hcalls. rewrite Forall_forall in Hcalls. unfold ASR.run_calls.
    split; (rewrite preserves_for_each; [done|]); intros c Hc;
      by apply asr_train_call_keeps_metrics, Hcalls.
  - intros Hstage. destruct stage; [done| |]; by eexists.
  - intros Hstage b1 Hrun. unfold ASR.run_calls in Hrun. simpl in Hrun.
    apply bind_ok_inv in Hrun as ([] & b0 & Hstart & Hrun).
    assert (Hfresh : cer_metric b0 = Some cer_computer
                     ∧ wer_metric b0 = Some error_rate_computer).
    { destruct stage; [done| |]; injection Hstart as <-; done. }
    destruct Hfresh as [Hcer0 Hwer0].
    destruct (asr_evaluate_batches_append asr tokenizer stage batches b0 b1 _ _
                Hstage Hcer0 Hwer0 Hrun) as (predicted & Hlen & Hdec & Hwer & Hcer).
    simpl in Hwer, Hcer.
    destruct (eval_stats_lookup stage_loss
                {| split_tokens := true;
                   scores := concat (zip_with (ASR.batch_scores true) batches predicted) |}
                {| split_tokens := false;
                   scores := concat (zip_with (ASR.batch_scores false) batches predicted) |})
      as (Hc & Hw & _).
    eexists predicted, _, _.
    split_and!; [done | done | reflexivity | reflexivity | done | done | done | done | |].
    + intros _.
      destruct (asr_on_stage_end_test stage_loss epoch b1 _ _ Hcer Hwer)
        as (b2 & Hend & Htrace & _).
      exists b2. split; [done|]. by rewrite (new_events_app _ _ _ Htrace).
    + intros _ train metric Htrain Hkey.
      destruct (asr_on_stage_end_valid asr stage_loss epoch b1 _ _ train metric
                  Hcer Hwer Htrain Hkey) as (b2 & Hend & Htrace & _).
      exists b2. eexists. split; [done|].
      rewrite (new_events_app _ _ _ Htrace). apply filter_log_stats_events_valid.
Qed.

End ASRStageStatistics.

Lemma error_rate_stats_follow_the_stage_witness :
  ∃ (predicted : list (list (list string))) (wer : @ErrorRateStats example_engine),
    length predicted = 1%nat
    ∧ wer = {| split_tokens := false;
               scores := concat (zip_with (ASR.batch_scores false) [example_asr_batch]
                                          predicted) |}
    ∧ wer_metric (@ASR.run_calls example_engine example_asr_hparams simple_tokenizer
                    [ASR.OnStageStart VALID 1; ASR.EvaluateBatch example_asr_batch VALID]
                    example_valid_brain).2 = Some wer
    ∧ @eval_stats example_engine 6 example_cer wer !! "WER" = Some (summarize wer "error_rate").
Proof.
  destruct (@error_rate_stats_follow_the_stage example_engine example_asr_hparams
              simple_tokenizer VALID 1 6 [example_asr_batch] example_valid_brain)
    as (_ & _ & Hstage).
  assert (Hvalid : VALID ≠ TRAIN) by discriminate.
  destruct (Hstage Hvalid
              (@ASR.run_calls example_engine example_asr_hparams simple_tokenizer
                 [ASR.OnStageStart VALID 1; ASR.EvaluateBatch example_asr_batch VALID]
                 example_valid_brain).2)
    as (predicted & cer & wer & Hlen & _ & _ & Hwer & _ & Hw & _ & _ & _).
  - vm_compute. reflexivity.
  - exists predicted, wer. split_and!; [exact Hlen | exact Hwer | exact Hw |].
    apply eval_stats_lookup.
Defined.

(** ** The order of the data path *)

Section DataPath.
Context `{Engine} (asr : ASR.HParams) (tokenizer : Tokenizer).

Lemma steps_of_app (l1 l2 : list event) : steps_of (l1 ++ l2) = steps_of l1 ++ steps_of l2.
Proof. apply omap_app. Qed.

Lemma steps_of_steps (l : list step) : steps_of (Step <$> l) = l.
Proof. induction l as [|s l IH]; simpl; [done|]. by f_equal. Qed.

Lemma prepare_features_trace stage wavs paths b :
  ∃ r b', ASR.prepare_features asr stage wavs paths b = (Ok r, b')
          ∧ trace b' = trace b ++ (Step <$> ASR.batch_steps asr stage)
          ∧ train_stats b' = train_stats b.
Proof.
  unfold ASR.prepare_features, ASR.batch_steps. destruct wavs as [wavs wav_lens].
  destruct stage, (ASR.env_corrupt asr), (ASR.augmentation asr),
    (ASR.dump_feats asr) as [[]|];
    (eexists _, _; split; [reflexivity|]; cbn; rewrite <- ?app_assoc; done).
Qed.

Lemma compute_forward_trace batch stage b :
  ∃ preds b', ASR.compute_forward asr batch stage b = (Ok preds, b')
              ∧ trace b' = trace b ++ (Step <$> ASR.batch_steps asr stage).
Proof.
  destruct (prepare_features_trace stage (ASR.sig batch) (ASR.wav_path batch) b)
    as ([feats lens] & b1 & Hprep & Htrace & _).
  unfold ASR.compute_forward. rewrite (run_bind_ok _ _ _ _ _ Hprep).
  eexists _, _. split; [reflexivity|]. exact Htrace.
Qed.

Lemma audio_pipeline_trace wav b r b' :
  ASR.audio_pipeline asr wav b = (Ok r, b') → trace b' = trace b ++ [Step ReadAudio].
Proof.
  unfold ASR.audio_pipeline.
  intros ([] & b1 & ->%emit_ok_inv & Hrun)%bind_ok_inv.
  apply bind_ok_inv in Hrun as (name & b2 & [_ ->]%lift_ok_inv & Hrun).
  apply bind_ok_inv in Hrun as (utt & b2 & [_ ->]%lift_ok_inv & [_ ->]%mret_ok_inv).
  reflexivity.
Qed.

Lemma text_pipeline_trace words b r b' :
  ASR.text_pipeline asr tokenizer words b = (Ok r, b') →
  trace b' = trace b ++ [Step EncodeAsIds].
Proof.
  unfold ASR.text_pipeline.
  intros ([] & b1 & ->%emit_ok_inv & Hrun)%bind_ok_inv.
  apply bind_ok_inv in Hrun as (ids & b2 & [_ ->]%lift_ok_inv & Hrun).
  destruct (negb (0 <? Z.of_nat (length ids))); [discriminate|].
  apply mret_ok_inv in Hrun as [_ ->]. reflexivity.
Qed.

Lemma load_batch_trace examples b batch b' :
  ASR.load_batch asr tokenizer examples b = (Ok batch, b') →
  trace b' = trace b
             ++ (Step <$> concat ((λ _, [ReadAudio; EncodeAsIds]) <$> examples)).
Proof.
  unfold ASR.load_batch.
  intros (items & b1 & Hloop & [_ ->]%mret_ok_inv)%bind_ok_inv.
  revert b items Hloop. induction examples as [|ex examples IH]; intros b items Hloop.
  - injection Hloop as _ <-. simpl. by rewrite app_nil_r.
  - simpl in Hloop.
    apply bind_ok_inv in Hloop as (item & b2 & Hitem & Hrest).
    apply bind_ok_inv in Hrest as (rest & b3 & Hrest & [_ ->]%mret_ok_inv).
    apply bind_ok_inv in Hitem as (a & b4 & Ha%audio_pipeline_trace & Hitem).
    apply bind_ok_inv in Hitem as (t & b5 & Ht%text_pipeline_trace & [_ ->]%mret_ok_inv).
    rewrite (IH _ _ Hrest), Ht, Ha. simpl. by rewrite <- !app_assoc.
Qed.

End DataPath.

Section DataPathOrder.
Context `{Engine} (asr : ASR.HParams) (tokenizer : Tokenizer).

Lemma batch_steps_in_code_order stage :
  in_order code_order
    (omap transformation_of ([ReadAudio; EncodeAsIds] ++ ASR.batch_steps asr stage)).
Proof.
  unfold ASR.batch_steps.
  destruct stage, (ASR.env_corrupt asr), (ASR.augmentation asr),
    (ASR.dump_feats asr) as [[]|]; reflexivity.
Qed.

Lemma batch_steps_augment_in_train stage :
  stage ≠ TRAIN →
  Augment ∉ omap transformation_of ([ReadAudio; EncodeAsIds] ++ ASR.batch_steps asr stage).
Proof.
  intros Hstage. unfold ASR.batch_steps.
  destruct stage; [done| |]; destruct (ASR.dump_feats asr) as [[]|]; simpl;
    intros Hin; repeat (apply elem_of_cons in Hin as [Hin|Hin]; [discriminate|]);
    by apply elem_of_nil in Hin.
Qed.

(** C2, as the code has it: the dataset pipeline loads the audio of an
    example and then tokenizes its words; augmentation (in the TRAIN stage
    only, and where configured) and then feature extraction are applied
    afterwards, to the padded batch, by [prepare_features]. *)
Theorem data_path_order (examples : list ASR.Example) (stage : Stage)
    (b b1 : Brain) (batch : ASR.Batch) :
  ASR.load_batch asr tokenizer examples b = (Ok batch, b1) →
  ∃ preds b2,
    ASR.process_examples asr tokenizer examples stage b = (Ok preds, b2)
    ∧ steps_of (new_events b b2)
      = concat ((λ _, [ReadAudio; EncodeAsIds]) <$> examples) ++ ASR.batch_steps asr stage
    ∧ (length examples = 1%nat →
       in_order code_order (transformations_of (new_events b b2))
       ∧ (stage ≠ TRAIN → Augment ∉ transformations_of (new_events b b2))).
Proof.
  intros Hload.
  destruct (compute_forward_trace asr batch stage b1) as (preds & b2 & Hfwd & Htrace).
  exists preds, b2.
  assert (Hsteps : steps_of (new_events b b2)
            = concat ((λ _, [ReadAudio; EncodeAsIds]) <$> examples)
              ++ ASR.batch_steps asr stage).
  { erewrite new_events_app.
    2:{ rewrite Htrace, (load_batch_trace _ _ _ _ _ _ Hload), <- app_assoc.
        reflexivity. }
    by rewrite steps_of_app, !steps_of_steps. }
  split_and!.
  - unfold ASR.process_examples. by rewrite (run_bind_ok _ _ _ _ _ Hload).
  - exact Hsteps.
  - intros Hone. unfold transformations_of. rewrite Hsteps.
    destruct examples as [|ex [|]]; try discriminate Hone. simpl concat.
    split; [apply batch_steps_in_code_order | apply batch_steps_augment_in_train].
Qed.

End DataPathOrder.

Lemma data_path_order_witness :
  ∃ preds b2,
    @ASR.process_examples example_engine example_asr_hparams simple_tokenizer
       (take 1 example_asr_examples) TRAIN example_brain = (Ok preds, b2)
    ∧ steps_of (new_events example_brain b2)
      = [ReadAudio; EncodeAsIds; Augmentation; ComputeFeatures; Normalize]
    ∧ in_order code_order (transformations_of (new_events example_brain b2)).
Proof.
  destruct (@data_path_order example_engine example_asr_hparams simple_tokenizer
              (take 1 example_asr_examples) TRAIN example_brain
              (@ASR.load_batch example_engine example_asr_hparams simple_tokenizer
                 (take 1 example_asr_examples) example_brain).2
              (@ASR.Build_Batch example_engine ["LJ001-0001"] (25, 1)
                 ["/data/wavs/LJ001-0001.wav"] ["LJ001-0001"] ["ab"] (2, 1)))
    as (preds & b2 & Hrun & Hsteps & Horder).
  - vm_compute. reflexivity.
  - exists preds, b2. split_and!; [exact Hrun | exact Hsteps | exact (proj1 (Horder eq_refl))].
Defined.

(** In the TRAIN stage [prepare_features] augments the waveforms before it
    computes the features. *)
Example prepare_features_augments_first :
  steps_of
    (trace (@ASR.prepare_features example_engine example_asr_hparams TRAIN (50, 2)
              ["/data/wavs/LJ001-0001.wav"; "/data/wavs/LJ001-0002.wav"]
              example_brain).2)
  = [Augmentation; ComputeFeatures; Normalize].
Proof. vm_compute. reflexivity. Qed.

(** The order the specification gives does not hold of the code: in this
    run tokenization comes before augmentation and feature extraction, and
    augmentation before feature extraction. *)
Lemma data_path_not_in_spec_order :
  ¬ in_order spec_order
      (transformations_of
         (new_events example_brain
            (@ASR.process_examples example_engine example_asr_hparams simple_tokenizer
               (take 1 example_asr_examples) TRAIN example_brain).2)).
Proof. vm_compute. discriminate. Qed.

Example data_path_example_steps :
  steps_of
    (trace (@ASR.process_examples example_engine example_asr_hparams simple_tokenizer
              example_asr_examples TRAIN example_brain).2)
  = [ReadAudio; EncodeAsIds; ReadAudio; EncodeAsIds;
     Augmentation; ComputeFeatures; Normalize].
Proof. vm_compute. reflexivity. Qed.

(** * Further properties of the code *)

(** ** SimpleTokenizer: lengths, concatenation, first error *)

Lemma comprehension_app {A B} (f : A → result B) (l1 l2 : list A) :
  comprehension f (l1 ++ l2)
  = result_bind (comprehension f l1) (λ ys1,
    result_bind (comprehension f l2) (λ ys2, Ok (ys1 ++ ys2))).
Proof.
  induction l1 as [|x l1 IH]; simpl.
  - by destruct (comprehension f l2).
  - destruct (f x) as [y|e]; simpl; [|done]. rewrite IH.
    destruct (comprehension f l1) as [ys1|e]; simpl; [|done].
    by destruct (comprehension f l2).
Qed.

Lemma comprehension_length {A B} (f : A → result B) (l : list A) (ys : list B) :
  comprehension f l = Ok ys → length ys = length l.
Proof. intros Hc%comprehension_ok. symmetry. by eapply Forall2_length. Qed.

Lemma comprehension_first_raise {A B} (f : A → result B) (pre post : list A) x e :
  Forall (λ y, ∃ z, f y = Ok z) pre → f x = Raise e →
  comprehension f (pre ++ x :: post) = Raise e.
Proof.
  intros Hpre Hx. induction Hpre as [|y pre [z Hz] _ IH]; simpl.
  - by rewrite Hx.
  - by rewrite Hz, IH.
Qed.

Lemma append_nil_l (s : string) : "" +:+ s = s.
Proof. reflexivity. Qed.

Lemma append_cons (c : ascii) (s1 s2 : string) :
  String c s1 +:+ s2 = String c (s1 +:+ s2).
Proof. reflexivity. Qed.

Lemma list_ascii_of_string_app (s1 s2 : string) :
  list_ascii_of_string (s1 +:+ s2) = list_ascii_of_string s1 ++ list_ascii_of_string s2.
Proof.
  induction s1 as [|c s1 IH]; [done|].
  rewrite append_cons. simpl. by f_equal.
Qed.

Lemma string_of_list_ascii_app (l1 l2 : list ascii) :
  string_of_list_ascii (l1 ++ l2) = string_of_list_ascii l1 +:+ string_of_list_ascii l2.
Proof.
  induction l1 as [|c l1 IH]; [done|].
  simpl. rewrite append_cons. by f_equal.
Qed.

Lemma length_list_ascii_of_string (s : string) :
  length (list_ascii_of_string s) = String.length s.
Proof. induction s as [|c s IH]; simpl; [done|]. by f_equal. Qed.

Section SimpleTokenizerMore.
Import SimpleTokenizer.

Lemma sym2id_getitem_cases c :
  (in_vocabulary c ∧ ∃ i, sym2id_getitem init c = Ok i)
  ∨ (¬ in_vocabulary c ∧ sym2id_getitem init c = Raise (KeyError (KChar c))).
Proof.
  unfold sym2id_getitem. destruct (sym2id init !! c) as [i|] eqn:Hc.
  - left. split; [|by eexists]. apply vocab_index_Some. rewrite <- sym2id_lookup. by eexists.
  - right. split; [|done]. rewrite vocab_index_Some, <- sym2id_lookup, Hc. by intros [? ?].
Qed.

Lemma id2sym_getitem_cases i :
  (in_id_range i ∧ ∃ c, id2sym_getitem init i = Ok c)
  ∨ (¬ in_id_range i ∧ id2sym_getitem init i = Raise (KeyError (KInt i))).
Proof.
  unfold id2sym_getitem. destruct (id2sym init !! i) as [c|] eqn:Hi.
  - left. split; [|by eexists]. by destruct (id2sym_sym2id i c Hi).
  - right. split; [|done]. intros [c Hc]%id2sym_in_range. congruence.
Qed.

(** Encoding gives one id per character and goes through concatenation,
    and so does decoding. *)
Theorem tokenizer_concatenation :
  (∀ s1 s2 : string,
      encode_as_ids init (s1 +:+ s2)
      = result_bind (encode_as_ids init s1) (λ ids1,
        result_bind (encode_as_ids init s2) (λ ids2, Ok (ids1 ++ ids2))))
  ∧ (∀ ids1 ids2 : list Z,
      decode_ids init (ids1 ++ ids2)
      = result_bind (decode_ids init ids1) (λ s1,
        result_bind (decode_ids init ids2) (λ s2, Ok (s1 +:+ s2))))
  ∧ (∀ (text : string) (ids : list Z),
      encode_as_ids init text = Ok ids → length ids = String.length text)
  ∧ (∀ (ids : list Z) (text : string),
      decode_ids init ids = Ok text → String.length text = length ids).
Proof.
  split_and!.
  - intros s1 s2. unfold encode_as_ids.
    by rewrite list_ascii_of_string_app, comprehension_app.
  - intros ids1 ids2. unfold decode_ids. rewrite comprehension_app.
    destruct (comprehension (id2sym_getitem init) ids1) as [cs1|e]; [|done].
    destruct (comprehension (id2sym_getitem init) ids2) as [cs2|e]; [|done].
    unfold result_bind. by rewrite string_of_list_ascii_app.
  - intros text ids Henc%comprehension_length.
    by rewrite Henc, length_list_ascii_of_string.
  - intros ids text. unfold decode_ids.
    destruct (comprehension (id2sym_getitem init) ids) as [cs|e] eqn:Hc; [|done].
    intros [= <-]. apply comprehension_length in Hc.
    by rewrite <- length_list_ascii_of_string, list_ascii_of_string_of_list_ascii.
Qed.

Lemma tokenizer_concatenation_witness :
  length [2; 3; 0] = String.length "ab-" ∧ String.length "-|a" = length [0; 1; 2].
Proof.
  destruct tokenizer_concatenation as (_ & _ & Henc & Hdec). split.
  - apply (Henc "ab-" [2; 3; 0]). vm_compute. reflexivity.
  - apply (Hdec [0; 1; 2] "-|a"). vm_compute. reflexivity.
Defined.

(** The [KeyError] names the first character, or the first id, that is not
    in the vocabulary. *)
Theorem tokenizer_first_key_error :
  (∀ (pre post : string) (c : ascii),
      Forall in_vocabulary (list_ascii_of_string pre) → ¬ in_vocabulary c →
      encode_as_ids init (pre +:+ String c post) = Raise (KeyError (KChar c)))
  ∧ (∀ (pre post : list Z) (i : Z),
      Forall in_id_range pre → ¬ in_id_range i →
      decode_ids init (pre ++ i :: post) = Raise (KeyError (KInt i))).
Proof.
  split.
  - intros pre post c Hpre Hc. unfold encode_as_ids.
    rewrite list_ascii_of_string_app. simpl. apply comprehension_first_raise.
    + eapply Forall_impl; [exact Hpre|]. intros x Hx.
      destruct (sym2id_getitem_cases x) as [[_ ?]|[? _]]; done.
    + destruct (sym2id_getitem_cases c) as [[? _]|[_ ?]]; done.
  - intros pre post i Hpre Hi. unfold decode_ids.
    rewrite (comprehension_first_raise _ _ _ _ (KeyError (KInt i))); [done| |].
    + eapply Forall_impl; [exact Hpre|]. intros x Hx.
      destruct (id2sym_getitem_cases x) as [[_ ?]|[? _]]; done.
    + destruct (id2sym_getitem_cases i) as [[? _]|[_ ?]]; done.
Qed.

Lemma tokenizer_first_key_error_witness :
  encode_as_ids init "ab cD" = Raise (KeyError (KChar " "))
  ∧ decode_ids init [3; 28; -1] = Raise (KeyError (KInt 28)).
Proof.
  destruct tokenizer_first_key_error as [Henc Hdec]. split.
  - apply (Henc "ab" "cD" " "%char).
    + apply (bool_decide_unpack _). vm_compute. reflexivity.
    + apply (bool_decide_unpack _). vm_compute. reflexivity.
  - apply (Hdec [3] [-1] 28).
    + apply (bool_decide_unpack _). vm_compute. reflexivity.
    + apply (bool_decide_unpack _). vm_compute. reflexivity.
Defined.

End SimpleTokenizerMore.

(** ** Padding: what is kept of the transcripts *)

Section PaddingMore.
Import SLU.

Lemma py_max_max_list (l : list nat) :
  l ≠ [] → py_max (Z.of_nat <$> l) = Ok (Z.of_nat (max_list l)).
Proof.
  intros Hl.
  destruct (py_max_spec (Z.of_nat <$> l)) as (m & Hm & Hall & Hin).
  { by destruct l. }
  rewrite Hm. f_equal.
  apply list_elem_of_fmap in Hin as (n & -> & Hn). f_equal.
  apply Nat.le_antisymm; [by apply max_list_elem_of_le|].
  rewrite Forall_fmap, Forall_forall in Hall.
  assert (Hmax : max_list l ∈ l) by (by apply max_list_elem_of).
  specialize (Hall _ Hmax). simpl in Hall. lia.
Qed.

Lemma max_list_constant_length {A} (l : list (list A)) (n : nat) :
  Forall (λ t, length t = n) l → l ≠ [] → max_list (length <$> l) = n.
Proof.
  intros Hall Hne. apply Nat.le_antisymm.
  - assert (Hin : max_list (length <$> l) ∈ length <$> l).
    { apply max_list_elem_of. by destruct l. }
    apply list_elem_of_fmap in Hin as (t & -> & Ht).
    rewrite Forall_forall in Hall. by rewrite (Hall t Ht).
  - destruct l as [|t l]; [done|]. apply Forall_cons in Hall as [<- _].
    apply max_list_elem_of_le. left.
Qed.

(** The rows and the relative lengths [pad_asr_tokens] computes. *)
Lemma pad_asr_tokens_eq (asr_tokens : list (list Z)) :
  asr_tokens ≠ [] →
  let max_length := (1 `max` max_list (length <$> asr_tokens))%nat in
  pad_asr_tokens asr_tokens
  = Ok ((λ t, t ++ replicate (max_length - length t) 0) <$> asr_tokens,
        replicate (length asr_tokens)
          (inject_Z (Z.of_nat max_length) / inject_Z (Z.of_nat max_length))%Q).
Proof.
  intros Hne max_length. unfold pad_asr_tokens.
  replace ((λ t, Z.of_nat (length t)) <$> asr_tokens)
    with (Z.of_nat <$> (length <$> asr_tokens)) by (by rewrite <- list_fmap_compose).
  rewrite py_max_max_list by (by destruct asr_tokens). simpl result_bind.
  set (m := max_list (length <$> asr_tokens)).
  assert (HM : (if Z.of_nat m =? 0 then 1 else Z.of_nat m) = Z.of_nat max_length).
  { unfold max_length. fold m. destruct (Z.eqb_spec (Z.of_nat m) 0); lia. }
  rewrite HM.
  assert (Hrows : (λ t, t ++ replicate (Z.to_nat (Z.of_nat max_length - Z.of_nat (length t))) 0)
                    <$> asr_tokens
                  = (λ t, t ++ replicate (max_length - length t) 0) <$> asr_tokens).
  { apply list_fmap_ext. intros _ t _. do 2 f_equal. lia. }
  rewrite Hrows.
  set (padded := (λ t, t ++ replicate (max_length - length t) 0) <$> asr_tokens).
  assert (Hlen : Forall (λ t, length t = max_length) padded).
  { unfold padded. apply Forall_fmap, Forall_forall. intros t Ht. simpl.
    rewrite length_app, length_replicate.
    assert (length t ≤ m)%nat.
    { apply max_list_elem_of_le, list_elem_of_fmap. eauto. }
    unfold max_length. fold m. lia. }
  rewrite (torch_tensor_rectangular padded max_length Hlen). simpl result_bind.
  rewrite (fmap_constant _ (inject_Z (Z.of_nat max_length))).
  2:{ eapply Forall_impl; [exact Hlen|]. intros t Ht. simpl. rewrite Ht. f_equal.
      unfold max_length. lia. }
  assert (Hpl : length padded = length asr_tokens) by (unfold padded; apply length_fmap).
  rewrite Hpl. destruct (length asr_tokens) as [|k] eqn:Hk.
  { by destruct asr_tokens. }
  rewrite tensor_max_constant. simpl result_bind. by rewrite fmap_replicate.
Qed.

(** The transcripts are padded to the length of the longest one, or to 1
    when all are empty; every relative length is 1, whatever the lengths of
    the transcripts were; padding a padded batch changes no row; an empty
    batch raises [ValueError]. *)
Theorem pad_asr_tokens_result (asr_tokens : list (list Z)) :
  (asr_tokens = [] →
   pad_asr_tokens asr_tokens = Raise (ValueError "max() arg is an empty sequence"))
  ∧ (asr_tokens ≠ [] →
     let max_length := (1 `max` max_list (length <$> asr_tokens))%nat in
     ∃ padded lens,
       pad_asr_tokens asr_tokens = Ok (padded, lens)
       ∧ padded = (λ t, t ++ replicate (max_length - length t) 0) <$> asr_tokens
       ∧ length lens = length asr_tokens
       ∧ Forall (λ x, x == 1)%Q lens
       ∧ ∃ lens', pad_asr_tokens padded = Ok (padded, lens')).
Proof.
  split; [by intros ->|].
  intros Hne max_length. rewrite (pad_asr_tokens_eq asr_tokens Hne). fold max_length.
  set (padded := (λ t, t ++ replicate (max_length - length t) 0) <$> asr_tokens).
  eexists padded, _. split_and!; [reflexivity | reflexivity | apply length_replicate | |].
  - apply Forall_replicate. apply Qmult_inv_r.
    change 0%Q with (inject_Z 0). rewrite inject_Z_injective. unfold max_length. lia.
  - assert (Hlen : Forall (λ t, length t = max_length) padded).
    { unfold padded. apply Forall_fmap, Forall_forall. intros t Ht. simpl.
      rewrite length_app, length_replicate.
      assert (length t ≤ max_list (length <$> asr_tokens))%nat.
      { apply max_list_elem_of_le, list_elem_of_fmap. eauto. }
      unfold max_length. lia. }
    assert (Hpne : padded ≠ []) by (unfold padded; by destruct asr_tokens).
    rewrite (pad_asr_tokens_eq padded Hpne).
    assert (Hmax : (1 `max` max_list (length <$> padded))%nat = max_length).
    { rewrite (max_list_constant_length padded max_length Hlen Hpne).
      unfold max_length. lia. }
    rewrite Hmax. eexists. f_equal. f_equal.
    rewrite <- (list_fmap_id padded) at 2. apply list_fmap_ext.
    intros i t Hit. rewrite Forall_forall in Hlen.
    rewrite (Hlen t) by (by eapply list_elem_of_lookup_2).
    by rewrite Nat.sub_diag, app_nil_r.
Qed.

Lemma pad_asr_tokens_result_witness :
  ∃ padded lens,
    pad_asr_tokens [[5; 7; 9]; []; [4]] = Ok (padded, lens)
    ∧ padded = [[5; 7; 9]; [0; 0; 0]; [4; 0; 0]]
    ∧ Forall (λ x, x == 1)%Q lens.
Proof.
  destruct (pad_asr_tokens_result [[5; 7; 9]; []; [4]]) as [_ Hpad].
  destruct Hpad as (padded & lens & Hrun & Hrows & _ & Hones & _); [discriminate|].
  exists padded, lens. split_and!; [exact Hrun | exact Hrows | exact Hones].
Defined.

End PaddingMore.

(** ** The split: what the two assertions guarantee *)

Section SplitMore.
Import LJSpeech.

Lemma slice_index_bounds (len i : Z) : 0 ≤ len → 0 ≤ slice_index len i ≤ len.
Proof. intros Hlen. unfold slice_index. destruct (Z.ltb_spec i 0); lia. Qed.

Lemma py_slice_clipped {A} (l : list A) (lo hi : Z) :
  py_slice l (Some lo) (Some hi)
  = take (Z.to_nat (slice_index (Z.of_nat (length l)) hi
                    - slice_index (Z.of_nat (length l)) lo))
         (drop (Z.to_nat (slice_index (Z.of_nat (length l)) lo)) l).
Proof. reflexivity. Qed.

Lemma split_by_counts_concat (wav_list : list string) (valid_n test_n : Z) s :
  split_by_counts wav_list valid_n test_n = Ok s →
  wav_list_train s ++ wav_list_valid s ++ wav_list_test s = wav_list
  ∧ (length (wav_list_train s) + length (wav_list_valid s) + length (wav_list_test s)
     = length wav_list)%nat.
Proof.
  unfold split_by_counts.
  set (n := Z.of_nat (length wav_list)).
  set (train_n := n - (valid_n + test_n)).
  destruct (negb (train_n + valid_n + test_n =? n)); [done|].
  set (train := py_slice wav_list None (Some train_n)).
  set (valid := py_slice wav_list (Some train_n) (Some (train_n + valid_n))).
  set (test := py_slice wav_list (Some (train_n + valid_n)) None).
  destruct (Z.eqb_spec (Z.of_nat (length train) + Z.of_nat (length valid)
                        + Z.of_nat (length test)) n) as [Hsum|]; [|done].
  intros [= <-]. simpl.
  assert (Hn : 0 ≤ n) by (unfold n; lia).
  pose proof (slice_index_bounds n train_n Hn) as Ha.
  pose proof (slice_index_bounds n (train_n + valid_n) Hn) as Hb.
  set (a := slice_index n train_n) in *. set (b := slice_index n (train_n + valid_n)) in *.
  assert (Htrain : train = take (Z.to_nat a) wav_list).
  { unfold train, py_slice. simpl. fold n. fold a. by rewrite Z.sub_0_r. }
  assert (Hvalid : valid = take (Z.to_nat (b - a)) (drop (Z.to_nat a) wav_list)).
  { reflexivity. }
  assert (Htest : test = drop (Z.to_nat b) wav_list).
  { unfold test, py_slice. simpl. fold n. fold b. apply take_ge.
    rewrite length_drop. unfold n. lia. }
  assert (Hab : a ≤ b).
  { rewrite Htrain, Hvalid, Htest in Hsum.
    rewrite !length_take, !length_drop in Hsum. unfold n in *. lia. }
  split; [|unfold n in Hsum; lia].
  rewrite Htrain, Hvalid, Htest.
  rewrite <- (take_drop (Z.to_nat a) wav_list) at 4. f_equal.
  rewrite <- (take_drop (Z.to_nat (b - a)) (drop (Z.to_nat a) wav_list)) at 2.
  f_equal. rewrite drop_drop. f_equal. lia.
Qed.

(** Whatever the counts, a split that passes the two assertions cuts the
    list into three consecutive pieces: nothing is lost, repeated or
    reordered. *)
Theorem split_by_counts_partition (wav_list : list string) (valid_n test_n : Z) s :
  split_by_counts wav_list valid_n test_n = Ok s →
  wav_list_train s ++ wav_list_valid s ++ wav_list_test s = wav_list
  ∧ (length (wav_list_train s) + length (wav_list_valid s) + length (wav_list_test s)
     = length wav_list)%nat.
Proof.
  apply split_by_counts_concat.
Qed.

Lemma split_by_counts_partition_witness :
  ∃ s, split_wav_list example_filtered (1 # 1) (1 # 10) = Ok s
       ∧ wav_list_train s ++ wav_list_valid s ++ wav_list_test s = example_filtered
       ∧ wav_list_valid s = [].
Proof.
  eexists. split; [vm_compute; reflexivity|]. split; [|reflexivity].
  refine (proj1 (split_by_counts_partition example_filtered 10 1 _ _)).
  vm_compute. reflexivity.
Defined.

(** Counts within the list that together exceed it are refused by the
    assertion of line 109, unless the valid split takes the whole list. *)
Theorem split_by_counts_over_full (wav_list : list string) (valid_n test_n : Z) :
  0 ≤ valid_n < Z.of_nat (length wav_list) →
  0 ≤ test_n ≤ Z.of_nat (length wav_list) →
  Z.of_nat (length wav_list) < valid_n + test_n →
  split_by_counts wav_list valid_n test_n = Raise AssertionError.
Proof.
  intros Hv Ht Hover. unfold split_by_counts.
  destruct (Z.eqb_spec (Z.of_nat (length wav_list) - (valid_n + test_n)
                        + valid_n + test_n) (Z.of_nat (length wav_list))) as [_|Hne];
    [|lia].
  simpl negb. cbv iota.
  assert (Ha : slice_index (Z.of_nat (length wav_list))
                 (Z.of_nat (length wav_list) - (valid_n + test_n))
               = 2 * Z.of_nat (length wav_list) - (valid_n + test_n)).
  { unfold slice_index.
    destruct (Z.ltb_spec (Z.of_nat (length wav_list) - (valid_n + test_n)) 0); lia. }
  assert (Hb : slice_index (Z.of_nat (length wav_list))
                 (Z.of_nat (length wav_list) - (valid_n + test_n) + valid_n)
               = Z.of_nat (length wav_list) - test_n).
  { unfold slice_index.
    destruct (Z.ltb_spec (Z.of_nat (length wav_list) - (valid_n + test_n) + valid_n) 0);
      lia. }
  rewrite py_slice_clipped, Ha, Hb.
  unfold py_slice at 1 2. cbn [from_option]. rewrite Ha, Hb.
  rewrite !length_take, !length_drop.
  match goal with
  | |- context [negb (?x =? ?y)] => destruct (Z.eqb_spec x y) as [Heq|_]; [|done]
  end.
  lia.
Qed.

Lemma split_by_counts_over_full_witness :
  split_by_counts example_filtered 6 6 = Raise AssertionError.
Proof.
  apply split_by_counts_over_full.
  - vm_compute. split; [discriminate | reflexivity].
  - vm_compute. split; discriminate.
  - vm_compute. reflexivity.
Defined.

(** ** The exclusion of utterance ids and [get_uttid] *)

Lemma get_uttid_uttid_of wav_p : get_uttid wav_p = Ok (uttid_of wav_p).
Proof.
  unfold get_uttid, uttid_of, last_item.
  destruct (last (split_on LJSpeech.sep wav_p)) as [name|] eqn:Hl; [done|].
  apply last_None in Hl. by apply split_on_nonempty in Hl.
Qed.

Lemma exclude_uttids_eq_filter (wav_list uttids_to_excl : list string) :
  exclude_uttids wav_list uttids_to_excl
  = Ok (filter (λ wav_p, uttid_of wav_p ∉ uttids_to_excl) wav_list).
Proof.
  induction wav_list as [|w l IH]; [done|].
  simpl. rewrite get_uttid_uttid_of, IH. simpl. f_equal.
  unfold str_in. rewrite filter_cons.
  destruct (decide (uttid_of w ∈ uttids_to_excl)) as [Hin|Hout].
  - rewrite bool_decide_eq_true_2 by done. by rewrite decide_False by (by intros ?).
  - rewrite bool_decide_eq_false_2 by done. by rewrite decide_True.
Qed.

(** Line 98 keeps, in their order, exactly the files whose utterance id is
    not listed, and it never raises. *)
Theorem exclude_uttids_filter (wav_list uttids_to_excl : list string) :
  exclude_uttids wav_list uttids_to_excl
  = Ok (filter (λ wav_p, uttid_of wav_p ∉ uttids_to_excl) wav_list).
Proof.
  apply exclude_uttids_eq_filter.
Qed.

End SplitMore.

Section PathFacts.
Import LJSpeech.

Lemma split_on_no_sep (c : ascii) (s : string) :
  c ∉ chars s → split_on c s = [s].
Proof.
  unfold chars. induction s as [|x s IH]; [done|]. simpl. intros Hc.
  apply not_elem_of_cons in Hc as [Hx Hs].
  destruct (Ascii.eqb_spec x c) as [->|_]; [done|]. by rewrite IH.
Qed.

Lemma split_on_app (c : ascii) (pre rest : string) :
  split_on c (pre +:+ String c rest) = split_on c pre ++ split_on c rest.
Proof.
  induction pre as [|x pre IH].
  - rewrite append_nil_l. simpl. by rewrite Ascii.eqb_refl.
  - rewrite append_cons. simpl. rewrite IH.
    destruct (Ascii.eqb x c); [done|].
    destruct (split_on c pre) as [|w ws] eqn:Hs; [|done].
    by apply split_on_nonempty in Hs.
Qed.

Lemma last_split_on_file (dir file : string) :
  sep ∉ chars file → last (split_on sep (dir +:+ String sep file)) = Some file.
Proof.
  intros Hfile. rewrite split_on_app, (split_on_no_sep _ file Hfile).
  by rewrite last_snoc.
Qed.

Lemma rfind_None (c : ascii) (l : list ascii) : c ∉ l → rfind c l = None.
Proof.
  induction l as [|x l IH]; [done|]. intros Hc.
  apply not_elem_of_cons in Hc as [Hx Hl]. simpl. rewrite (IH Hl).
  destruct (Ascii.eqb_spec x c) as [->|_]; done.
Qed.

Lemma rfind_last (c : ascii) (a b : list ascii) :
  c ∉ b → rfind c (a ++ c :: b) = Some (length a).
Proof.
  intros Hb. induction a as [|x a IH]; simpl.
  - by rewrite (rfind_None c b Hb), Ascii.eqb_refl.
  - by rewrite IH.
Qed.

Lemma forallb_dots_false (l : list ascii) :
  (∃ x, x ∈ l ∧ x ≠ "."%char) → forallb (Ascii.eqb "."%char) l = false.
Proof.
  intros (x & Hx & Hdot). apply not_true_is_false. intros Hall.
  rewrite forallb_forall in Hall. specialize (Hall x (proj1 (list_elem_of_In _ _) Hx)).
  apply Ascii.eqb_eq in Hall. congruence.
Qed.

Lemma splitext_extension (name ext : string) :
  "."%char ∉ chars ext → (∃ x, x ∈ chars name ∧ x ≠ "."%char) →
  splitext (name +:+ String "." ext) = (name, String "." ext).
Proof.
  unfold chars. intros Hext Hname. unfold splitext.
  rewrite list_ascii_of_string_app. simpl list_ascii_of_string.
  rewrite (rfind_last _ _ _ Hext).
  rewrite take_app_length, drop_app_length, (forallb_dots_false _ Hname).
  simpl string_of_list_ascii. by rewrite !string_of_list_ascii_of_string.
Qed.

Lemma splitext_no_extension (name : string) :
  "."%char ∉ chars name → splitext name = (name, "").
Proof. unfold chars. intros Hname. unfold splitext. by rewrite (rfind_None _ _ Hname). Qed.

(** [get_uttid] gives the file name without its directories and without
    its last extension; a name without a dot is returned as it is. *)
Theorem get_uttid_of_file (dir name ext : string) :
  sep ∉ chars name →
  (sep ∉ chars ext → "."%char ∉ chars ext → (∃ x, x ∈ chars name ∧ x ≠ "."%char) →
   get_uttid (dir +:+ String sep (name +:+ String "." ext)) = Ok name)
  ∧ ("."%char ∉ chars name → get_uttid (dir +:+ String sep name) = Ok name).
Proof.
  intros Hname. split.
  - intros Hext Hdot Hreal. unfold get_uttid, last_item.
    rewrite last_split_on_file.
    + simpl. by rewrite splitext_extension.
    + unfold chars in *. rewrite list_ascii_of_string_app. simpl.
      intros [?|[?|?]%elem_of_cons]%elem_of_app; done.
  - intros Hdot. unfold get_uttid, last_item.
    rewrite (last_split_on_file _ _ Hname). simpl. by rewrite splitext_no_extension.
Qed.

Lemma get_uttid_of_file_witness :
  get_uttid "/data/LJSpeech-1.1/wavs/LJ001-0001.wav" = Ok "LJ001-0001"
  ∧ get_uttid "/data/LJSpeech-1.1/wavs_16khz" = Ok "wavs_16khz".
Proof.
  split.
  - apply (proj1 (get_uttid_of_file "/data/LJSpeech-1.1/wavs" "LJ001-0001" "wav"
                    ltac:(apply (bool_decide_unpack _); vm_compute; reflexivity))).
    + apply (bool_decide_unpack _). vm_compute. reflexivity.
    + apply (bool_decide_unpack _). vm_compute. reflexivity.
    + exists "L"%char. split; [|discriminate].
      apply (bool_decide_unpack _). vm_compute. reflexivity.
  - apply (proj2 (get_uttid_of_file "/data/LJSpeech-1.1" "wavs_16khz" ""
                    ltac:(apply (bool_decide_unpack _); vm_compute; reflexivity))).
    apply (bool_decide_unpack _). vm_compute. reflexivity.
Defined.

End PathFacts.

(** ** The SLU recipe: printing, counting, evaluation *)

Section SLUMore.
Context `{Engine} (slu : SLU.HParams) (tokenizer : Tokenizer).

Lemma print_results_from i (predicted target : list (list string)) b :
  ∃ b',
    SLU.print_results i predicted target b
    = (if decide (length target ≤ length (drop i predicted))%nat
       then Ok tt else Raise IndexError, b')
    ∧ trace b' = trace b ++ concat (zip_with printed_lines (drop i predicted) target)
    ∧ batch_count b' = batch_count b ∧ train_stats b' = train_stats b
    ∧ cer_metric b' = cer_metric b ∧ wer_metric b' = wer_metric b.
Proof.
  revert i b. induction target as [|t target IH]; intros i b.
  - exists b. split; [|split; [|done]].
    + cbn [SLU.print_results length]. case_decide; [done|lia].
    + by rewrite zip_with_nil_r, app_nil_r.
  - cbn [SLU.print_results]. destruct (predicted !! i) as [p|] eqn:Hp.
    + rewrite (drop_S _ _ _ Hp).
      destruct (IH (S i) (log_event (Print "")
                  (log_event (Print (replace_char "|" "," (join " " t)))
                     (log_event (Print (replace_char "|" "," (join " " p))) b))))
        as (b' & Hrun & Htrace & Hbc & Hts & Hcer & Hwer).
      exists b'. split; [|split; [|done]].
      * do 3 (rewrite run_bind, run_emit; cbv beta iota). rewrite Hrun.
        cbn [length]. repeat case_decide; try done; lia.
      * rewrite Htrace. cbn [zip_with concat printed_lines trace log_event].
        by rewrite <- !app_assoc.
    + apply lookup_ge_None in Hp. rewrite drop_ge by done.
      exists b. split; [|split; [|done]].
      * cbn [length]. case_decide; [lia|done].
      * cbn [zip_with concat]. by rewrite app_nil_r.
Qed.

(** The printing loop of [compute_objectives] prints three lines for every
    target that has a prediction; with fewer predictions than targets it
    raises [IndexError] after the lines of the utterances it could pair. *)
Theorem print_results_lines (predicted target : list (list string)) (b : Brain) :
  ∃ b',
    SLU.print_results 0 predicted target b
    = (if decide (length target ≤ length predicted)%nat then Ok tt else Raise IndexError, b')
    ∧ new_events b b' = concat (zip_with printed_lines predicted target)
    ∧ length (new_events b b') = (3 * (length predicted `min` length target))%nat.
Proof.
  destruct (print_results_from 0 predicted target b) as (b' & Hrun & Htrace & _).
  rewrite drop_0 in Hrun, Htrace. exists b'.
  rewrite (new_events_app _ _ _ Htrace). split_and!; [done | done |].
  clear. revert target. induction predicted as [|p predicted IH]; intros [|t target];
    simpl; try done.
  rewrite IH. lia.
Qed.

Lemma slu_compute_forward_shape batch stage b preds b1 :
  SLU.compute_forward slu batch stage b = (Ok preds, b1) →
  b1 = b
  ∧ match preds with
    | SLU.Pred2 _ _ =>
        stage = TRAIN
        ∧ ∃ n, batch_count b = Some n ∧ n `mod` SLU.show_results_every ≠ 0
    | SLU.Pred3 _ _ _ =>
        stage ≠ TRAIN
        ∨ ∃ n, batch_count b = Some n ∧ n `mod` SLU.show_results_every = 0
    end.
Proof.
  unfold SLU.compute_forward.
  destruct (SLU.sig batch) as [wavs wav_lens].
  destruct (SLU.tokens_bos batch) as [tokens_bos tokens_bos_lens].
  match goal with
  | |- context [match ?x with _ => _ end] =>
      match x with
      | match stage with _ => _ end => destruct x as [[[w wl] tb] tbl]
      end
  end.
  destruct (SLU.transcribe slu (detach w) wl) as [words asr_tokens].
  intros ([padded lens] & b2 & [_ ->]%lift_ok_inv & Hrun)%bind_ok_inv.
  destruct (SLU.dec slu _ _ lens) as [h d].
  apply bind_ok_inv in Hrun as (quiet & b3 & Hquiet & Hrun).
  assert (Hq : b3 = b
               ∧ if quiet
                 then stage = TRAIN
                      ∧ ∃ n, batch_count b = Some n ∧ n `mod` SLU.show_results_every ≠ 0
                 else stage ≠ TRAIN
                      ∨ ∃ n, batch_count b = Some n ∧ n `mod` SLU.show_results_every = 0).
  { unfold SLU.quiet_train_batch in Hquiet. destruct stage.
    - apply bind_ok_inv in Hquiet as (n & b4 & [Hn ->]%getattr_ok_inv & [-> ->]%mret_ok_inv).
      split; [done|].
      destruct (Z.eqb_spec (n `mod` SLU.show_results_every) 0); simpl; eauto.
    - apply mret_ok_inv in Hquiet as [-> ->]. split; [done|]. by left.
    - apply mret_ok_inv in Hquiet as [-> ->]. split; [done|]. by left. }
  destruct Hq as [-> Hq]. destruct quiet.
  - apply mret_ok_inv in Hrun as [-> ->]. done.
  - destruct (SLU.beam_searcher slu _ lens) as [p_tokens scores].
    apply mret_ok_inv in Hrun as [-> ->]. done.
Qed.

(** [compute_forward] runs the beam search, and returns its tokens as a third
    component, in every VALID and TEST batch and in the TRAIN batches whose
    count is a multiple of [show_results_every]; in all other TRAIN batches
    it returns a pair.  It changes no attribute and logs no call. *)
Theorem slu_compute_forward_returns batch stage b preds b1 :
  SLU.compute_forward slu batch stage b = (Ok preds, b1) →
  b1 = b
  ∧ ((∃ p l, preds = SLU.Pred2 p l)
     ↔ stage = TRAIN ∧ ∃ n, batch_count b = Some n ∧ n `mod` 100 ≠ 0).
Proof.
  intros (-> & Hshape)%slu_compute_forward_shape. split; [done|].
  change SLU.show_results_every with 100 in Hshape. destruct preds as [p l|p l t].
  - split; [by intros _ | eauto].
  - split; [by intros (? & ? & ?)|].
    intros (-> & n & Hn & Hmod). destruct Hshape as [?|(n' & Hn' & Hmod')]; [done|].
    congruence.
Qed.

Lemma slu_fit_batch_counts batch b loss b' :
  SLU.fit_batch slu tokenizer batch b = (Ok loss, b') →
  ∃ n, batch_count b = Some n ∧ batch_count b' = Some (n + 1).
Proof.
  unfold SLU.fit_batch.
  intros (preds & b1 & Hfwd & Hrun)%bind_ok_inv.
  apply bind_ok_inv in Hrun as (l & b2 & Hobj & Hrun).
  apply bind_ok_inv in Hrun as ([] & b3 & ->%emit_ok_inv & Hrun).
  apply bind_ok_inv in Hrun as ([] & b4 & Hstep & Hrun).
  apply bind_ok_inv in Hrun as ([] & b5 & ->%emit_ok_inv & Hrun).
  apply bind_ok_inv in Hrun as (n & b6 & [Hn ->]%getattr_ok_inv & Hrun).
  apply bind_ok_inv in Hrun as ([] & b7 & ->%modify_ok_inv & [_ ->]%mret_ok_inv).
  exists n. split; [|done].
  assert (Hb4 : batch_count b4 = batch_count b2).
  { destruct (check_gradients l); [by apply emit_ok_inv in Hstep as ->|].
    by apply mret_ok_inv in Hstep as [_ ->]. }
  pose proof (preserves_compute_forward slu batch_count batch TRAIN b) as H1.
  pose proof (preserves_compute_objectives_train slu tokenizer batch_count preds batch
                (λ _ _, eq_refl) b1) as H2.
  rewrite Hfwd in H1. rewrite Hobj in H2. simpl in H1, H2, Hn. congruence.
Qed.

(** After [on_stage_start], [batch_count] is the number of batches that
    [fit_batch] has processed. *)
Theorem slu_batch_count_counts stage epoch (batches : list SLU.Batch) b b' :
  SLU.run_calls slu tokenizer (SLU.OnStageStart stage epoch :: (SLU.FitBatch <$> batches)) b
  = (Ok tt, b') →
  batch_count b' = Some (Z.of_nat (length batches)).
Proof.
  unfold SLU.run_calls. cbn [for_each].
  intros ([] & b0 & Hstart & Hrun)%bind_ok_inv.
  assert (H0 : batch_count b0 = Some 0).
  { cbn [SLU.run_call] in Hstart. unfold SLU.on_stage_start in Hstart.
    apply bind_ok_inv in Hstart as ([] & b1 & ->%modify_ok_inv & Hstart).
    destruct stage.
    - by apply mret_ok_inv in Hstart as [_ ->].
    - apply bind_ok_inv in Hstart as ([] & b2 & ->%modify_ok_inv & ->%modify_ok_inv). done.
    - apply bind_ok_inv in Hstart as ([] & b2 & ->%modify_ok_inv & ->%modify_ok_inv). done. }
  assert (Hgen : ∀ n b0, batch_count b0 = Some n →
             for_each (SLU.FitBatch <$> batches) (SLU.run_call slu tokenizer) b0 = (Ok tt, b') →
             batch_count b' = Some (n + Z.of_nat (length batches))).
  { clear. induction batches as [|batch batches IH]; intros n b0 Hn Hrun.
    - injection Hrun as <-. rewrite Hn. f_equal. simpl. lia.
    - cbn [fmap list_fmap for_each] in Hrun.
      apply bind_ok_inv in Hrun as ([] & b1 & Hcall & Hrest).
      cbn [SLU.run_call] in Hcall.
      apply bind_ok_inv in Hcall as (loss & b2 & Hfit & [_ ->]%mret_ok_inv).
      apply slu_fit_batch_counts in Hfit as (m & Hm & Hm').
      assert (m = n) as -> by congruence.
      rewrite (IH _ _ Hm' Hrest). f_equal. simpl length. lia. }
  by apply (Hgen 0 b0).
Qed.

End SLUMore.

Lemma slu_compute_forward_returns_witness :
  (∃ p l, @SLU.Pred2 example_engine 6 [3 # 3; 3 # 3] = SLU.Pred2 p l)
  ↔ TRAIN = TRAIN ∧ ∃ n, batch_count (set_batch_count 7 example_brain) = Some n
                         ∧ n `mod` 100 ≠ 0.
Proof.
  apply (@slu_compute_forward_returns example_engine example_slu_hparams example_slu_batch
           TRAIN (set_batch_count 7 example_brain) _ (set_batch_count 7 example_brain)).
  vm_compute. reflexivity.
Defined.

Lemma slu_batch_count_counts_witness :
  batch_count
    (@SLU.run_calls example_engine example_slu_hparams simple_tokenizer
       [SLU.OnStageStart TRAIN 1; SLU.FitBatch example_slu_batch;
        SLU.FitBatch example_slu_batch] example_brain).2
  = Some 2.
Proof.
  apply (@slu_batch_count_counts example_engine example_slu_hparams simple_tokenizer
           TRAIN 1 [example_slu_batch; example_slu_batch] example_brain).
  vm_compute. reflexivity.
Defined.

(** ** Evaluation takes no gradient step *)

Section EvaluationFrames.
Context `{Engine} (slu : SLU.HParams) (asr : ASR.HParams) (tokenizer : Tokenizer).
Context {X : Type} (f : Brain → X).
Hypothesis f_batch_event : ∀ e b, is_batch_event e → f (log_event e b) = f b.
Hypothesis f_feat_lens : ∀ v b, f (set_feat_lens v b) = f b.
Hypothesis f_cer_metric : ∀ v b, f (set_cer_metric v b) = f b.
Hypothesis f_wer_metric : ∀ v b, f (set_wer_metric v b) = f b.

Lemma print_results_keeps i predicted target :
  preserves f (SLU.print_results i predicted target).
Proof.
  revert i. induction target as [|t target IH]; intros i; simpl.
  - apply preserves_mret.
  - destruct (predicted !! i); [|apply preserves_raise].
    repeat (apply preserves_bind;
            [apply preserves_emit; intros ?; by apply f_batch_event|]; intros _).
    apply IH.
Qed.

Lemma slu_evaluate_batch_keeps batch stage :
  preserves f (SLU.evaluate_batch slu tokenizer batch stage).
Proof.
  unfold SLU.evaluate_batch.
  apply preserves_bind; [apply preserves_compute_forward|]. intros preds.
  apply preserves_bind; [|intros loss; apply preserves_mret].
  unfold SLU.compute_objectives, SLU.quiet_train_batch.
  repeat first [ apply print_results_keeps
               | apply preserves_metric_append; assumption
               | frame_step ].
Qed.

Lemma asr_evaluate_batch_keeps batch stage :
  preserves f (ASR.evaluate_batch asr tokenizer batch stage).
Proof.
  unfold ASR.evaluate_batch.
  apply preserves_bind.
  { unfold ASR.compute_forward, ASR.prepare_features.
    repeat first [ apply preserves_emit; intros ?; by apply f_batch_event | frame_step ]. }
  intros preds. apply preserves_bind; [|intros loss; apply preserves_mret].
  unfold ASR.compute_objectives, ASR.predictions_getitem.
  repeat first [ apply preserves_emit; intros ?; by apply f_batch_event
               | apply preserves_metric_append; assumption
               | frame_step ].
Qed.

End EvaluationFrames.

Lemma filter_batch_event `{Engine} (P : event → Prop) `{∀ e, Decision (P e)} :
  (∀ e, is_batch_event e → ¬ P e) →
  ∀ e b, is_batch_event e →
         filter P (trace (log_event e b)) = filter P (trace b).
Proof. intros HP e b He. apply filter_log_event. by apply HP. Qed.

(** [evaluate_batch], of both recipes and in every stage, takes no gradient
    step, does not touch the learning rate, the scheduler, the stored train
    statistics or the batch counter, and neither logs statistics nor saves
    a checkpoint, whether it returns or raises. *)
Theorem evaluate_batch_only_evaluates `{Engine} (slu : SLU.HParams) (asr : ASR.HParams)
    (tokenizer : Tokenizer) (stage : Stage) (b : Brain) :
  (∀ batch,
     let b' := (SLU.evaluate_batch slu tokenizer batch stage b).2 in
     filter is_gradient_event (trace b') = filter is_gradient_event (trace b)
     ∧ filter is_lr_event (trace b') = filter is_lr_event (trace b)
     ∧ filter is_checkpoint_event (trace b') = filter is_checkpoint_event (trace b)
     ∧ filter is_log_stats_event (trace b') = filter is_log_stats_event (trace b)
     ∧ optimizer_lr b' = optimizer_lr b ∧ scheduler b' = scheduler b
     ∧ train_stats b' = train_stats b ∧ batch_count b' = batch_count b)
  ∧ (∀ batch,
       let b' := (ASR.evaluate_batch asr tokenizer batch stage b).2 in
       filter is_gradient_event (trace b') = filter is_gradient_event (trace b)
       ∧ filter is_lr_event (trace b') = filter is_lr_event (trace b)
       ∧ filter is_checkpoint_event (trace b') = filter is_checkpoint_event (trace b)
       ∧ filter is_log_stats_event (trace b') = filter is_log_stats_event (trace b)
       ∧ optimizer_lr b' = optimizer_lr b ∧ scheduler b' = scheduler b
       ∧ train_stats b' = train_stats b ∧ batch_count b' = batch_count b).
Proof.
  split; intros batch b'; subst b'; split_and!.
  all: first
    [ apply (slu_evaluate_batch_keeps slu tokenizer (λ b, filter is_gradient_event (trace b)))
    | apply (slu_evaluate_batch_keeps slu tokenizer (λ b, filter is_lr_event (trace b)))
    | apply (slu_evaluate_batch_keeps slu tokenizer (λ b, filter is_checkpoint_event (trace b)))
    | apply (slu_evaluate_batch_keeps slu tokenizer (λ b, filter is_log_stats_event (trace b)))
    | apply (slu_evaluate_batch_keeps slu tokenizer optimizer_lr)
    | apply (slu_evaluate_batch_keeps slu tokenizer scheduler)
    | apply (slu_evaluate_batch_keeps slu tokenizer train_stats)
    | apply (slu_evaluate_batch_keeps slu tokenizer batch_count)
    | apply (asr_evaluate_batch_keeps asr tokenizer (λ b, filter is_gradient_event (trace b)))
    | apply (asr_evaluate_batch_keeps asr tokenizer (λ b, filter is_lr_event (trace b)))
    | apply (asr_evaluate_batch_keeps asr tokenizer (λ b, filter is_checkpoint_event (trace b)))
    | apply (asr_evaluate_batch_keeps asr tokenizer (λ b, filter is_log_stats_event (trace b)))
    | apply (asr_evaluate_batch_keeps asr tokenizer optimizer_lr)
    | apply (asr_evaluate_batch_keeps asr tokenizer scheduler)
    | apply (asr_evaluate_batch_keeps asr tokenizer train_stats)
    | apply (asr_evaluate_batch_keeps asr tokenizer batch_count) ].
  all: try (intros; reflexivity).
  all: apply filter_batch_event; intros [] He; simpl in *; tauto.
Qed.

(** ** The end of a VALID stage when something is missing *)

Section ValidEndEdges.
Context `{Engine} (slu : SLU.HParams) (asr : ASR.HParams).

Lemma eval_stats_keys stage_loss (cer wer : ErrorRateStats) (k : string) :
  is_Some (eval_stats stage_loss cer wer !! k) ↔ k ∈ ["loss"; "CER"; "WER"].
Proof.
  unfold eval_stats. rewrite !lookup_insert_is_Some, lookup_singleton_is_Some.
  rewrite !elem_of_cons, elem_of_nil. split.
  - intros [->|[_ [->|[_ ->]]]]; auto.
  - intros [->|[->|[->|[]]]]; [right; split; [done|right; split; [done|done]]
                              |right; split; [done|left; done]|left; done].
Qed.

Lemma asr_on_stage_end_valid_unset stage_loss epoch b :
  cer_metric b = None ∨ wer_metric b = None →
  ∃ e, ASR.on_stage_end asr VALID stage_loss epoch b = (Raise e, b).
Proof.
  cbv beta iota zeta delta [ASR.on_stage_end mbind M_bind bind getattr emit modify
                             get mret M_ret ret stats_getitem raise].
  destruct (cer_metric b); cbv beta iota; [|by eexists].
  destruct (wer_metric b); cbv beta iota; [|by eexists].
  by intros [?|?].
Qed.

Lemma asr_on_stage_end_valid_no_train stage_loss epoch b cer wer metric :
  cer_metric b = Some cer → wer_metric b = Some wer → train_stats b = None →
  eval_stats stage_loss cer wer !! ASR.metric_to_optimize asr = Some metric →
  let new_lr := (lr_annealing (scheduler b) metric).1.2 in
  ∃ b', ASR.on_stage_end asr VALID stage_loss epoch b
        = (Raise (AttributeError "train_stats"), b')
        ∧ trace b' = trace b ++ [LrAnnealing metric; UpdateLearningRate new_lr]
        ∧ optimizer_lr b' = new_lr
        ∧ scheduler b' = (lr_annealing (scheduler b) metric).2.
Proof.
  intros Hcer Hwer Htrain Hkey new_lr. subst new_lr.
  destruct (lr_annealing (scheduler b) metric) as [[old_lr new_lr] sch'] eqn:Hlr.
  unfold eval_stats in Hkey.
  eexists. split.
  - cbv beta iota zeta delta [ASR.on_stage_end mbind M_bind bind getattr emit modify
                               get mret M_ret ret stats_getitem raise
                               call_lr_annealing update_learning_rate].
    rewrite Hcer; cbv beta iota. rewrite Hwer; cbv beta iota.
    rewrite Hkey; cbv beta iota.
    cbn [scheduler log_event]. rewrite Hlr.
    cbn [train_stats log_event set_optimizer_lr set_scheduler].
    rewrite Htrain; cbv beta iota. reflexivity.
  - cbn. rewrite <- !app_assoc. by split_and!.
Qed.

Lemma slu_on_stage_end_valid_no_train stage_loss epoch b cer wer :
  cer_metric b = Some cer → wer_metric b = Some wer → train_stats b = None →
  let metric := summarize wer "error_rate" in
  let new_lr := (lr_annealing (scheduler b) metric).1.2 in
  ∃ b', SLU.on_stage_end slu VALID stage_loss epoch b
        = (Raise (AttributeError "train_stats"), b')
        ∧ trace b' = trace b ++ [LrAnnealing metric; UpdateLearningRate new_lr]
        ∧ optimizer_lr b' = new_lr
        ∧ scheduler b' = (lr_annealing (scheduler b) metric).2.
Proof.
  intros Hcer Hwer Htrain metric new_lr. subst metric new_lr.
  destruct (lr_annealing (scheduler b) (summarize wer "error_rate"))
    as [[old_lr new_lr] sch'] eqn:Hlr.
  eexists. split.
  - cbv beta iota zeta delta [SLU.on_stage_end mbind M_bind bind getattr emit modify
                               get mret M_ret ret stats_getitem raise
                               call_lr_annealing update_learning_rate].
    rewrite Hcer; cbv beta iota. rewrite Hwer; cbv beta iota.
    rewrite lookup_insert_eq; cbv beta iota.
    cbn [scheduler log_event]. rewrite Hlr.
    cbn [train_stats log_event set_optimizer_lr set_scheduler].
    rewrite Htrain; cbv beta iota. reflexivity.
  - cbn. rewrite <- !app_assoc. by split_and!.
Qed.

(** [ASR.on_stage_end] of a VALID stage returns exactly when the two
    error-rate accumulators and the train statistics have been assigned and
    [metric_to_optimize] is one of "loss", "CER", "WER"; otherwise it
    raises. *)
Theorem asr_valid_end_returns_iff (stage_loss : Float) (epoch : Z) (b : Brain) :
  (∃ b', ASR.on_stage_end asr VALID stage_loss epoch b = (Ok tt, b'))
  ↔ is_Some (cer_metric b) ∧ is_Some (wer_metric b) ∧ is_Some (train_stats b)
    ∧ ASR.metric_to_optimize asr ∈ ["loss"; "CER"; "WER"].
Proof.
  split.
  - intros [b' Hrun].
    destruct (cer_metric b) as [cer|] eqn:Hcer; cycle 1.
    { destruct (asr_on_stage_end_valid_unset stage_loss epoch b) as [e He]; [by left|].
      congruence. }
    destruct (wer_metric b) as [wer|] eqn:Hwer; cycle 1.
    { destruct (asr_on_stage_end_valid_unset stage_loss epoch b) as [e He]; [by right|].
      congruence. }
    destruct (eval_stats stage_loss cer wer !! ASR.metric_to_optimize asr)
      as [metric|] eqn:Hkey; cycle 1.
    { rewrite (asr_on_stage_end_valid_bad_key asr stage_loss epoch b cer wer) in Hrun
        by done. congruence. }
    destruct (train_stats b) as [train|] eqn:Htrain; cycle 1.
    { destruct (asr_on_stage_end_valid_no_train stage_loss epoch b cer wer metric)
        as (b1 & He & _); try done. congruence. }
    split_and!; try done. apply (eval_stats_keys stage_loss cer wer). by rewrite Hkey.
  - intros ([cer Hcer] & [wer Hwer] & [train Htrain] & Hkey).
    apply (eval_stats_keys stage_loss cer wer) in Hkey as [metric Hkey].
    destruct (asr_on_stage_end_valid asr stage_loss epoch b cer wer train metric)
      as (b' & Hrun & _); try done.
    by exists b'.
Qed.

(** When a VALID stage ends before any TRAIN stage has ended, so that
    [train_stats] was never assigned, [on_stage_end] of both recipes raises
    [AttributeError] for [train_stats]; by then the learning rate has been
    annealed and the optimizer updated, and neither statistics are logged
    nor a checkpoint is saved. *)
Theorem valid_end_before_train_end (stage_loss : Float) (epoch : Z) (b : Brain)
    (cer wer : ErrorRateStats) (metric : Float)
    (Hcer : cer_metric b = Some cer) (Hwer : wer_metric b = Some wer)
    (Htrain : train_stats b = None)
    (Hkey : eval_stats stage_loss cer wer !! ASR.metric_to_optimize asr = Some metric) :
  (let r := SLU.on_stage_end slu VALID stage_loss epoch b in
   let wer_rate := summarize wer "error_rate" in
   r.1 = Raise (AttributeError "train_stats")
   ∧ new_events b r.2
     = [LrAnnealing wer_rate;
        UpdateLearningRate (lr_annealing (scheduler b) wer_rate).1.2]
   ∧ optimizer_lr r.2 = (lr_annealing (scheduler b) wer_rate).1.2
   ∧ scheduler r.2 = (lr_annealing (scheduler b) wer_rate).2)
  ∧ (let r := ASR.on_stage_end asr VALID stage_loss epoch b in
     r.1 = Raise (AttributeError "train_stats")
     ∧ new_events b r.2
       = [LrAnnealing metric;
          UpdateLearningRate (lr_annealing (scheduler b) metric).1.2]
     ∧ optimizer_lr r.2 = (lr_annealing (scheduler b) metric).1.2
     ∧ scheduler r.2 = (lr_annealing (scheduler b) metric).2).
Proof.
  split.
  - destruct (slu_on_stage_end_valid_no_train stage_loss epoch b cer wer Hcer Hwer Htrain)
      as (b' & Hrun & Htrace & Hlr & Hsch).
    cbv zeta. rewrite Hrun. simpl. split_and!; try done. by apply new_events_app.
  - destruct (asr_on_stage_end_valid_no_train stage_loss epoch b cer wer metric
                Hcer Hwer Htrain Hkey) as (b' & Hrun & Htrace & Hlr & Hsch).
    cbv zeta. rewrite Hrun. simpl. split_and!; try done. by apply new_events_app.
Qed.

End ValidEndEdges.

Lemma valid_end_before_train_end_witness :
  (SLU.on_stage_end example_slu_hparams VALID 7 1 example_started_brain).1
  = Raise (AttributeError "train_stats")
  ∧ optimizer_lr (ASR.on_stage_end example_asr_hparams VALID 7 1 example_started_brain).2
    = 9.
Proof.
  pose proof (valid_end_before_train_end (H := example_engine)
                example_slu_hparams example_asr_hparams 7 1 example_started_brain
                cer_computer error_rate_computer 0
                eq_refl eq_refl eq_refl eq_refl) as [Hslu Hasr].
  split; [apply Hslu | apply Hasr].
Defined.

Lemma asr_valid_end_returns_iff_witness :
  ∃ b', ASR.on_stage_end example_asr_hparams VALID 7 1 example_valid_brain = (Ok tt, b').
Proof.
  apply (asr_valid_end_returns_iff (H := example_engine) example_asr_hparams 7 1
           example_valid_brain).
  split_and!; [by eexists | by eexists | by eexists |].
  apply (bool_decide_unpack _). vm_compute. reflexivity.
Defined.

(** ** Evaluation of a batch in the SLU recipe *)

Section SLUEvaluation.
Context `{Engine} (slu : SLU.HParams) (tokenizer : Tokenizer).

Lemma run_metric_append name field update ids predict target b m :
  field b = Some m →
  metric_append name field update ids predict target b
  = (Ok tt, update (append m ids predict target) b).
Proof.
  intros Hm. unfold metric_append. rewrite run_bind, (run_getattr _ _ _ _ Hm).
  by rewrite run_modify.
Qed.

Lemma run_lift {A} (r : result A) b : lift r b = (r, b).
Proof. reflexivity. Qed.

(** [compute_objectives] outside the TRAIN stage, on the triple the forward
    pass returned. *)
Lemma slu_compute_objectives_eval p l t batch stage b predicted cer wer :
  stage ≠ TRAIN →
  comprehension (λ ids, result_bind (decode_ids ids) (λ s, Ok (split_on " " s))) t
  = Ok predicted →
  (length (SLU.semantics batch) ≤ length predicted)%nat →
  cer_metric b = Some cer → wer_metric b = Some wer →
  let target := split_on " " <$> SLU.semantics batch in
  ∃ b', SLU.compute_objectives slu tokenizer (SLU.Pred3 p l t) batch stage b
        = (Ok (SLU.seq_cost slu p (SLU.tokens_eos batch).1 (SLU.tokens_eos batch).2), b')
        ∧ trace b' = trace b ++ concat (zip_with printed_lines predicted target)
        ∧ wer_metric b' = Some (append wer (SLU.id batch) predicted target)
        ∧ cer_metric b' = Some (append cer (SLU.id batch) predicted target)
        ∧ batch_count b' = batch_count b ∧ train_stats b' = train_stats b.
Proof.
  intros Hstage Hdec Hlen Hcer Hwer target.
  destruct (print_results_from 0 predicted target b)
    as (b1 & Hprint & Htrace & Hbc & Hts & Hcer1 & Hwer1).
  rewrite drop_0 in Hprint, Htrace.
  rewrite decide_True in Hprint by (subst target; by rewrite length_fmap).
  rewrite Hcer in Hcer1. rewrite Hwer in Hwer1.
  exists (set_cer_metric (append cer (SLU.id batch) predicted target)
            (set_wer_metric (append wer (SLU.id batch) predicted target) b1)).
  split; [|by split_and!].
  unfold SLU.compute_objectives.
  destruct (SLU.tokens_eos batch) as [tokens_eos tokens_eos_lens].
  destruct (SLU.tokens batch) as [tokens tokens_lens].
  assert (Hq : SLU.quiet_train_batch stage = mret false) by (by destruct stage).
  rewrite Hq, run_bind, run_mret. cbv beta iota. rewrite run_bind, run_mret.
  cbv beta iota.
  assert (Heos : match SLU.env_corrupt slu, stage with
                 | Some _, TRAIN =>
                     (cat [tokens_eos; tokens_eos], cat [tokens_eos_lens; tokens_eos_lens])
                 | _, _ => (tokens_eos, tokens_eos_lens)
                 end = (tokens_eos, tokens_eos_lens))
    by (destruct (SLU.env_corrupt slu), stage; done).
  rewrite Heos.
  assert (Hshow : match stage with
                  | TRAIN =>
                      n ← getattr "batch_count" batch_count;
                      mret (n `mod` SLU.show_results_every =? 0)
                  | _ => mret true
                  end = (mret true : M bool)) by (by destruct stage).
  rewrite run_bind. rewrite Hshow, run_mret. cbv beta iota.
  rewrite run_bind, run_bind, run_lift, Hdec. cbv beta iota.
  rewrite run_bind. fold target. rewrite Hprint. cbv beta iota.
  assert (Happend :
            match stage with
            | TRAIN => mret tt
            | _ =>
                metric_append "wer_metric" wer_metric set_wer_metric
                              (SLU.id batch) predicted target;;
                metric_append "cer_metric" cer_metric set_cer_metric
                              (SLU.id batch) predicted target
            end b1
            = (Ok tt, set_cer_metric (append cer (SLU.id batch) predicted target)
                        (set_wer_metric (append wer (SLU.id batch) predicted target) b1))).
  { destruct stage; [done| |].
    all: rewrite run_bind, (run_metric_append _ _ _ _ _ _ _ _ Hwer1); cbv beta iota.
    all: by rewrite (run_metric_append _ cer_metric _ _ _ _ _ cer). }
  rewrite Happend. cbv beta iota. by rewrite run_mret.
Qed.

(** Outside the TRAIN stage, when the forward pass returns, the tokens of
    the beam search decode, and there is a prediction for every target,
    [evaluate_batch] returns the detached loss on the undoubled targets,
    prints three lines per utterance, appends the batch with the decoded
    words to both error-rate accumulators, and leaves the batch counter and
    the train statistics as they were. *)
Theorem slu_evaluate_batch_accumulates (batch : SLU.Batch) (stage : Stage)
    (b b1 : Brain) p l t (predicted : list (list string)) (cer wer : ErrorRateStats)
    (Hstage : stage ≠ TRAIN)
    (Hfwd : SLU.compute_forward slu batch stage b = (Ok (SLU.Pred3 p l t), b1))
    (Hdec : comprehension (λ ids, result_bind (decode_ids ids) (λ s, Ok (split_on " " s))) t
            = Ok predicted)
    (Hlen : (length (SLU.semantics batch) ≤ length predicted)%nat)
    (Hcer : cer_metric b = Some cer) (Hwer : wer_metric b = Some wer) :
  let target := split_on " " <$> SLU.semantics batch in
  ∃ b',
    SLU.evaluate_batch slu tokenizer batch stage b
    = (Ok (detach (SLU.seq_cost slu p (SLU.tokens_eos batch).1 (SLU.tokens_eos batch).2)), b')
    ∧ new_events b b' = concat (zip_with printed_lines predicted target)
    ∧ wer_metric b' = Some (append wer (SLU.id batch) predicted target)
    ∧ cer_metric b' = Some (append cer (SLU.id batch) predicted target)
    ∧ batch_count b' = batch_count b ∧ train_stats b' = train_stats b.
Proof.
  intros target.
  pose proof (slu_compute_forward_shape slu batch stage b _ b1 Hfwd) as [-> _].
  destruct (slu_compute_objectives_eval p l t batch stage b predicted cer wer
              Hstage Hdec Hlen Hcer Hwer) as (b' & Hrun & Htrace & Hw & Hc & Hbc & Hts).
  exists b'. unfold SLU.evaluate_batch.
  rewrite run_bind, Hfwd. cbv beta iota. rewrite run_bind, Hrun. cbv beta iota.
  rewrite run_mret. split_and!; try done. by apply new_events_app.
Qed.

End SLUEvaluation.

Lemma slu_evaluate_batch_accumulates_witness :
  ∃ b',
    SLU.evaluate_batch example_slu_hparams simple_tokenizer example_slu_batch VALID
                       example_valid_brain
    = (Ok 7, b')
    ∧ wer_metric b'
      = Some (append example_wer ["utt1"; "utt2"] [["ab"]; ["c"]] [["ab"]; ["c"]])
    ∧ length (new_events example_valid_brain b') = 6%nat.
Proof.
  destruct (slu_evaluate_batch_accumulates (H := example_engine)
              example_slu_hparams simple_tokenizer example_slu_batch VALID
              example_valid_brain example_valid_brain
              4 [(3 # 3)%Q; (3 # 3)%Q] [[2; 3]; [4]] [["ab"]; ["c"]]
              example_cer example_wer)
    as (b' & Hrun & Hev & Hw & _).
  - done.
  - vm_compute. reflexivity.
  - vm_compute. reflexivity.
  - simpl. lia.
  - reflexivity.
  - reflexivity.
  - exists b'. split; [exact Hrun|]. split; [exact Hw|]. rewrite Hev. reflexivity.
Defined.

(** ** The data pipeline of the ASR recipe *)

Lemma split_on_items (c : ascii) (s : string) :
  Forall (λ w, c ∉ chars w) (split_on c s).
Proof.
  unfold chars. induction s as [|x s IH]; simpl.
  - repeat constructor. apply not_elem_of_nil.
  - destruct (Ascii.eqb_spec x c) as [->|Hx].
    + constructor; [apply not_elem_of_nil | done].
    + destruct (split_on c s) as [|w ws]; simpl.
      * repeat constructor. by intros [?|?%elem_of_nil]%elem_of_cons.
      * apply Forall_cons in IH as [Hw Hws]. constructor; [|done].
        simpl. by intros [?|?]%elem_of_cons.
Qed.

Lemma split_on_first (c : ascii) (s : string) :
  ∃ w ws, split_on c s = w :: ws ∧ (s = w ∨ ∃ rest, s = w +:+ String c rest).
Proof.
  induction s as [|x s (w & ws & Hs & Hw)]; simpl.
  - exists "", []. split; [done|by left].
  - destruct (Ascii.eqb_spec x c) as [->|Hx].
    + exists "", (split_on c s). split; [done|]. right. by exists s.
    + rewrite Hs. exists (String x w), ws. split; [done|].
      destruct Hw as [->|[rest ->]]; [by left|]. right. by exists rest.
Qed.


Lemma chars_inj (s1 s2 : string) : chars s1 = chars s2 → s1 = s2.
Proof.
  unfold chars. intros Heq.
  by rewrite <- (string_of_list_ascii_of_string s1), Heq, string_of_list_ascii_of_string.
Qed.

Section ASRPipelines.
Context `{Engine} (asr : ASR.HParams).


(** [audio_pipeline] never raises.  The utterance id it yields is the text
    of the file name before its first dot: it contains neither a slash nor
    a dot, and for a path [dir/name.rest] with no dot in [name] it is
    [name], whatever further dots [rest] has. *)
Theorem audio_pipeline_utt_id (wav_path : string) (b : Brain) :
  ∃ utt_id,
    ASR.audio_pipeline asr wav_path b
    = (Ok (ASR.read_audio asr wav_path, wav_path, utt_id), log_event (Step ReadAudio) b)
    ∧ ("/"%char ∉ chars utt_id) ∧ ("."%char ∉ chars utt_id)
    ∧ (∀ dir name rest : string,
         wav_path = dir +:+ String "/" (name +:+ String "." rest) →
         "/"%char ∉ chars name → "."%char ∉ chars name → "/"%char ∉ chars rest →
         utt_id = name)
    ∧ (∀ dir name : string,
         wav_path = dir +:+ String "/" name →
         "/"%char ∉ chars name → "."%char ∉ chars name → utt_id = name).
Proof.
  destruct (split_on_first "/" wav_path) as (w0 & ws0 & Hsplit0 & _).
  destruct (last (split_on "/" wav_path)) as [name0|] eqn:Hlast; cycle 1.
  { rewrite Hsplit0 in Hlast. by rewrite last_cons in Hlast; destruct (last ws0). }
  destruct (split_on_first "." name0) as (utt & ws & Hsplit & Hutt).
  exists utt.
  assert (Hname0 : "/"%char ∉ chars name0).
  { pose proof (split_on_items "/" wav_path) as Hall.
    rewrite Forall_forall in Hall. apply Hall. by apply last_Some_elem_of. }
  assert (Hdot : "."%char ∉ chars utt).
  { pose proof (split_on_items "." name0) as Hall. rewrite Hsplit in Hall.
    by apply Forall_cons in Hall as [? _]. }
  split_and!.
  - unfold ASR.audio_pipeline, last_item.
    rewrite run_bind, run_emit. cbv beta iota. rewrite Hlast.
    rewrite run_bind. cbn [lift]. cbv beta iota.
    rewrite Hsplit. reflexivity.
  - destruct Hutt as [<-|[rest ->]]; [done|].
    unfold chars in *. rewrite list_ascii_of_string_app in Hname0.
    intros Hin. apply Hname0. apply elem_of_app. by left.
  - done.
  - intros dir name rest -> Hname Hnd Hrest.
    rewrite last_split_on_file in Hlast.
    2:{ unfold chars in *. rewrite list_ascii_of_string_app. simpl.
        intros [?|[?|?]%elem_of_cons]%elem_of_app; done. }
    injection Hlast as <-.
    rewrite split_on_app, (split_on_no_sep _ name Hnd) in Hsplit. simpl in Hsplit.
    by injection Hsplit as -> _.
  - intros dir name -> Hname Hnd.
    rewrite (last_split_on_file _ _ Hname) in Hlast. injection Hlast as <-.
    rewrite (split_on_no_sep _ name Hnd) in Hsplit. by injection Hsplit as -> _.
Qed.


End ASRPipelines.

Lemma audio_pipeline_utt_id_witness :
  ∃ utt_id,
    (ASR.audio_pipeline example_asr_hparams "/data/wavs/LJ001-0001.16k.wav" example_brain).1
    = Ok (29, "/data/wavs/LJ001-0001.16k.wav", utt_id)
    ∧ utt_id = "LJ001-0001".
Proof.
  destruct (audio_pipeline_utt_id (H := example_engine) example_asr_hparams
              "/data/wavs/LJ001-0001.16k.wav" example_brain)
    as (utt_id & Hrun & _ & _ & Hname & _).
  exists utt_id. split; [by rewrite Hrun|].
  apply (Hname "/data/wavs" "LJ001-0001" "16k.wav"); [reflexivity|..];
    apply (bool_decide_unpack _); vm_compute; reflexivity.
Defined.


(** ** Sorting and shuffling in the data preparations *)

Section DataIOFacts.
Import DataIO.

Lemma shuffle_of_set_shuffle name v hparams d name' :
  dicts hparams !! name = Some d →
  shuffle_of name' (set_shuffle name v hparams).2
  = if decide (name' = name) then Some (OBool v) else shuffle_of name' hparams.
Proof.
  intros Hd. unfold set_shuffle, shuffle_of. rewrite Hd. simpl.
  case_decide as Hn.
  - subst. rewrite lookup_insert_eq. simpl. apply lookup_insert_eq.
  - by rewrite lookup_insert_ne.
Qed.

Lemma other_option_set_shuffle name v hparams name' k :
  k ≠ "shuffle" →
  (dicts (set_shuffle name v hparams).2 !! name' ≫= (.!! k))
  = (dicts hparams !! name' ≫= (.!! k)).
Proof.
  intros Hk. unfold set_shuffle. destruct (dicts hparams !! name) as [d|] eqn:Hd; [|done].
  simpl. destruct (decide (name' = name)) as [->|Hn].
  - rewrite lookup_insert_eq, Hd. simpl. by rewrite lookup_insert_ne.
  - by rewrite lookup_insert_ne.
Qed.

Lemma run_set_shuffle name v hparams :
  is_Some (dicts hparams !! name) →
  set_shuffle name v hparams = (Returns tt, (set_shuffle name v hparams).2)
  ∧ sorting (set_shuffle name v hparams).2 = sorting hparams
  ∧ ∀ name', is_Some (dicts (set_shuffle name v hparams).2 !! name')
             ↔ is_Some (dicts hparams !! name').
Proof.
  intros [d Hd]. unfold set_shuffle. rewrite Hd. cbn [fst snd sorting dicts].
  split; [reflexivity|]. split; [reflexivity|].
  intros name'. rewrite lookup_insert_is_Some. split.
  - intros [<-|[_ ?]]; [by rewrite Hd|done].
  - intros Hsome. destruct (decide (name = name')); auto.
Qed.

(** In the SLU recipe, sorting "ascending" turns the shuffling of
    [dataloader_opts] off, and sorting "descending" does not: it writes to
    the entry [dataloder_opts], returns when [hparams] has such an entry
    and raises [KeyError] for it when it has not; either way the shuffle
    option of [dataloader_opts] is what it was. *)
Theorem slu_sorting_and_shuffle (hparams : HParams) :
  (sorting hparams = "ascending" → is_Some (dicts hparams !! "dataloader_opts") →
   (data_io_prepare hparams).1 = Returns (FilteredSorted "duration" false)
   ∧ shuffle_of "dataloader_opts" (data_io_prepare hparams).2 = Some (OBool false))
  ∧ (sorting hparams = "descending" →
     shuffle_of "dataloader_opts" (data_io_prepare hparams).2
     = shuffle_of "dataloader_opts" hparams
     ∧ (dicts hparams !! "dataloder_opts" = None →
        data_io_prepare hparams
        = (Raises (Exn (KeyError (KStr "dataloder_opts"))), hparams))
     ∧ (is_Some (dicts hparams !! "dataloder_opts") →
        (data_io_prepare hparams).1 = Returns (FilteredSorted "duration" true))).
Proof.
  unfold data_io_prepare. split.
  - intros -> [d Hd]. simpl String.eqb. cbv iota.
    pose proof (shuffle_of_set_shuffle "dataloader_opts" false hparams d
                  "dataloader_opts" Hd) as Hsh.
    rewrite decide_True in Hsh by done.
    unfold set_shuffle in *. rewrite Hd in *. done.
  - intros ->. simpl String.eqb. cbv iota.
    destruct (dicts hparams !! "dataloder_opts") as [d|] eqn:Hd.
    + pose proof (shuffle_of_set_shuffle "dataloder_opts" false hparams d
                    "dataloader_opts" Hd) as Hsh.
      rewrite decide_False in Hsh by done.
      unfold set_shuffle in *. rewrite Hd in *. simpl in *. split_and!; [done| |done].
      intros [=].
    + unfold set_shuffle. rewrite Hd. simpl. split_and!; [done|done|].
      by intros [? ?].
Qed.

Lemma slu_sorting_and_shuffle_witness :
  shuffle_of "dataloader_opts" (data_io_prepare example_slu_data_hparams).2
  = Some (OBool true)
  ∧ (data_io_prepare example_slu_data_hparams).1
    = Raises (Exn (KeyError (KStr "dataloder_opts"))).
Proof.
  destruct (slu_sorting_and_shuffle example_slu_data_hparams) as [_ Hdesc].
  destruct (Hdesc eq_refl) as (Hsh & Hraise & _). split.
  - rewrite Hsh. vm_compute. reflexivity.
  - rewrite Hraise; [reflexivity|]. vm_compute. reflexivity.
Defined.

Lemma run_disable_shuffle datasets hparams :
  (∀ dataset, dataset ∈ datasets →
              is_Some (dicts hparams !! (dataset +:+ "_dataloader_opts"))) →
  let r := disable_shuffle datasets hparams in
  r.1 = Returns tt
  ∧ sorting r.2 = sorting hparams
  ∧ (∀ name, is_Some (dicts r.2 !! name) ↔ is_Some (dicts hparams !! name))
  ∧ (∀ name, shuffle_of name r.2
             = if decide (name ∈ (λ d, d +:+ "_dataloader_opts") <$> datasets)
               then Some (OBool false) else shuffle_of name hparams)
  ∧ (∀ name k, k ≠ "shuffle" →
               (dicts r.2 !! name ≫= (.!! k)) = (dicts hparams !! name ≫= (.!! k))).
Proof.
  revert hparams. induction datasets as [|dataset rest IH]; intros hparams Hall; simpl.
  - by split_and!.
  - assert (Hd : is_Some (dicts hparams !! (dataset +:+ "_dataloader_opts")))
      by (apply Hall; left).
    destruct (run_set_shuffle _ false hparams Hd) as (Hrun & Hsort & Hdom).
    rewrite Hrun.
    destruct (IH (set_shuffle (dataset +:+ "_dataloader_opts") false hparams).2)
      as (Hr & Hs & Hdm & Hsh & Hoth).
    { intros d' Hd'. apply Hdom, Hall. by right. }
    split_and!.
    + done.
    + by rewrite Hs.
    + intros name. by rewrite Hdm.
    + intros name. rewrite Hsh. destruct Hd as [d Hd].
      rewrite (shuffle_of_set_shuffle _ _ _ d _ Hd).
      destruct (decide (name ∈ (λ d, d +:+ "_dataloader_opts") <$> rest)) as [Hin|Hnin].
      * by rewrite decide_True by (by right).
      * destruct (decide (name = dataset +:+ "_dataloader_opts")) as [->|Hne].
        -- by rewrite decide_True by (by left).
        -- rewrite decide_False; [done|]. by intros [?|?]%elem_of_cons.
    + intros name k Hk. by rewrite Hoth, other_option_set_shuffle.
Qed.

(** In the ASR recipe, when [hparams] has the three dictionaries of data
    loader options: after [dataio_prepare] the validation and test loaders
    do not shuffle, the train loader shuffles exactly when the sorting is
    "random", no other option is changed, and the call raises
    [NotImplementedError] exactly when the sorting is none of "ascending",
    "descending", "random" (the shuffle options are written by then). *)
Theorem asr_dataio_shuffle_flags (hparams : HParams)
    (Hdicts : ∀ dataset, dataset ∈ ["train"; "valid"; "test"] →
                         is_Some (dicts hparams !! (dataset +:+ "_dataloader_opts"))) :
  let r := dataio_prepare hparams in
  shuffle_of "valid_dataloader_opts" r.2 = Some (OBool false)
  ∧ shuffle_of "test_dataloader_opts" r.2 = Some (OBool false)
  ∧ shuffle_of "train_dataloader_opts" r.2
    = Some (OBool (bool_decide (sorting hparams = "random")))
  ∧ (∀ name k, k ≠ "shuffle" →
               (dicts r.2 !! name ≫= (.!! k)) = (dicts hparams !! name ≫= (.!! k)))
  ∧ r.1 = (if decide (sorting hparams = "ascending")
           then Returns (FilteredSorted "length" false)
           else if decide (sorting hparams = "descending")
           then Returns (FilteredSorted "length" true)
           else if decide (sorting hparams = "random") then Returns Loaded
           else Raises (NotImplementedError
                          "sorting must be random, ascending or descending")).
Proof.
  intros r. subst r. unfold dataio_prepare.
  destruct (run_disable_shuffle _ hparams Hdicts) as (Hr & Hs & Hdm & Hsh & Hoth).
  destruct (disable_shuffle ["train"; "valid"; "test"] hparams) as [o h1] eqn:Hloop.
  simpl in Hr, Hs, Hdm, Hsh, Hoth. subst o. rewrite Hs.
  assert (Htrain : is_Some (dicts h1 !! "train_dataloader_opts")).
  { apply Hdm. apply (Hdicts "train"). by left. }
  destruct (run_set_shuffle "train_dataloader_opts" false h1 Htrain) as (Hrun0 & _ & _).
  destruct (run_set_shuffle "train_dataloader_opts" true h1 Htrain) as (Hrun1 & _ & _).
  destruct Htrain as [d Hd].
  pose proof (λ v name, shuffle_of_set_shuffle "train_dataloader_opts" v h1 d name Hd) as Hset.
  pose proof (λ v, other_option_set_shuffle "train_dataloader_opts" v h1) as Hkeep.
  assert (Hv : shuffle_of "valid_dataloader_opts" h1 = Some (OBool false)).
  { rewrite Hsh. apply decide_True. apply (bool_decide_unpack _). vm_compute. reflexivity. }
  assert (Ht : shuffle_of "test_dataloader_opts" h1 = Some (OBool false)).
  { rewrite Hsh. apply decide_True. apply (bool_decide_unpack _). vm_compute. reflexivity. }
  assert (Htr : shuffle_of "train_dataloader_opts" h1 = Some (OBool false)).
  { rewrite Hsh. apply decide_True. apply (bool_decide_unpack _). vm_compute. reflexivity. }
  destruct (String.eqb_spec (sorting hparams) "ascending") as [Ha|Ha];
    [|destruct (String.eqb_spec (sorting hparams) "descending") as [Hde|Hde];
      [|destruct (String.eqb_spec (sorting hparams) "random") as [Hra|Hra]]].
  - rewrite Hrun0. cbn [fst snd]. split_and!.
    + by rewrite Hset, decide_False.
    + by rewrite Hset, decide_False.
    + rewrite Hset, decide_True by done. rewrite Ha. reflexivity.
    + intros name k Hk. by rewrite Hkeep, Hoth.
    + by rewrite decide_True.
  - rewrite Hrun0. cbn [fst snd]. split_and!.
    + by rewrite Hset, decide_False.
    + by rewrite Hset, decide_False.
    + rewrite Hset, decide_True by done. rewrite Hde. reflexivity.
    + intros name k Hk. by rewrite Hkeep, Hoth.
    + rewrite (decide_False (P := sorting hparams = "ascending")) by done.
      by rewrite decide_True.
  - rewrite Hrun1. cbn [fst snd]. split_and!.
    + by rewrite Hset, decide_False.
    + by rewrite Hset, decide_False.
    + rewrite Hset, decide_True by done. rewrite Hra. reflexivity.
    + intros name k Hk. by rewrite Hkeep, Hoth.
    + rewrite (decide_False (P := sorting hparams = "ascending")) by done.
      rewrite (decide_False (P := sorting hparams = "descending")) by done.
      by rewrite decide_True.
  - cbn [fst snd]. split_and!.
    + done.
    + done.
    + rewrite Htr. by rewrite bool_decide_eq_false_2.
    + done.
    + rewrite (decide_False (P := sorting hparams = "ascending")) by done.
      rewrite (decide_False (P := sorting hparams = "descending")) by done.
      by rewrite (decide_False (P := sorting hparams = "random")).
Qed.

Lemma asr_dataio_shuffle_flags_witness :
  shuffle_of "test_dataloader_opts" (dataio_prepare example_asr_data_hparams).2
  = Some (OBool false)
  ∧ shuffle_of "train_dataloader_opts" (dataio_prepare example_asr_data_hparams).2
    = Some (OBool true).
Proof.
  destruct (asr_dataio_shuffle_flags example_asr_data_hparams) as (_ & Ht & Htr & _).
  - intros dataset Hin. apply (bool_decide_unpack _).
    repeat (apply elem_of_cons in Hin as [->|Hin]; [vm_compute; reflexivity|]).
    by apply elem_of_nil in Hin.
  - split; [exact Ht | exact Htr].
Defined.

End DataIOFacts.

(** ** The transcriptions read from the metadata file *)

Section TransDict.
Context (cleaners : gmap string (string → string)) (text_cleaners : list string).

Lemma clean_text_known (names : list string) (s : string) :
  (∀ name, name ∈ names → is_Some (cleaners !! name)) →
  ∃ text, Manifest.clean_text cleaners names s = Ok text.
Proof.
  revert s. induction names as [|name names IH]; intros s Hall; simpl; [by eexists|].
  destruct (Hall name) as [cleaner ->]; [by left|].
  apply IH. intros name' Hin. apply Hall. by right.
Qed.

Lemma unpack3_cases (fields : list string) :
  (∃ a b c, fields = [a; b; c] ∧ Manifest.unpack3 fields = Ok (a, b, c))
  ∨ (length fields ≠ 3%nat ∧ ∃ msg, Manifest.unpack3 fields = Raise (ValueError msg)).
Proof.
  destruct fields as [|a [|b [|c [|d rest]]]]; simpl;
    first [ by left; eexists _, _, _ | right; split; [done|by eexists] ].
Qed.

Lemma trans_dict_loop_app (pre post : list string) (acc : gmap string string) :
  Manifest.trans_dict_loop cleaners text_cleaners (pre ++ post) acc
  = result_bind (Manifest.trans_dict_loop cleaners text_cleaners pre acc)
                (λ d, Manifest.trans_dict_loop cleaners text_cleaners post d).
Proof.
  revert acc. induction pre as [|line pre IH]; intros acc; simpl; [done|].
  destruct (Manifest.unpack3 (split_on "|" line)) as [[[u raw] norm]|e]; simpl; [|done].
  destruct (Manifest.clean_text cleaners text_cleaners norm) as [text|e]; simpl; [|done].
  apply IH.
Qed.

Lemma trans_dict_loop_keys (lines : list string) (acc d : gmap string string) :
  Manifest.trans_dict_loop cleaners text_cleaners lines acc = Ok d →
  ∀ u, is_Some (d !! u) ↔ is_Some (acc !! u) ∨ u ∈ line_uttid <$> lines.
Proof.
  revert acc. induction lines as [|line lines IH]; intros acc; simpl.
  - intros [= <-] u. rewrite elem_of_nil. tauto.
  - destruct (unpack3_cases (split_on "|" line))
      as [(a & b & c & Hsplit & ->)|(_ & msg & ->)]; simpl; [|done].
    destruct (Manifest.clean_text cleaners text_cleaners c) as [text|e]; simpl; [|done].
    intros Hloop u. rewrite (IH _ Hloop u), lookup_insert_is_Some, elem_of_cons.
    assert (Hline : line_uttid line = a) by (unfold line_uttid; by rewrite Hsplit).
    rewrite Hline. change (list_fmap string string line_uttid lines)
      with (line_uttid <$> lines).
    destruct (decide (a = u)) as [->|Hne]; [tauto|].
    split; [intros [[?|[_ ?]]|?]; auto; done | intros [?|[?|?]]; auto; done].
Qed.

Lemma trans_dict_loop_other (lines : list string) (acc d : gmap string string) u :
  Manifest.trans_dict_loop cleaners text_cleaners lines acc = Ok d →
  u ∉ line_uttid <$> lines → d !! u = acc !! u.
Proof.
  revert acc. induction lines as [|line lines IH]; intros acc; simpl.
  - by intros [= <-] _.
  - destruct (unpack3_cases (split_on "|" line))
      as [(a & b & c & Hsplit & ->)|(_ & msg & ->)]; simpl; [|done].
    destruct (Manifest.clean_text cleaners text_cleaners c) as [text|e]; simpl; [|done].
    intros Hloop [Ha Hrest]%not_elem_of_cons.
    rewrite (IH _ Hloop Hrest). apply lookup_insert_ne.
    unfold line_uttid in Ha. rewrite Hsplit in Ha. simpl in Ha. congruence.
Qed.

(** With cleaners that all exist, the transcriptions are read exactly when
    every line of the metadata file has three fields, that is two bars; the
    first line that has not raises [ValueError]. *)
Theorem trans_dict_needs_three_fields (lines : list string)
    (Hcleaners : ∀ name, name ∈ text_cleaners → is_Some (cleaners !! name)) :
  ((∃ d, Manifest.trans_dict_loop cleaners text_cleaners lines ∅ = Ok d)
   ↔ Forall (λ line, length (split_on "|" line) = 3%nat) lines)
  ∧ (∀ pre line post,
       lines = pre ++ line :: post →
       Forall (λ line, length (split_on "|" line) = 3%nat) pre →
       length (split_on "|" line) ≠ 3%nat →
       ∃ msg, Manifest.trans_dict_loop cleaners text_cleaners lines ∅
              = Raise (ValueError msg)).
Proof.
  assert (Hok : ∀ ls acc, Forall (λ line, length (split_on "|" line) = 3%nat) ls →
                          ∃ d, Manifest.trans_dict_loop cleaners text_cleaners ls acc = Ok d).
  { induction ls as [|line ls IH]; intros acc Hall; simpl; [by eexists|].
    apply Forall_cons in Hall as [Hline Hall].
    destruct (unpack3_cases (split_on "|" line))
      as [(a & b & c & Hsplit & ->)|(Hlen & _)]; [|done]. simpl.
    destruct (clean_text_known text_cleaners c Hcleaners) as [text ->]. simpl.
    by apply IH. }
  assert (Hraise : ∀ pre line post acc,
             Forall (λ line, length (split_on "|" line) = 3%nat) pre →
             length (split_on "|" line) ≠ 3%nat →
             ∃ msg, Manifest.trans_dict_loop cleaners text_cleaners (pre ++ line :: post) acc
                    = Raise (ValueError msg)).
  { intros pre line post acc Hpre Hline. rewrite trans_dict_loop_app.
    destruct (Hok pre acc Hpre) as [d ->]. simpl.
    destruct (unpack3_cases (split_on "|" line))
      as [(a & b & c & Hsplit & _)|(_ & msg & ->)]; [by rewrite Hsplit in Hline|].
    by exists msg. }
  split.
  - split; [|apply Hok]. intros [d Hd].
    apply Forall_forall. intros line Hin.
    destruct (decide (length (split_on "|" line) = 3%nat)) as [|Hbad]; [done|].
    exfalso. clear Hcleaners Hok Hraise.
    revert Hd. generalize (∅ : gmap string string).
    induction lines as [|l ls IH]; intros acc; [by apply elem_of_nil in Hin|].
    simpl. destruct (unpack3_cases (split_on "|" l))
      as [(a & b & c & Hsplit & ->)|(_ & msg & ->)]; simpl; [|done].
    destruct (Manifest.clean_text cleaners text_cleaners c) as [text|e]; simpl; [|done].
    apply elem_of_cons in Hin as [->|Hin]; [by rewrite Hsplit in Hbad|].
    by apply IH.
  - intros pre line post -> Hpre Hline. by apply Hraise.
Qed.

(** When the transcriptions are read, the dictionary has one entry for
    every utterance id of the file and no other; where an id is on
    several lines, the entry is the cleaned third field of the last of
    them. *)
Theorem trans_dict_last_line_wins (lines : list string) (d : gmap string string)
    (Hrun : Manifest.trans_dict_loop cleaners text_cleaners lines ∅ = Ok d) :
  (∀ u, is_Some (d !! u) ↔ u ∈ line_uttid <$> lines)
  ∧ (∀ pre line post u raw norm,
       lines = pre ++ line :: post → split_on "|" line = [u; raw; norm] →
       u ∉ line_uttid <$> post →
       ∃ text, Manifest.clean_text cleaners text_cleaners norm = Ok text
               ∧ d !! u = Some text).
Proof.
  split.
  - intros u. rewrite (trans_dict_loop_keys _ _ _ Hrun u), lookup_empty.
    split; [intros [[? [=]]|?]; done | auto].
  - intros pre line post u raw norm -> Hsplit Hpost.
    rewrite trans_dict_loop_app in Hrun.
    destruct (Manifest.trans_dict_loop cleaners text_cleaners pre ∅) as [d1|e]; [|done].
    simpl in Hrun. rewrite Hsplit in Hrun. simpl in Hrun.
    destruct (Manifest.clean_text cleaners text_cleaners norm) as [text|e]; [|done].
    simpl in Hrun. exists text. split; [done|].
    rewrite (trans_dict_loop_other _ _ _ _ Hrun Hpost). apply lookup_insert_eq.
Qed.

End TransDict.

Lemma trans_dict_needs_three_fields_witness :
  ∃ msg, Manifest.trans_dict_loop example_cleaners ["no_space"]
           ["LJ001-0001|Printing|printing"; "LJ001-0002|a|b|c"; "LJ001-0003"] ∅
         = Raise (ValueError msg).
Proof.
  destruct (trans_dict_needs_three_fields example_cleaners ["no_space"]
              ["LJ001-0001|Printing|printing"; "LJ001-0002|a|b|c"; "LJ001-0003"])
    as [_ Hraise].
  - intros name ->%list_elem_of_singleton. vm_compute. by eexists.
  - apply (Hraise ["LJ001-0001|Printing|printing"] "LJ001-0002|a|b|c" ["LJ001-0003"]).
    + reflexivity.
    + repeat constructor.
    + vm_compute. lia.
Defined.

Lemma trans_dict_last_line_wins_witness :
  ∃ d, Manifest.trans_dict_loop example_cleaners ["no_space"; "upper_p"] example_lines ∅
       = Ok d
       ∧ d !! "LJ001-0001" = Some "Printing".
Proof.
  destruct (Manifest.trans_dict_loop example_cleaners ["no_space"; "upper_p"]
              example_lines ∅) as [d|e] eqn:Hrun; [|by vm_compute in Hrun].
  exists d. split; [done|].
  destruct (trans_dict_last_line_wins example_cleaners ["no_space"; "upper_p"]
              example_lines d Hrun) as [_ Hlast].
  destruct (Hlast (take 2 example_lines) "LJ001-0001|Printing|printing" []
              "LJ001-0001" "Printing" "printing") as (text & Hclean & Hd).
  - reflexivity.
  - reflexivity.
  - apply not_elem_of_nil.
  - vm_compute in Hclean. injection Hclean as <-. exact Hd.
Defined.

(** ** The json manifests *)

Lemma size_list_to_set_le (l : list string) :
  (size (list_to_set l : gset string) ≤ length l)%nat.
Proof.
  induction l as [|x l IH]; [done|].
  rewrite list_to_set_cons. cbn [length].
  pose proof (size_union_alt {[x]} (list_to_set l : gset string)) as Hsz.
  pose proof (subseteq_size (list_to_set l ∖ {[x]}) (list_to_set l : gset string)
                ltac:(apply subseteq_difference_l; done)) as Hle.
  rewrite size_singleton in Hsz. lia.
Qed.

Section Json.
Context (num_samples : string → Z) (trans_dict : gmap string string).

Lemma json_entry_cases (wav_file : string) :
  (∃ e, Manifest.json_entry num_samples trans_dict wav_file = Ok (uttid_of wav_file, e)
        ∧ trans_dict !! uttid_of wav_file = Some (Manifest.words e)
        ∧ Manifest.length e
          = (inject_Z (num_samples wav_file) / inject_Z Manifest.SAMPLERATE)%Q)
  ∨ (trans_dict !! uttid_of wav_file = None
     ∧ Manifest.json_entry num_samples trans_dict wav_file
       = Raise (KeyError (KStr (uttid_of wav_file)))).
Proof.
  unfold Manifest.json_entry, uttid_of, last_item.
  destruct (last (split_on LJSpeech.sep wav_file)) as [name|] eqn:Hl; cycle 1.
  { apply last_None in Hl. by apply split_on_nonempty in Hl. }
  simpl. destruct (trans_dict !! (LJSpeech.splitext name).1) as [text|] eqn:Ht.
  - left. by eexists.
  - by right.
Qed.

Lemma create_json_loop_app (pre post : list string) (acc : gmap string Manifest.entry) :
  Manifest.create_json_loop num_samples trans_dict (pre ++ post) acc
  = result_bind (Manifest.create_json_loop num_samples trans_dict pre acc)
                (λ d, Manifest.create_json_loop num_samples trans_dict post d).
Proof.
  revert acc. induction pre as [|w pre IH]; intros acc; simpl; [done|].
  destruct (Manifest.json_entry num_samples trans_dict w) as [[u e]|err]; simpl; [|done].
  apply IH.
Qed.

Lemma create_json_loop_ok (wav_list : list string) (acc : gmap string Manifest.entry) :
  Forall (λ w, is_Some (trans_dict !! uttid_of w)) wav_list →
  ∃ d, Manifest.create_json_loop num_samples trans_dict wav_list acc = Ok d.
Proof.
  revert acc. induction wav_list as [|w l IH]; intros acc Hall; simpl; [by eexists|].
  apply Forall_cons in Hall as [[text Hw] Hall].
  destruct (json_entry_cases w) as [(e & -> & _)|[Hnone _]]; [|congruence].
  simpl. by apply IH.
Qed.

Lemma create_json_loop_entries (wav_list : list string) (acc d : gmap string Manifest.entry) :
  Manifest.create_json_loop num_samples trans_dict wav_list acc = Ok d →
  dom d = dom acc ∪ list_to_set (uttid_of <$> wav_list)
  ∧ ((∀ u e, acc !! u = Some e → trans_dict !! u = Some (Manifest.words e)) →
     ∀ u e, d !! u = Some e → trans_dict !! u = Some (Manifest.words e)).
Proof.
  revert acc. induction wav_list as [|w l IH]; intros acc; simpl.
  - intros [= <-]. split; [|done]. by rewrite (right_id_L ∅ (∪)).
  - destruct (json_entry_cases w) as [(e & -> & Hw & _)|[_ ->]]; [|done]. simpl.
    intros [Hdom Hwords]%IH. split.
    + apply set_eq. intros x. rewrite Hdom, dom_insert_L, !elem_of_union. tauto.
    + intros Hacc. apply Hwords. intros u e'.
      destruct (decide (uttid_of w = u)) as [<-|Hne].
      * rewrite lookup_insert_eq. by intros [= <-].
      * rewrite lookup_insert_ne by done. apply Hacc.
Qed.

(** [create_json] returns when every file has a transcription under its
    utterance id: the manifest then has one entry per utterance id, so at
    most one per file and exactly one when no two files share an id, and
    the words of an entry are the transcription of its id.  The first file
    without a transcription raises [KeyError] for its utterance id. *)
Theorem create_json_entries (wav_list : list string) :
  (Forall (λ w, is_Some (trans_dict !! uttid_of w)) wav_list →
   ∃ d, Manifest.create_json num_samples wav_list trans_dict = Ok d
        ∧ dom d = list_to_set (uttid_of <$> wav_list)
        ∧ (∀ u e, d !! u = Some e → trans_dict !! u = Some (Manifest.words e))
        ∧ (size d ≤ length wav_list)%nat
        ∧ (NoDup (uttid_of <$> wav_list) → size d = length wav_list))
  ∧ (∀ pre w post,
       wav_list = pre ++ w :: post →
       Forall (λ w, is_Some (trans_dict !! uttid_of w)) pre →
       trans_dict !! uttid_of w = None →
       Manifest.create_json num_samples wav_list trans_dict
       = Raise (KeyError (KStr (uttid_of w)))).
Proof.
  split.
  - intros Hall. destruct (create_json_loop_ok wav_list ∅ Hall) as [d Hd].
    exists d. destruct (create_json_loop_entries _ _ _ Hd) as [Hdom Hwords].
    rewrite dom_empty_L, (left_id_L ∅ (∪)) in Hdom.
    split_and!; [done | done | | |].
    + apply Hwords. intros u e. by rewrite lookup_empty.
    + rewrite <- size_dom, Hdom, <- (length_fmap uttid_of wav_list).
      apply size_list_to_set_le.
    + intros Hnd. rewrite <- size_dom, Hdom, size_list_to_set by done.
      apply length_fmap.
  - intros pre w post -> Hpre Hw. unfold Manifest.create_json.
    rewrite create_json_loop_app.
    destruct (create_json_loop_ok pre ∅ Hpre) as [d ->]. simpl.
    destruct (json_entry_cases w) as [(e & _ & Hsome & _)|[_ ->]]; [congruence|done].
Qed.

End Json.

Lemma create_json_entries_witness :
  Manifest.create_json (λ _, 44100)
    ["/data/LJSpeech-1.1/wavs/LJ001-0001.wav"; "/data/LJSpeech-1.1/wavs/LJ001-0003.wav";
     "/data/LJSpeech-1.1/wavs/LJ001-0002.wav"] example_trans_dict
  = Raise (KeyError (KStr "LJ001-0003")).
Proof.
  destruct (create_json_entries (λ _, 44100) example_trans_dict
              ["/data/LJSpeech-1.1/wavs/LJ001-0001.wav";
               "/data/LJSpeech-1.1/wavs/LJ001-0003.wav";
               "/data/LJSpeech-1.1/wavs/LJ001-0002.wav"]) as [_ Hraise].
  apply (Hraise ["/data/LJSpeech-1.1/wavs/LJ001-0001.wav"]
                "/data/LJSpeech-1.1/wavs/LJ001-0003.wav"
                ["/data/LJSpeech-1.1/wavs/LJ001-0002.wav"]).
  - reflexivity.
  - constructor; [|constructor]. vm_compute. by eexists.
  - vm_compute. reflexivity.
Defined.

(** ** From the file list to the three manifests *)

(** No utterance id of the exclusion list is a key of a manifest, and every
    file that is not excluded has its utterance id in one of the three;
    when no two files share an utterance id, no id is in two manifests. *)
Theorem excluded_uttids_not_in_manifests (num_samples : string → Z)
    (wav_list uttids_to_excl filtered : list string) (valid_percent test_percent : Q)
    (s : LJSpeech.splits) (trans_dict : gmap string string)
    (train valid test : gmap string Manifest.entry)
    (Hexcl : LJSpeech.exclude_uttids wav_list uttids_to_excl = Ok filtered)
    (Hsplit : LJSpeech.split_wav_list filtered valid_percent test_percent = Ok s)
    (Htrain : Manifest.create_json num_samples (LJSpeech.wav_list_train s) trans_dict
              = Ok train)
    (Hvalid : Manifest.create_json num_samples (LJSpeech.wav_list_valid s) trans_dict
              = Ok valid)
    (Htest : Manifest.create_json num_samples (LJSpeech.wav_list_test s) trans_dict
             = Ok test) :
  (∀ u, u ∈ uttids_to_excl → train !! u = None ∧ valid !! u = None ∧ test !! u = None)
  ∧ (∀ w, w ∈ wav_list → uttid_of w ∉ uttids_to_excl →
          is_Some (train !! uttid_of w) ∨ is_Some (valid !! uttid_of w)
          ∨ is_Some (test !! uttid_of w))
  ∧ (NoDup (uttid_of <$> wav_list) →
     dom train ## dom valid ∧ dom train ## dom test ∧ dom valid ## dom test).
Proof.
  rewrite exclude_uttids_eq_filter in Hexcl. injection Hexcl as <-.
  apply split_by_counts_concat in Hsplit as [Hcat _].
  apply create_json_loop_entries in Htrain as [Htrain _].
  apply create_json_loop_entries in Hvalid as [Hvalid _].
  apply create_json_loop_entries in Htest as [Htest _].
  rewrite dom_empty_L, (left_id_L ∅ (∪)) in Htrain, Hvalid, Htest.
  assert (Hkey : ∀ (d : gmap string Manifest.entry) (part : list string) u,
             dom d = list_to_set (uttid_of <$> part) →
             (is_Some (d !! u) ↔ ∃ w, w ∈ part ∧ uttid_of w = u)).
  { intros d part u Hd. rewrite <- elem_of_dom, Hd, elem_of_list_to_set, list_elem_of_fmap.
    split; intros (w & ? & ?); by exists w. }
  assert (Hpart : ∀ w, w ∈ filter (λ wav_p, uttid_of wav_p ∉ uttids_to_excl) wav_list
                       ↔ w ∈ LJSpeech.wav_list_train s ∨ w ∈ LJSpeech.wav_list_valid s
                         ∨ w ∈ LJSpeech.wav_list_test s).
  { intros w. by rewrite <- Hcat, !elem_of_app. }
  split_and!.
  - intros u Hu.
    assert (Hnot : ∀ (d : gmap string Manifest.entry) part,
               dom d = list_to_set (uttid_of <$> part) →
               (∀ w, w ∈ part →
                     w ∈ filter (λ wav_p, uttid_of wav_p ∉ uttids_to_excl) wav_list) →
               d !! u = None).
    { intros d part Hd Hsub. apply eq_None_not_Some.
      intros (w & Hw & <-)%(Hkey d part).
      - by apply Hsub, list_elem_of_filter in Hw as [? _].
      - done. }
    split_and!.
    + apply (Hnot _ _ Htrain). intros w Hw. apply Hpart. auto.
    + apply (Hnot _ _ Hvalid). intros w Hw. apply Hpart. auto.
    + apply (Hnot _ _ Htest). intros w Hw. apply Hpart. auto.
  - intros w Hw Hout.
    assert (Hin : w ∈ filter (λ wav_p, uttid_of wav_p ∉ uttids_to_excl) wav_list)
      by (by apply list_elem_of_filter).
    apply Hpart in Hin as [Hin|[Hin|Hin]].
    + left. apply (Hkey _ _ _ Htrain). by exists w.
    + right. left. apply (Hkey _ _ _ Hvalid). by exists w.
    + right. right. apply (Hkey _ _ _ Htest). by exists w.
  - intros Hnd.
    assert (Hnd' : NoDup (uttid_of <$> (LJSpeech.wav_list_train s
                                        ++ LJSpeech.wav_list_valid s
                                        ++ LJSpeech.wav_list_test s))).
    { rewrite Hcat. eapply sublist_NoDup; [exact Hnd|].
      apply fmap_sublist. apply sublist_filter. }
    rewrite !fmap_app in Hnd'.
    apply NoDup_app in Hnd' as (_ & Hd1 & Hnd').
    apply NoDup_app in Hnd' as (_ & Hd2 & _).
    rewrite Htrain, Hvalid, Htest.
    split_and!; intros u Hu1 Hu2; rewrite elem_of_list_to_set in Hu1, Hu2.
    + apply (Hd1 u Hu1). apply elem_of_app. by left.
    + apply (Hd1 u Hu1). apply elem_of_app. by right.
    + by apply (Hd2 u Hu1).
Qed.

Lemma excluded_uttids_not_in_manifests_witness :
  ∃ s train,
    LJSpeech.split_wav_list example_filtered (1 # 10) (2 # 10) = Ok s
    ∧ Manifest.create_json (λ _, 44100) (LJSpeech.wav_list_train s) example_full_trans_dict
      = Ok train
    ∧ train !! "LJ001-0003" = None
    ∧ is_Some (train !! "LJ001-0004").
Proof.
  destruct (LJSpeech.split_wav_list example_filtered (1 # 10) (2 # 10))
    as [s|e] eqn:Hs; [|by vm_compute in Hs].
  destruct (Manifest.create_json (λ _, 44100) (LJSpeech.wav_list_train s)
              example_full_trans_dict) as [train|e] eqn:Htrain;
    [|vm_compute in Hs; injection Hs as <-; by vm_compute in Htrain].
  destruct (Manifest.create_json (λ _, 44100) (LJSpeech.wav_list_valid s)
              example_full_trans_dict) as [valid|e] eqn:Hvalid;
    [|vm_compute in Hs; injection Hs as <-; by vm_compute in Hvalid].
  destruct (Manifest.create_json (λ _, 44100) (LJSpeech.wav_list_test s)
              example_full_trans_dict) as [test|e] eqn:Htest;
    [|vm_compute in Hs; injection Hs as <-; by vm_compute in Htest].
  destruct (excluded_uttids_not_in_manifests (λ _, 44100)
              example_wav_list example_uttids_to_excl example_filtered
              (1 # 10) (2 # 10) s example_full_trans_dict train valid test
              ltac:(vm_compute; reflexivity) Hs Htrain Hvalid Htest)
    as (Hexcl & Hkept & _).
  exists s, train. split_and!; [done | done | |].
  - apply (Hexcl "LJ001-0003"). apply (bool_decide_unpack _). vm_compute. reflexivity.
  - vm_compute in Hs. injection Hs as <-. vm_compute in Htrain. injection Htrain as <-.
    vm_compute. by eexists.
Defined.

(** ** The path written to the manifest *)

Section WavPath.

Lemma starts_with_first (c : ascii) (p s : list ascii) :
  Manifest.starts_with (c :: p) s = true → c ∈ s.
Proof.
  destruct s as [|x s]; simpl; [done|].
  destruct (Ascii.eqb_spec c x) as [->|_]; [|done]. intros _. by left.
Qed.

Lemma starts_with_app (p t : list ascii) : Manifest.starts_with p (p ++ t) = true.
Proof. induction p as [|x p IH]; simpl; [done|]. by rewrite Ascii.eqb_refl. Qed.

(** A match that ends with [c] in a text whose first [c] comes after [s]
    covers [s] exactly. *)
Lemma starts_with_upto (c : ascii) (p s rest : list ascii) :
  c ∉ p → c ∉ s →
  Manifest.starts_with (p ++ [c]) (s ++ c :: rest) = true → s = p.
Proof.
  revert s. induction p as [|a p IH]; intros s Hp Hs; simpl.
  - destruct s as [|x s]; [done|]. simpl.
    destruct (Ascii.eqb_spec c x) as [->|_]; [|done].
    apply not_elem_of_cons in Hs as [? _]. done.
  - apply not_elem_of_cons in Hp as [Hca Hp].
    destruct s as [|x s]; simpl.
    + destruct (Ascii.eqb_spec a c) as [->|_]; done.
    + apply not_elem_of_cons in Hs as [Hcx Hs].
      destruct (Ascii.eqb_spec a x) as [->|_]; [|done].
      simpl. intros Hrest. f_equal. by apply IH.
Qed.

Lemma sub_from_before (c : ascii) (p repl s t : list ascii) :
  c ∉ s →
  Manifest.sub_from (c :: p) repl 0 (s ++ t) = s ++ Manifest.sub_from (c :: p) repl 0 t.
Proof.
  intros Hs. induction s as [|x s IH]; [done|].
  apply not_elem_of_cons in Hs as [Hx Hs].
  cbn [app Manifest.sub_from].
  destruct (Manifest.starts_with (c :: p) (x :: s ++ t)) eqn:Hst.
  - simpl in Hst. destruct (Ascii.eqb_spec c x); [done|]. done.
  - f_equal. by apply IH.
Qed.

Lemma sub_from_skip (pat repl a t : list ascii) :
  Manifest.sub_from pat repl (length a) (a ++ t) = Manifest.sub_from pat repl 0 t.
Proof. induction a as [|x a IH]; [done|]. simpl. apply IH. Qed.

Lemma sub_from_match (c : ascii) (p repl t : list ascii) :
  Manifest.sub_from (c :: p) repl 0 ((c :: p) ++ t)
  = repl ++ Manifest.sub_from (c :: p) repl 0 t.
Proof.
  pose proof (starts_with_app (c :: p) t) as Hsw.
  cbn [app] in Hsw |- *. cbn [Manifest.sub_from]. rewrite Hsw. f_equal.
  replace (length (c :: p) - 1)%nat with (length p) by (simpl; lia).
  apply sub_from_skip.
Qed.

Lemma sub_from_wavs (f g : list ascii) :
  "/"%char ∉ f → f ≠ ["w"; "a"; "v"; "s"]%char → "/"%char ∉ g →
  Manifest.sub_from (list_ascii_of_string "/wavs/") (list_ascii_of_string "/wavs_16khz/") 0
    (list_ascii_of_string "{data_root}"
     ++ "/"%char :: f ++ list_ascii_of_string "/wavs/" ++ g)
  = list_ascii_of_string "{data_root}"
    ++ "/"%char :: f ++ list_ascii_of_string "/wavs_16khz/" ++ g.
Proof.
  intros Hf Hne Hg.
  set (pat := list_ascii_of_string "/wavs/").
  set (repl := list_ascii_of_string "/wavs_16khz/").
  assert (Hpat : pat = "/"%char :: ["w"; "a"; "v"; "s"]%char ++ ["/"%char]) by done.
  rewrite Hpat at 1. rewrite sub_from_before
    by (apply (bool_decide_unpack _); vm_compute; reflexivity).
  f_equal. rewrite <- Hpat.
  assert (Hst : Manifest.starts_with pat ("/"%char :: f ++ pat ++ g) = false).
  { apply not_true_is_false. intros Hst. apply Hne.
    rewrite Hpat in Hst. cbn [Manifest.starts_with app] in Hst.
    rewrite Ascii.eqb_refl in Hst. cbn [andb] in Hst.
    apply (starts_with_upto "/"%char ["w"; "a"; "v"; "s"]%char f
             (["w"; "a"; "v"; "s"; "/"]%char ++ g)); [|done|exact Hst].
    apply (bool_decide_unpack _). vm_compute. reflexivity. }
  cbn [Manifest.sub_from]. rewrite Hst. f_equal.
  rewrite Hpat at 1. rewrite sub_from_before by done. f_equal. rewrite <- Hpat.
  rewrite Hpat. rewrite sub_from_match. f_equal.
  rewrite <- (app_nil_r g) at 1. rewrite sub_from_before by done.
  cbn [Manifest.sub_from]. by rewrite app_nil_r.
Qed.

Lemma chars_path (root folder mid file : string) :
  list_ascii_of_string
    (root +:+ String "/" (folder +:+ String "/" (mid +:+ String "/" file)))
  = list_ascii_of_string root
    ++ "/"%char :: list_ascii_of_string folder
    ++ ("/"%char :: list_ascii_of_string mid ++ ["/"%char]) ++ list_ascii_of_string file.
Proof.
  rewrite list_ascii_of_string_app. cbn [list_ascii_of_string].
  rewrite list_ascii_of_string_app. cbn [list_ascii_of_string].
  rewrite list_ascii_of_string_app. cbn [list_ascii_of_string].
  cbn [app]. by rewrite <- ?app_assoc.
Qed.

Lemma re_sub_wavs (folder file : string) :
  "/"%char ∉ chars folder → folder ≠ "wavs" → "/"%char ∉ chars file →
  Manifest.re_sub "/wavs/" "/wavs_16khz/"
    ("{data_root}" +:+ String "/" (folder +:+ String "/" ("wavs" +:+ String "/" file)))
  = "{data_root}" +:+ String "/" (folder +:+ String "/" ("wavs_16khz" +:+ String "/" file)).
Proof.
  unfold chars. intros Hfolder Hne Hfile. unfold Manifest.re_sub.
  apply chars_inj. unfold chars. rewrite list_ascii_of_string_of_list_ascii.
  rewrite !chars_path.
  apply (sub_from_wavs _ _ Hfolder); [|done].
  intros Hf. apply Hne. apply chars_inj. exact Hf.
Qed.

Lemma py_slice_last_three {A} (pre : list A) (a b c : A) :
  py_slice (pre ++ [a; b; c]) (Some (-3)) None = [a; b; c].
Proof.
  unfold py_slice, slice_index. cbn [from_option].
  rewrite length_app. cbn [length].
  destruct (Z.ltb_spec (-3) 0) as [_|?]; [|lia].
  replace (Z.to_nat (Z.max (Z.of_nat (length pre + 3) + -3) 0)) with (length pre) by lia.
  rewrite drop_app_length. apply take_ge. simpl. lia.
Qed.

Lemma last_chars_app (s1 s2 : string) (c : ascii) :
  last (list_ascii_of_string (s1 +:+ String c s2))
  = last (c :: list_ascii_of_string s2).
Proof.
  rewrite list_ascii_of_string_app. cbn [list_ascii_of_string].
  induction (list_ascii_of_string s1) as [|x l IH]; [done|].
  rewrite <- IH. cbn [app]. rewrite last_cons.
  destruct (last (l ++ c :: list_ascii_of_string s2)) eqn:Hl; [done|].
  apply last_None in Hl. by destruct l.
Qed.

Lemma last_not_sep (s : string) (c : ascii) :
  "/"%char ∉ chars s → c ≠ "/"%char →
  last (c :: list_ascii_of_string s) ≠ Some "/"%char.
Proof.
  unfold chars. intros Hs Hc Hl. apply last_Some_elem_of in Hl.
  apply elem_of_cons in Hl as [?|?]; done.
Qed.

Lemma os_path_join_cons (a b : string) (rest : list string) :
  "/"%char ∉ chars b → a ≠ "" → last (list_ascii_of_string a) ≠ Some "/"%char →
  Manifest.os_path_join a (b :: rest) = Manifest.os_path_join (a +:+ String "/" b) rest.
Proof.
  intros Hb Ha Hlast. unfold Manifest.os_path_join. cbn [fold_left]. f_equal.
  destruct (Manifest.starts_with [LJSpeech.sep] (list_ascii_of_string b)) eqn:Hst.
  { by apply starts_with_first in Hst. }
  rewrite (bool_decide_eq_false_2 (a = "")) by done.
  by rewrite (bool_decide_eq_false_2 (last (list_ascii_of_string a) = Some LJSpeech.sep)).
Qed.

Lemma os_path_join_three (folder file : string) :
  "/"%char ∉ chars folder → folder ≠ "" → "/"%char ∉ chars file →
  Manifest.os_path_join "{data_root}" [folder; "wavs"; file]
  = "{data_root}" +:+ String "/" (folder +:+ String "/" ("wavs" +:+ String "/" file)).
Proof.
  intros Hfolder Hne Hfile.
  rewrite os_path_join_cons; [|done|done|by vm_compute].
  rewrite os_path_join_cons; cycle 1.
  { apply (bool_decide_unpack _). vm_compute. reflexivity. }
  { by destruct folder. }
  { rewrite last_chars_app. destruct folder as [|x folder]; [done|].
    cbn [list_ascii_of_string]. rewrite last_cons.
    destruct (last (x :: list_ascii_of_string folder)) as [y|] eqn:Hl;
      [|by apply last_None in Hl].
    intros [= ->]. apply last_Some_elem_of in Hl. done. }
  rewrite os_path_join_cons; cycle 1.
  { done. }
  { by destruct folder. }
  { rewrite last_chars_app. by vm_compute. }
  unfold Manifest.os_path_join. cbn [fold_left].
  apply chars_inj. unfold chars. rewrite chars_path.
  repeat (rewrite list_ascii_of_string_app; cbn [list_ascii_of_string]).
  cbn [app]. by rewrite <- ?app_assoc.
Qed.

(** For a file [root/folder/wavs/file], where [folder] is not empty and is
    not itself called "wavs", the entry of the manifest is filed under the
    name of the file without its extension, and its path is
    [{data_root}/folder/wavs_16khz/file]: the last three parts of the path
    under the placeholder of the data folder, in the folder of the
    downsampled files.  Its length is the number of samples over 22050. *)
Theorem json_entry_wav_path (num_samples : string → Z) (trans_dict : gmap string string)
    (root folder file text : string)
    (Hfolder : "/"%char ∉ chars folder) (Hne : folder ≠ "") (Hwavs : folder ≠ "wavs")
    (Hfile : "/"%char ∉ chars file)
    (Htext : trans_dict !! (LJSpeech.splitext file).1 = Some text) :
  let wav_file := root +:+ String "/" (folder +:+ String "/" ("wavs" +:+ String "/" file)) in
  Manifest.json_entry num_samples trans_dict wav_file
  = Ok ((LJSpeech.splitext file).1,
        {| Manifest.wav :=
             "{data_root}" +:+ String "/"
               (folder +:+ String "/" ("wavs_16khz" +:+ String "/" file));
           Manifest.length := (inject_Z (num_samples wav_file) / inject_Z 22050)%Q;
           Manifest.words := text |}).
Proof.
  intros wav_file. unfold Manifest.json_entry.
  assert (Hparts : split_on LJSpeech.sep wav_file
                   = split_on "/" root ++ [folder; "wavs"; file]).
  { unfold wav_file, LJSpeech.sep. rewrite !split_on_app.
    rewrite (split_on_no_sep _ folder Hfolder), (split_on_no_sep _ file Hfile).
    rewrite (split_on_no_sep _ "wavs")
      by (apply (bool_decide_unpack _); vm_compute; reflexivity).
    done. }
  rewrite Hparts. unfold last_item.
  assert (Hlast : last (split_on "/" root ++ [folder; "wavs"; file]) = Some file).
  { rewrite (assoc_L (++) _ [folder; "wavs"] [file]). apply last_snoc. }
  rewrite Hlast.
  cbn [result_bind]. rewrite py_slice_last_three, Htext.
  rewrite (os_path_join_three _ _ Hfolder Hne Hfile).
  by rewrite (re_sub_wavs _ _ Hfolder Hwavs Hfile).
Qed.

End WavPath.

Lemma json_entry_wav_path_witness :
  ∃ e, Manifest.json_entry (λ _, 44100) example_trans_dict
         "/corpora/LJSpeech-1.1/wavs/LJ001-0002.wav"
       = Ok ("LJ001-0002", e)
       ∧ Manifest.wav e = "{data_root}/LJSpeech-1.1/wavs_16khz/LJ001-0002.wav"
       ∧ Manifest.words e = "in being".
Proof.
  pose proof (json_entry_wav_path (λ _, 44100) example_trans_dict
                "/corpora" "LJSpeech-1.1" "LJ001-0002.wav" "in being"
                ltac:(apply (bool_decide_unpack _); vm_compute; reflexivity)
                ltac:(discriminate) ltac:(discriminate)
                ltac:(apply (bool_decide_unpack _); vm_compute; reflexivity)
                ltac:(vm_compute; reflexivity)) as Hrun.
  eexists. split; [exact Hrun|]. split; reflexivity.
Defined.

(** ** Showing results while training *)

Section SLUShowResults.
Context `{Engine} (slu : SLU.HParams) (tokenizer : Tokenizer).

Lemma filter_print_printed_lines (predicted target : list (list string)) :
  filter is_print_event (concat (zip_with printed_lines predicted target))
  = concat (zip_with printed_lines predicted target).
Proof.
  revert target. induction predicted as [|p predicted IH]; intros [|t target]; try done.
  cbn [zip_with concat printed_lines app].
  rewrite !filter_cons_True by done. by rewrite IH.
Qed.

(** In the TRAIN stage [compute_objectives] shows results on every
    hundredth batch only: when [batch_count] is a multiple of 100 it
    prints three lines for every utterance of the batch, with the decoded
    tokens of the beam search, and otherwise it logs nothing; it never
    touches the error-rate accumulators. *)
Theorem slu_train_shows_every_hundredth (batch : SLU.Batch) (preds : SLU.predictions)
    (b b' : Brain) (loss : Tensor) (n : Z)
    (Hn : batch_count b = Some n)
    (Hrun : SLU.compute_objectives slu tokenizer preds batch TRAIN b = (Ok loss, b')) :
  cer_metric b' = cer_metric b ∧ wer_metric b' = wer_metric b
  ∧ (n `mod` 100 ≠ 0 → new_events b b' = [])
  ∧ (n `mod` 100 = 0 →
     ∃ p l t predicted,
       preds = SLU.Pred3 p l t
       ∧ comprehension (λ ids, result_bind (decode_ids ids) (λ s, Ok (split_on " " s))) t
         = Ok predicted
       ∧ (length (SLU.semantics batch) ≤ length predicted)%nat
       ∧ new_events b b'
         = concat (zip_with printed_lines predicted (split_on " " <$> SLU.semantics batch))
       ∧ length (filter is_print_event (new_events b b'))
         = (3 * length (SLU.semantics batch))%nat).
Proof.
  unfold SLU.compute_objectives in Hrun.
  apply bind_ok_inv in Hrun as (quiet & b1 & Hq & Hrun).
  unfold SLU.quiet_train_batch in Hq.
  apply bind_ok_inv in Hq as (n' & b2 & [Hn' ->]%getattr_ok_inv & [-> ->]%mret_ok_inv).
  assert (n' = n) as -> by congruence.
  apply bind_ok_inv in Hrun as ([[p l] t] & b1 & Hunpack & Hrun).
  destruct (SLU.tokens_eos batch) as [tokens_eos tokens_eos_lens].
  destruct (SLU.tokens batch) as [tokens tokens_lens].
  match type of Hrun with
  | context [match ?x with _ => _ end] =>
      match x with
      | match SLU.env_corrupt slu with _ => _ end => destruct x as [te tel]
      end
  end.
  apply bind_ok_inv in Hrun as (show & b2 & Hshow & Hrun).
  apply bind_ok_inv in Hrun as ([] & b3 & Hbody & [_ ->]%mret_ok_inv).
  change SLU.show_results_every with 100 in *.
  destruct (Z.eqb_spec (n `mod` 100) 0) as [Hmod|Hmod]; cbn [negb] in Hunpack.
  - destruct preds as [p0 l0|p0 l0 t0]; [done|].
    apply mret_ok_inv in Hunpack as [[= -> -> ->] ->].
    apply bind_ok_inv in Hshow as (m & b4 & [Hm ->]%getattr_ok_inv & [-> ->]%mret_ok_inv).
    assert (m = n) as -> by congruence.
    rewrite (proj2 (Z.eqb_eq _ _) Hmod) in Hbody.
    apply bind_ok_inv in Hbody as (predicted & b4 & [Hdec ->]%lift_ok_inv & Hbody).
    apply bind_ok_inv in Hbody as ([] & b4 & Hprint & [_ ->]%mret_ok_inv).
    destruct (print_results_from 0 predicted
                (split_on " " <$> SLU.semantics batch) b)
      as (b5 & Hp & Htrace & _ & _ & Hcer & Hwer).
    rewrite Hprint in Hp. rewrite drop_0 in Hp, Htrace. rewrite length_fmap in Hp.
    case_decide as Hlen; [|done]. injection Hp as <-.
    pose proof (new_events_app _ _ _ Htrace) as Hev.
    split_and!; [done | done | done |]. intros _.
    exists p0, l0, t0, predicted. split_and!; [done..|].
    rewrite Hev, filter_print_printed_lines.
    clear -Hlen. rewrite <- (length_fmap (split_on " ")) in Hlen |- *.
    revert Hlen. generalize (split_on " " <$> SLU.semantics batch). intros target.
    revert predicted. induction target as [|x target IH]; intros [|y predicted] Hlen;
      simpl in *; try done; try lia.
    rewrite IH by lia. lia.
  - destruct preds as [p0 l0|p0 l0 t0]; [|done].
    apply mret_ok_inv in Hunpack as [[= -> -> ->] ->].
    apply bind_ok_inv in Hshow as (m & b4 & [Hm ->]%getattr_ok_inv & [-> ->]%mret_ok_inv).
    assert (m = n) as -> by congruence.
    rewrite (proj2 (Z.eqb_neq _ _) Hmod) in Hbody.
    apply mret_ok_inv in Hbody as [_ ->].
    split_and!; [done | done | | done].
    intros _. apply new_events_app. by rewrite app_nil_r.
Qed.

End SLUShowResults.

Lemma slu_train_shows_every_hundredth_witness :
  ∃ b', SLU.compute_objectives example_slu_hparams simple_tokenizer
          (@SLU.Pred3 example_engine 4 [(3 # 3)%Q; (3 # 3)%Q] [[2; 3]; [4]])
          example_slu_batch TRAIN (set_batch_count 200 example_brain)
        = (Ok 10, b')
        ∧ length (filter is_print_event
                    (new_events (set_batch_count 200 example_brain) b')) = 6%nat.
Proof.
  destruct (SLU.compute_objectives example_slu_hparams simple_tokenizer
              (@SLU.Pred3 example_engine 4 [(3 # 3)%Q; (3 # 3)%Q] [[2; 3]; [4]])
              example_slu_batch TRAIN (set_batch_count 200 example_brain))
    as [[loss|e] b'] eqn:Hrun; [|by vm_compute in Hrun].
  assert (loss = 10) as -> by (vm_compute in Hrun; by injection Hrun as <- _).
  exists b'. split; [done|].
  destruct (slu_train_shows_every_hundredth (H := example_engine) example_slu_hparams
              simple_tokenizer example_slu_batch _ (set_batch_count 200 example_brain)
              b' 10 200 eq_refl Hrun)
    as (_ & _ & _ & Hshow).
  destruct (Hshow eq_refl) as (p & l & t & predicted & _ & _ & _ & _ & Hlen).
  exact Hlen.
Defined.

(** ** The end of a TEST stage, and batches outside a stage *)

Section StageEdges.
Context `{Engine} (slu : SLU.HParams) (asr : ASR.HParams) (tokenizer : Tokenizer).

Lemma slu_on_stage_end_test stage_loss epoch b cer wer :
  cer_metric b = Some cer → wer_metric b = Some wer →
  ∃ b', SLU.on_stage_end slu TEST stage_loss epoch b = (Ok tt, b')
        ∧ trace b' = trace b ++
            [LogStats (EpochLoaded (SLU.epoch_counter_current slu)) None None
                      (Some (eval_stats stage_loss cer wer));
             WriteStats (SLU.wer_file slu) wer]
        ∧ cer_metric b' = Some cer ∧ wer_metric b' = Some wer
        ∧ train_stats b' = train_stats b.
Proof.
  intros Hcer Hwer. eexists. split.
  - cbv beta iota zeta delta [SLU.on_stage_end mbind M_bind bind getattr emit modify
                               get mret M_ret ret].
    rewrite Hcer; cbv beta iota. rewrite Hwer; cbv beta iota.
    cbn [wer_metric log_event]. rewrite Hwer. reflexivity.
  - cbn. rewrite <- !app_assoc. by split_and!.
Qed.

(** At the end of a TEST stage, with both accumulators assigned,
    [on_stage_end] of both recipes returns after exactly two calls: it logs
    the statistics of the stage (the loss and the two error rates, under
    "loss", "CER" and "WER") as test statistics with the epoch that was
    loaded, and writes the word error rate accumulator to [wer_file]. *)
Theorem test_end_logs_and_writes (stage_loss : Float) (epoch : Z) (b : Brain)
    (cer wer : ErrorRateStats)
    (Hcer : cer_metric b = Some cer) (Hwer : wer_metric b = Some wer) :
  let stats : Stats :=
    {["loss" := stage_loss; "CER" := summarize cer "error_rate";
      "WER" := summarize wer "error_rate"]} in
  (∃ b', SLU.on_stage_end slu TEST stage_loss epoch b = (Ok tt, b')
         ∧ new_events b b'
           = [LogStats (EpochLoaded (SLU.epoch_counter_current slu)) None None (Some stats);
              WriteStats (SLU.wer_file slu) wer])
  ∧ (∃ b', ASR.on_stage_end asr TEST stage_loss epoch b = (Ok tt, b')
           ∧ new_events b b'
             = [LogStats (EpochLoaded (ASR.epoch_counter_current asr)) None None (Some stats);
                WriteStats (ASR.wer_file asr) wer]).
Proof.
  intros stats.
  assert (Hstats : eval_stats stage_loss cer wer = stats).
  { unfold eval_stats, stats. apply map_eq. intros k.
    rewrite !lookup_insert, !lookup_singleton.
    repeat case_decide; congruence. }
  split.
  - destruct (slu_on_stage_end_test stage_loss epoch b cer wer Hcer Hwer)
      as (b' & Hrun & Htrace & _).
    exists b'. split; [done|]. rewrite <- Hstats. by apply new_events_app.
  - destruct (asr_on_stage_end_test asr stage_loss epoch b cer wer Hcer Hwer)
      as (b' & Hrun & Htrace & _).
    exists b'. split; [done|]. rewrite <- Hstats. by apply new_events_app.
Qed.

(** [SLU.fit_batch] reads [batch_count] in the forward pass: called before
    any [on_stage_start] has assigned it, it raises, and nothing has been
    logged or assigned by then. *)
Theorem slu_fit_batch_before_stage_start (batch : SLU.Batch) (b : Brain)
    (Hcount : batch_count b = None) :
  ∃ e, SLU.fit_batch slu tokenizer batch b = (Raise e, b).
Proof.
  unfold SLU.fit_batch. rewrite run_bind.
  pose proof (compute_forward_pure slu batch TRAIN b) as Hpure.
  destruct (SLU.compute_forward slu batch TRAIN b) as [[preds|e] b1] eqn:Hfwd.
  - apply compute_forward_train_count in Hfwd as [n Hn]. congruence.
  - simpl in Hpure. subst b1. by exists e.
Qed.

(** The ASR recipe has no such attribute to read: in the TRAIN stage
    [compute_forward] followed by [compute_objectives] returns for every
    batch and from every state; it takes the steps of the data path, logs
    the loss of the batch, and leaves the error-rate accumulators alone. *)
Theorem asr_train_batch_always_returns (batch : ASR.Batch) (b : Brain) :
  ∃ preds b1 loss b2,
    ASR.compute_forward asr batch TRAIN b = (Ok preds, b1)
    ∧ ASR.compute_objectives asr tokenizer preds batch TRAIN b1 = (Ok loss, b2)
    ∧ new_events b b2 = (Step <$> ASR.batch_steps asr TRAIN) ++ [LogDict "iter_loss" loss]
    ∧ cer_metric b2 = cer_metric b ∧ wer_metric b2 = wer_metric b
    ∧ train_stats b2 = train_stats b.
Proof.
  destruct (prepare_features_trace asr TRAIN (ASR.sig batch) (ASR.wav_path batch) b)
    as ([feats lens] & b0 & Hprep & Htrace & Hts).
  assert (Hkeep : cer_metric b0 = cer_metric b ∧ wer_metric b0 = wer_metric b).
  { pose proof (asr_prepare_features_frame asr cer_metric (λ _ _, eq_refl)
                  TRAIN (ASR.sig batch) (ASR.wav_path batch) b) as Hc.
    pose proof (asr_prepare_features_frame asr wer_metric (λ _ _, eq_refl)
                  TRAIN (ASR.sig batch) (ASR.wav_path batch) b) as Hw.
    rewrite Hprep in Hc, Hw. done. }
  destruct Hkeep as [Hc Hw].
  destruct (ASR.prepare_tokens asr TRAIN (ASR.tokens batch))
    as [tokens tokens_lens] eqn:Htok.
  eexists _, _, _, _. split.
  { unfold ASR.compute_forward. rewrite run_bind, Hprep. cbv beta iota.
    rewrite run_bind, run_modify. cbv beta iota. cbn [ASR.is_ctc_active].
    apply run_mret. }
  split.
  { unfold ASR.compute_objectives. rewrite Htok.
    unfold ASR.predictions_getitem. rewrite lookup_insert_eq.
    rewrite run_bind, run_mret. cbv beta iota.
    rewrite run_bind, (run_getattr _ _ _ lens) by done. cbv beta iota.
    rewrite run_bind, run_emit. cbv beta iota.
    rewrite run_bind, run_mret. cbv beta iota. apply run_mret. }
  split_and!; [|done..].
  apply new_events_app. cbn [trace log_event set_feat_lens]. rewrite Htrace.
  by rewrite <- app_assoc.
Qed.

End StageEdges.

Lemma test_end_logs_and_writes_witness :
  ∃ b', SLU.on_stage_end example_slu_hparams TEST 7 1 example_valid_brain = (Ok tt, b')
        ∧ length (new_events example_valid_brain b') = 2%nat.
Proof.
  destruct (test_end_logs_and_writes (H := example_engine) example_slu_hparams
              example_asr_hparams 7 1 example_valid_brain example_cer example_wer
              eq_refl eq_refl) as [(b' & Hrun & Hev) _].
  exists b'. split; [exact Hrun|]. by rewrite Hev.
Defined.

Lemma slu_fit_batch_before_stage_start_witness :
  ∃ e, SLU.fit_batch example_slu_hparams simple_tokenizer example_slu_batch example_brain
       = (Raise e, example_brain).
Proof.
  apply (slu_fit_batch_before_stage_start (H := example_engine)). reflexivity.
Defined.
